(** * nextpnr channel router: bind / unbind / rip-up, costs, set-up, settings

    A shallow embedding of [common/channel_router.cc] and
    [common/settings.h], and the properties of the router's design
    description that can be settled on them.

    Conventions.
    - A C++ [int] is a [Z].  Signed overflow is undefined behaviour in C++;
      the embedding computes in [Z] and so describes the runs in which no
      [int] operation overflows.  The conversion of a float to an [int]
      is checked: it is undefined when the [int] cannot hold the value.
    - [float] is IEEE binary32 and [double] is IEEE binary64, both taken
      from the Standard Library's [SpecFloat] with round-to-nearest-even.
    - [std::vector] is a [list]; [.at] raises [out_of_range].
    - [boost::container::flat_map<int, V>] is a [gmap Z V].
    - An exception ends the run: a function that can throw returns a
      [result].  A [while] loop is unrolled by a fuel counter. *)

From Stdlib Require Import ZArith Floats.SpecFloat DecimalString.
From Stdlib Require DecimalZ DecimalPos.
From stdpp Require Import gmap strings list fin_maps sorting.

Open Scope Z_scope.

(** ** Exceptions *)

Inductive exn :=
  | assertion_failure      (* NPNR_ASSERT *)
  | out_of_range           (* std::vector::at, flat_map::at *)
  | length_error           (* std::vector::resize with a size beyond max_size *)
  | undefined_behaviour    (* integer division by zero, float-to-int of a non-number or beyond int *)
  | log_execution_error    (* log_error *)
  | out_of_fuel.           (* the fuel of a [while] loop ran out: not a C++ outcome *)

Inductive result (A : Type) :=
  | Ok (a : A)
  | Raise (e : exn).
Arguments Ok {A} a.
Arguments Raise {A} e.

Global Instance result_ret : MRet result := λ A a, Ok a.
Global Instance result_bind : MBind result := λ A B f m,
  match m with Ok a => f a | Raise e => Raise e end.
Global Instance result_fmap : FMap result := λ A B f m,
  match m with Ok a => Ok (f a) | Raise e => Raise e end.

Definition NPNR_ASSERT (b : bool) : result unit :=
  if b then Ok tt else Raise assertion_failure.

Definition is_Raise {A} (r : result A) : Prop :=
  match r with Ok _ => False | Raise _ => True end.

(** [for (auto a : l) body(a)] over a state that [body] may abort. *)
Fixpoint for_each {A S : Type} (body : A → S → result S) (l : list A) (s : S)
  : result S :=
  match l with
  | [] => Ok s
  | a :: l' => s' ← body a s; for_each body l' s'
  end.

(** [std::vector::at] with an [int] index: a negative index converts to a
    huge [size_t] and is out of range as well. *)
Definition vec_at {A} (v : list A) (i : Z) : result A :=
  if bool_decide (0 ≤ i) then
    match v !! Z.to_nat i with
    | Some a => Ok a
    | None => Raise out_of_range
    end
  else Raise out_of_range.

(** [flat_map::at]. *)
Definition map_at {V} (m : gmap Z V) (k : Z) : result V :=
  match m !! k with
  | Some v => Ok v
  | None => Raise out_of_range
  end.

(** [flat_map::count]. *)
Definition map_count {V} (m : gmap Z V) (k : Z) : Z :=
  if m !! k is Some _ then 1 else 0.

(** ** Machine integers *)

(** [std::numeric_limits<int>::max()] and [::min()]. *)
Definition INT_MAX : Z := 2147483647.
Definition INT_MIN : Z := -2147483648.

(** ** Floating point *)

Abbreviation float := spec_float (only parsing).
Abbreviation double := spec_float (only parsing).

Module F32.
Definition prec := 24.
Definition emax := 128.
Definition add : float → float → float := SFadd prec emax.
Definition mul : float → float → float := SFmul prec emax.
Definition div : float → float → float := SFdiv prec emax.
Definition eqb : float → float → bool := SFeqb.
Definition gtb (a b : float) : bool := SFltb b a.
(** int to float *)
Definition of_int (z : Z) : float := binary_normalize prec emax z 0 false.
(** a dyadic literal [m * 2^e] *)
Definition lit (m e : Z) : float := binary_normalize prec emax m e false.
Definition one : float := of_int 1.
(** The integral part of a finite float: the fraction is discarded, which
    rounds toward zero. *)
Definition trunc (f : float) : option Z :=
  match f with
  | S754_zero _ => Some 0
  | S754_finite s m e =>
      let a := match e with
               | Z0 => Z.pos m
               | Z.pos p => Z.shiftl (Z.pos m) e
               | Z.neg p => Z.shiftr (Z.pos m) (Z.pos p)
               end in
      Some (if s then - a else a)
  | _ => None
  end.
(** float to int: the integral part when an [int] can hold it; the
    conversion is undefined for a non-number, for an infinity and for a
    value whose integral part lies beyond [INT_MIN .. INT_MAX]. *)
Definition to_int (f : float) : result Z :=
  match trunc f with
  | Some z =>
      if bool_decide (INT_MIN ≤ z ≤ INT_MAX) then Ok z
      else Raise undefined_behaviour
  | None => Raise undefined_behaviour
  end.
End F32.

Module F64.
Definition prec := 53.
Definition emax := 1024.
Definition add : double → double → double := SFadd prec emax.
Definition mul : double → double → double := SFmul prec emax.
Definition of_int (z : Z) : double := binary_normalize prec emax z 0 false.
Definition lit (m e : Z) : double := binary_normalize prec emax m e false.
(** double to float: one rounding to nearest. *)
Definition to_f32 (d : double) : float :=
  match d with
  | S754_finite s m e => binary_round F32.prec F32.emax s m e
  | _ => d
  end.
End F64.

(** ** Data model *)

(** [channel_router.h] is not part of the sources at hand: the records
    below carry the fields that [channel_router.cc] reads and writes,
    with the types the design description gives them. *)

Module ChannelNode.
Record t := mk { x : Z; y : Z; type : Z }.
End ChannelNode.
Abbreviation ChannelNode := ChannelNode.t.

Global Instance ChannelNode_eq_dec : EqDecision ChannelNode.
Proof. solve_decision. Defined.

(** [operator==] and [operator!=] on ChannelNode. *)
Definition node_eq (a b : ChannelNode) : bool :=
  (ChannelNode.x a =? ChannelNode.x b) && (ChannelNode.y a =? ChannelNode.y b)
  && (ChannelNode.type a =? ChannelNode.type b).

Definition node_ne (a b : ChannelNode) : bool :=
  negb (ChannelNode.x a =? ChannelNode.x b) || negb (ChannelNode.y a =? ChannelNode.y b)
  || negb (ChannelNode.type a =? ChannelNode.type b).

(** Modelled from the spec: the value of a default-constructed ChannelNode
    ([ChannelNode()], declared in the missing header).  [bind_node_internal]
    overwrites it before it can be read. *)
Definition ChannelNode_default : ChannelNode := ChannelNode.mk 0 0 0.

Inductive dir_t := DIR_EAST | DIR_WEST | DIR_NORTH | DIR_SOUTH.

Module Downhill.
Record t := mk { src_along : Z; dst_type : Z; dst_along : Z }.
End Downhill.

Module Channel.
Record t := mk {
  dir : dir_t;
  length : Z;
  cost : float;
  width : Z;
  downhill : list Downhill.t
}.
End Channel.
Abbreviation Channel := Channel.t.

Module ArcBounds.
Record t := mk { x0 : Z; y0 : Z; x1 : Z; y1 : Z }.
End ArcBounds.
Abbreviation ArcBounds := ArcBounds.t.

Module NodeScore.
Record t := mk { cost : float; togo_cost : float; delay : Z }.
Definition total (s : t) : float := F32.add (cost s) (togo_cost s).
End NodeScore.

(** The [visit] scratch of PerNodeData is left out: no function of the
    file reads or writes it. *)
Module PerNodeData.
Record t := mk {
  downhill : list ChannelNode;
  uphill : list ChannelNode;
  (* net --> number of arcs; driving node *)
  bound_nets : gmap Z (Z * ChannelNode);
  hist_cong_cost : float;
  unavailable : bool;
  reserved_net : Z
}.
Definition init : t := mk [] [] ∅ F32.one false (-1).
Definition set_bound_nets (w : t) (m : gmap Z (Z * ChannelNode)) : t :=
  mk (downhill w) (uphill w) m (hist_cong_cost w) (unavailable w) (reserved_net w).
Definition push_downhill (w : t) (n : ChannelNode) : t :=
  mk (downhill w ++ [n]) (uphill w) (bound_nets w) (hist_cong_cost w)
     (unavailable w) (reserved_net w).
Definition push_uphill (w : t) (n : ChannelNode) : t :=
  mk (downhill w) (uphill w ++ [n]) (bound_nets w) (hist_cong_cost w)
     (unavailable w) (reserved_net w).
End PerNodeData.
Abbreviation PerNodeData := PerNodeData.t.

Module PerArcData.
Record t := mk { sink_node : ChannelNode; bb : ArcBounds; routed : bool }.
Definition init : t :=
  mk ChannelNode_default (ArcBounds.mk 0 0 0 0) false.
End PerArcData.
Abbreviation PerArcData := PerArcData.t.

Module PerNetData.
Record t := mk {
  src_node : ChannelNode;
  arcs : list PerArcData;
  bb : ArcBounds;
  cx : Z; cy : Z; hpwl : Z;
  total_route_us : Z
}.
Definition init : t :=
  mk ChannelNode_default [] (ArcBounds.mk 0 0 0 0) 0 0 0 0.
Definition set_arcs (n : t) (a : list PerArcData) : t :=
  mk (src_node n) a (bb n) (cx n) (cy n) (hpwl n) (total_route_us n).
End PerNetData.
Abbreviation PerNetData := PerNetData.t.

(** *** The netlist and the graph provider

    [nextpnr.h] is not part of the sources either.  A net is known to the
    router by its name, its driver cell (absent for an undriven net), its
    users and the scratch integer [udata]; a [NetInfo *] is the net's key
    in [ctx->nets]. *)

Abbreviation IdString := string (only parsing).

Module PortRef.
Record t := mk { cell : string; port : string }.
End PortRef.
Abbreviation PortRef := PortRef.t.

Module NetInfo.
Record t := mk {
  name : IdString;
  driver_cell : option string;
  users : list PortRef;
  udata : Z
}.
Definition set_udata (n : t) (u : Z) : t :=
  mk (name n) (driver_cell n) (users n) u.
End NetInfo.
Abbreviation NetInfo := NetInfo.t.

Module Property.
Record t := mk { str : string }.
End Property.

Module Context.
Record t := mk {
  nets : gmap string NetInfo;
  settings : gmap string Property.t;
  debug : bool
}.
Definition set_nets (c : t) (n : gmap string NetInfo) : t :=
  mk n (settings c) (debug c).
Definition set_settings (c : t) (s : gmap string Property.t) : t :=
  mk (nets c) s (debug c).
End Context.
Abbreviation Context := Context.t.

Module ChannelGraph.
Record t := mk {
  get_width : Z;
  get_height : Z;
  get_channels : list Channel;
  get_source_node : NetInfo → ChannelNode;
  get_sink_node : NetInfo → PortRef → ChannelNode
}.
End ChannelGraph.
Abbreviation ChannelGraph := ChannelGraph.t.

Module ChannelRouterCfg.
Record t := mk {
  bb_margin_x : Z;
  bb_margin_y : Z;
  togo_cost_dx : float;
  togo_cost_dy : float;
  togo_cost_adder : float;
  bias_cost_factor : float
}.
End ChannelRouterCfg.
Abbreviation ChannelRouterCfg := ChannelRouterCfg.t.

(** *** ChannelRouterState *)

Record ChannelRouterState := mkState {
  ctx : Context;
  cfg : ChannelRouterCfg;
  g : ChannelGraph;
  width : Z;
  height : Z;
  (* xy -> index *)
  nodes : list (list PerNodeData);
  channel_types : list Channel;
  nets_by_udata : list (option IdString);
  nets : list PerNetData;
  curr_cong_weight : double;
  hist_cong_weight : double;
  estimate_weight : double
}.

Definition set_ctx (st : ChannelRouterState) (c : Context) :=
  mkState c (cfg st) (g st) (width st) (height st) (nodes st) (channel_types st)
    (nets_by_udata st) (nets st) (curr_cong_weight st) (hist_cong_weight st)
    (estimate_weight st).

Definition set_cfg (st : ChannelRouterState) (c : ChannelRouterCfg) :=
  mkState (ctx st) c (g st) (width st) (height st) (nodes st) (channel_types st)
    (nets_by_udata st) (nets st) (curr_cong_weight st) (hist_cong_weight st)
    (estimate_weight st).

Definition set_dims (st : ChannelRouterState) (w h : Z) :=
  mkState (ctx st) (cfg st) (g st) w h (nodes st) (channel_types st)
    (nets_by_udata st) (nets st) (curr_cong_weight st) (hist_cong_weight st)
    (estimate_weight st).

Definition set_nodes (st : ChannelRouterState) (n : list (list PerNodeData)) :=
  mkState (ctx st) (cfg st) (g st) (width st) (height st) n (channel_types st)
    (nets_by_udata st) (nets st) (curr_cong_weight st) (hist_cong_weight st)
    (estimate_weight st).

Definition set_channel_types (st : ChannelRouterState) (c : list Channel) :=
  mkState (ctx st) (cfg st) (g st) (width st) (height st) (nodes st) c
    (nets_by_udata st) (nets st) (curr_cong_weight st) (hist_cong_weight st)
    (estimate_weight st).

Definition set_nets_by_udata (st : ChannelRouterState) (l : list (option IdString)) :=
  mkState (ctx st) (cfg st) (g st) (width st) (height st) (nodes st)
    (channel_types st) l (nets st) (curr_cong_weight st) (hist_cong_weight st)
    (estimate_weight st).

Definition set_nets (st : ChannelRouterState) (n : list PerNetData) :=
  mkState (ctx st) (cfg st) (g st) (width st) (height st) (nodes st)
    (channel_types st) (nets_by_udata st) n (curr_cong_weight st)
    (hist_cong_weight st) (estimate_weight st).

(** ** Node access *)

(** [node_data]: the reference it returns is read with [node_data] and
    written back with [set_node_data]. *)
Definition node_data (st : ChannelRouterState) (node : ChannelNode)
  : result PerNodeData :=
  _ ← NPNR_ASSERT ((ChannelNode.x node >=? 0) && (ChannelNode.x node <? width st));
  _ ← NPNR_ASSERT ((ChannelNode.y node >=? 0) && (ChannelNode.y node <? height st));
  row ← vec_at (nodes st) (ChannelNode.y node * width st + ChannelNode.x node)%Z;
  vec_at row (ChannelNode.type node).

Definition set_node_data (st : ChannelRouterState) (node : ChannelNode)
  (w : PerNodeData) : ChannelRouterState :=
  set_nodes st
    (alter (λ row, <[Z.to_nat (ChannelNode.type node) := w]> row)
       (Z.to_nat (ChannelNode.y node * width st + ChannelNode.x node)%Z)
       (nodes st)).

(** ** Bind, unbind, rip-up *)

Definition bind_node_internal (st : ChannelRouterState) (net : NetInfo)
  (node uphill : ChannelNode) : result ChannelRouterState :=
  w ← node_data st node;
  (* operator[]: a missing entry is value-initialised *)
  let b := default (0, ChannelNode_default)
             (PerNodeData.bound_nets w !! NetInfo.udata net) in
  let first := b.1 + 1 in
  if first =? 1 then
    Ok (set_node_data st node
          (PerNodeData.set_bound_nets w
             (<[NetInfo.udata net := (first, uphill)]> (PerNodeData.bound_nets w))))
  else
    _ ← NPNR_ASSERT (node_eq b.2 uphill);
    Ok (set_node_data st node
          (PerNodeData.set_bound_nets w
             (<[NetInfo.udata net := (first, b.2)]> (PerNodeData.bound_nets w)))).

Definition unbind_node_internal (st : ChannelRouterState) (net : NetInfo)
  (node : ChannelNode) : result ChannelRouterState :=
  w ← node_data st node;
  b ← map_at (PerNodeData.bound_nets w) (NetInfo.udata net);
  let first := b.1 - 1 in
  if first =? 0 then
    Ok (set_node_data st node
          (PerNodeData.set_bound_nets w
             (delete (NetInfo.udata net) (PerNodeData.bound_nets w))))
  else
    Ok (set_node_data st node
          (PerNodeData.set_bound_nets w
             (<[NetInfo.udata net := (first, b.2)]> (PerNodeData.bound_nets w)))).

(** The loop of [ripup_arc]: [while (cursor != src) { ... }]. *)
Fixpoint ripup_loop (fuel : nat) (st : ChannelRouterState) (net : NetInfo)
  (src cursor : ChannelNode) : result ChannelRouterState :=
  if node_ne cursor src then
    match fuel with
    | O => Raise out_of_fuel
    | S fuel' =>
        wd ← node_data st cursor;
        b ← map_at (PerNodeData.bound_nets wd) (NetInfo.udata net);
        let uphill := b.2 in
        st' ← unbind_node_internal st net cursor;
        ripup_loop fuel' st' net src uphill
    end
  else Ok st.

Definition set_arc_routed (st : ChannelRouterState) (net : NetInfo)
  (user : nat) (r : bool) : ChannelRouterState :=
  set_nets st
    (alter (λ nd, PerNetData.set_arcs nd
              (alter (λ ad, PerArcData.mk (PerArcData.sink_node ad)
                              (PerArcData.bb ad) r)
                 user (PerNetData.arcs nd)))
       (Z.to_nat (NetInfo.udata net)) (nets st)).

Definition ripup_arc (fuel : nat) (st : ChannelRouterState) (net : NetInfo)
  (user : nat) : result ChannelRouterState :=
  nd ← vec_at (nets st) (NetInfo.udata net);
  ad ← vec_at (PerNetData.arcs nd) (Z.of_nat user);
  if negb (PerArcData.routed ad) then Ok st
  else
    let src := PerNetData.src_node nd in
    let cursor := PerArcData.sink_node ad in
    st' ← ripup_loop fuel st net src cursor;
    Ok (set_arc_routed st' net user false).

(** ** Cost model *)

Definition present_node_cost (st : ChannelRouterState) (w : PerNodeData)
  (channel_type net_uid : Z) : result float :=
  let over_capacity := Z.of_nat (size (PerNodeData.bound_nets w)) in
  c ← vec_at (channel_types st) channel_type;
  let over_capacity := over_capacity - (Channel.width c - 1) in
  let over_capacity :=
    if negb (map_count (PerNodeData.bound_nets w) net_uid =? 0)
    then over_capacity - 1 else over_capacity in
  if over_capacity <=? 0 then Ok F32.one
  else
    (* int * double, int + double, and the double narrowed to the float
       that is returned *)
    Ok (F64.to_f32
          (F64.add (F64.of_int 1)
             (F64.mul (F64.of_int over_capacity) (curr_cong_weight st)))).

Definition hit_test_node (st : ChannelRouterState) (bb : ArcBounds)
  (n : ChannelNode) : bool :=
  (ChannelNode.x n >=? ArcBounds.x0 bb - ChannelRouterCfg.bb_margin_x (cfg st))
  && (ChannelNode.x n <=? ArcBounds.x1 bb + ChannelRouterCfg.bb_margin_x (cfg st))
  && (ChannelNode.y n >=? ArcBounds.y0 bb - ChannelRouterCfg.bb_margin_y (cfg st))
  && (ChannelNode.y n <=? ArcBounds.y1 bb + ChannelRouterCfg.bb_margin_y (cfg st)).

(** [source_uses]: the net's own use count at the node, 0 when the net is
    not bound there. *)
Definition source_uses_of (wd : PerNodeData) (uid : Z) : Z :=
  if negb (map_count (PerNodeData.bound_nets wd) uid =? 0) then
    match PerNodeData.bound_nets wd !! uid with
    | Some b => b.1
    | None => 0
    end
  else 0.

Definition score_node_for_arc (st : ChannelRouterState) (net : NetInfo)
  (user : nat) (node : ChannelNode) : result float :=
  wd ← node_data st node;
  nd ← vec_at (nets st) (NetInfo.udata net);
  c ← vec_at (channel_types st) (ChannelNode.type node);
  let base_cost := Channel.cost c in
  present_cost ← present_node_cost st wd (ChannelNode.type node) (NetInfo.udata net);
  let hist_cost := PerNodeData.hist_cong_cost wd in
  let source_uses := source_uses_of wd (NetInfo.udata net) in
  let bias_cost :=
    F32.mul
      (F32.mul (ChannelRouterCfg.bias_cost_factor (cfg st))
         (F32.div base_cost (F32.of_int (Z.of_nat (length (NetInfo.users net))))))
      (F32.div
         (F32.of_int (Z.abs (ChannelNode.x node - PerNetData.cx nd)
                      + Z.abs (ChannelNode.y node - PerNetData.cy nd)))
         (F32.of_int (PerNetData.hpwl nd))) in
  Ok (F32.add
        (F32.div (F32.mul (F32.mul base_cost hist_cost) present_cost)
           (F32.of_int (1 + source_uses)))
        bias_cost).

Definition get_togo_cost (st : ChannelRouterState) (net : NetInfo) (user : nat)
  (curr sink : ChannelNode) : result float :=
  wd ← node_data st curr;
  let source_uses := source_uses_of wd (NetInfo.udata net) in
  (* int base_cost = <float expression>: the value is truncated, and the
     conversion is undefined when the int cannot hold it *)
  base_cost ←
    F32.to_int
      (F32.add
         (F32.add
            (F32.mul (ChannelRouterCfg.togo_cost_dx (cfg st))
               (F32.of_int (Z.abs (ChannelNode.x curr - ChannelNode.x sink))))
            (F32.mul (ChannelRouterCfg.togo_cost_dy (cfg st))
               (F32.of_int (Z.abs (ChannelNode.y curr - ChannelNode.y sink)))))
         (ChannelRouterCfg.togo_cost_adder (cfg st)));
  (* int / int, then the conversion to the float that is returned *)
  if 1 + source_uses =? 0 then Raise undefined_behaviour
  else Ok (F32.of_int (Z.quot base_cost (1 + source_uses))).

(** ** The search queue *)

Module QueuedNode.
Record t := mk {
  node : ChannelNode;
  prev : ChannelNode;
  score : NodeScore.t;
  randtag : Z
}.

Definition Greater (lhs rhs : t) : bool :=
  let lhs_score := F32.add (NodeScore.cost (score lhs)) (NodeScore.togo_cost (score lhs)) in
  let rhs_score := F32.add (NodeScore.cost (score rhs)) (NodeScore.togo_cost (score rhs)) in
  if F32.eqb lhs_score rhs_score then randtag lhs >? randtag rhs
  else F32.gtb lhs_score rhs_score.
End QueuedNode.

(** [std::priority_queue<T, std::vector<T>, Compare>::top()]: the queue
    keeps on top an element that [Compare] orders before no other one.
    [pq_top comp e l] is that element of [e :: l]. *)
Fixpoint pq_top {T} (comp : T → T → bool) (best : T) (l : list T) : T :=
  match l with
  | [] => best
  | e :: l' => pq_top comp (if comp best e then e else best) l'
  end.

(** ** Set-up of the graph *)

(** The two [switch] statements of [setup_nodes]: the cell [(x, y)] moved
    by [along] against the direction of the channel. *)
Definition displace (d : dir_t) (x y along : Z) : Z * Z :=
  match d with
  | DIR_EAST => (x - along, y)
  | DIR_WEST => (x + along, y)
  | DIR_NORTH => (x, y - along)
  | DIR_SOUTH => (x, y + along)
  end.

(** A write through a reference [nodes.at(row).at(col)] that was taken
    successfully. *)
Definition alter_slot (st : ChannelRouterState) (row col : Z)
  (f : PerNodeData → PerNodeData) : ChannelRouterState :=
  set_nodes st (alter (alter f (Z.to_nat col)) (Z.to_nat row) (nodes st)).

(** The body of the innermost loop: one downhill template [dh] of channel
    type [t] (which is [c]) at the cell [(x, y)]. *)
Definition add_downhill (x y t : Z) (c : Channel) (dh : Downhill.t)
  (st : ChannelRouterState) : result ChannelRouterState :=
  _ ← NPNR_ASSERT (Downhill.src_along dh <=? Channel.length c);
  let '(start_x, start_y) := displace (Channel.dir c) x y (Downhill.src_along dh) in
  d ← vec_at (channel_types st) (Downhill.dst_type dh);
  _ ← NPNR_ASSERT (Downhill.dst_along dh <=? Channel.length d);
  let '(end_x, end_y) := displace (Channel.dir d) x y (Downhill.dst_along dh) in
  src_row ← vec_at (nodes st) (start_y * width st + start_x)%Z;
  _ ← vec_at src_row t;
  dst_row ← vec_at (nodes st) (end_y * width st + end_x)%Z;
  _ ← vec_at dst_row (Downhill.dst_type dh);
  let st := alter_slot st (start_y * width st + start_x)%Z t
              (λ src, PerNodeData.push_downhill src
                        (ChannelNode.mk end_x end_y (Downhill.dst_type dh))) in
  let st := alter_slot st (end_y * width st + end_x)%Z (Downhill.dst_type dh)
              (λ dst, PerNodeData.push_uphill dst
                        (ChannelNode.mk start_x start_y t)) in
  Ok st.

Definition add_channel_type (x y t : Z) (st : ChannelRouterState)
  : result ChannelRouterState :=
  c ← vec_at (channel_types st) t;
  for_each (add_downhill x y t c) (Channel.downhill c) st.

Definition resize_cell (x y : Z) (st : ChannelRouterState)
  : result ChannelRouterState :=
  _ ← vec_at (nodes st) (y * width st + x)%Z;
  Ok (set_nodes st
        (alter (resize (length (channel_types st)) PerNodeData.init)
           (Z.to_nat (y * width st + x)%Z) (nodes st))).

Definition setup_nodes (st : ChannelRouterState) : result ChannelRouterState :=
  let st := set_dims st (ChannelGraph.get_width (g st)) (ChannelGraph.get_height (g st)) in
  if width st * height st <? 0 then Raise length_error
  else
    let st := set_nodes st (resize (Z.to_nat (width st * height st)) [] (nodes st)) in
    let st := set_channel_types st (ChannelGraph.get_channels (g st)) in
    st ← for_each (λ y, for_each (λ x, resize_cell x y) (seqZ 0 (width st)))
           (seqZ 0 (height st)) st;
    for_each
      (λ y, for_each
              (λ x, for_each (add_channel_type x y)
                      (seqZ 0 (Z.of_nat (length (channel_types st)))))
              (seqZ 0 (width st)))
      (seqZ 0 (height st)) st.

(** ** Set-up of the net records *)

(** Modelled from the spec: [sorted] of [util.h], which is not part of the
    sources, gives the nets in the canonical order of their names. *)
Definition sorted (m : gmap string NetInfo) : list (string * NetInfo) :=
  merge_sort (λ a b, Is_true (String.leb a.1 b.1)) (map_to_list m).


(** The body of the loop over the users of a driven net: arc [j] and the
    net's bounding box and centroid sum. *)
Definition setup_arc (gr : ChannelGraph) (ni : NetInfo) (src_node : ChannelNode)
  (acc : nat * PerNetData) (usr : PortRef) : nat * PerNetData :=
  let '(j, nd) := acc in
  let sink_node := ChannelGraph.get_sink_node gr ni usr in
  let arcs :=
    alter (λ ad,
        PerArcData.mk sink_node
          (* Set bounding box for this arc *)
          (ArcBounds.mk
             (Z.min (ChannelNode.x src_node) (ChannelNode.x sink_node))
             (Z.min (ChannelNode.y src_node) (ChannelNode.y sink_node))
             (Z.max (ChannelNode.x src_node) (ChannelNode.x sink_node))
             (Z.max (ChannelNode.y src_node) (ChannelNode.y sink_node)))
          (PerArcData.routed ad))
      j (PerNetData.arcs nd) in
  (* Expand net bounding box to include this arc *)
  let bb :=
    ArcBounds.mk
      (Z.min (ArcBounds.x0 (PerNetData.bb nd)) (ChannelNode.x sink_node))
      (Z.min (ArcBounds.y0 (PerNetData.bb nd)) (ChannelNode.y sink_node))
      (Z.max (ArcBounds.x1 (PerNetData.bb nd)) (ChannelNode.x sink_node))
      (Z.max (ArcBounds.y1 (PerNetData.bb nd)) (ChannelNode.y sink_node)) in
  (* Add location to centroid sum *)
  (S j,
   PerNetData.mk (PerNetData.src_node nd) arcs bb
     (PerNetData.cx nd + ChannelNode.x sink_node)
     (PerNetData.cy nd + ChannelNode.y sink_node)
     (PerNetData.hpwl nd) (PerNetData.total_route_us nd)).

(** The record of net [ni] from the slot's old contents, and whether the
    loop reaches its [i++] (it does not for a net without driver). *)
Definition setup_net_record (gr : ChannelGraph) (ni : NetInfo) (nd : PerNetData)
  : PerNetData * bool :=
  let arcs := resize (length (NetInfo.users ni)) PerArcData.init (PerNetData.arcs nd) in
  (* Start net bounding box at overall min/max *)
  let bb := ArcBounds.mk INT_MAX INT_MAX INT_MIN INT_MIN in
  match NetInfo.driver_cell ni with
  | None =>
      (PerNetData.mk (PerNetData.src_node nd) arcs bb 0 0 0
         (PerNetData.total_route_us nd), false)
  | Some _ =>
      let src_node := ChannelGraph.get_source_node gr ni in
      let nd1 :=
        PerNetData.mk src_node arcs
          (ArcBounds.mk (ChannelNode.x src_node) (ChannelNode.y src_node)
             (ChannelNode.x src_node) (ChannelNode.y src_node))
          (0 + ChannelNode.x src_node) (0 + ChannelNode.y src_node)
          (PerNetData.hpwl nd) (PerNetData.total_route_us nd) in
      let nd2 := (foldl (setup_arc gr ni src_node) (O, nd1) (NetInfo.users ni)).2 in
      let b := PerNetData.bb nd2 in
      let hpwl :=
        Z.max (Z.abs (ArcBounds.y1 b - ArcBounds.y0 b)
               + Z.abs (ArcBounds.x1 b - ArcBounds.x0 b)) 1 in
      let users1 := Z.of_nat (length (NetInfo.users ni) + 1) in
      (PerNetData.mk src_node (PerNetData.arcs nd2) b
         (Z.quot (PerNetData.cx nd2) users1) (Z.quot (PerNetData.cy nd2) users1)
         hpwl (PerNetData.total_route_us nd2), true)
  end.

(** The body of the loop over the nets; [i] is the loop's counter. *)
Definition setup_net (net : string * NetInfo) (acc : nat * ChannelRouterState)
  : result (nat * ChannelRouterState) :=
  let '(i, st) := acc in
  let '(key, ni0) := net in
  (* ni->udata = i *)
  let ni := NetInfo.set_udata ni0 (Z.of_nat i) in
  let st := set_ctx st (Context.set_nets (ctx st) (<[key := ni]> (Context.nets (ctx st)))) in
  _ ← vec_at (nets_by_udata st) (Z.of_nat i);
  let st := set_nets_by_udata st (<[i := Some key]> (nets_by_udata st)) in
  nd ← vec_at (nets st) (Z.of_nat i);
  let '(nd', counted) := setup_net_record (g st) ni nd in
  let st := set_nets st (<[i := nd']> (nets st)) in
  Ok (if counted then S i else i, st).

Definition setup_nets (st : ChannelRouterState) : result ChannelRouterState :=
  (* Populate per-net and per-arc structures at start of routing *)
  let n := size (Context.nets (ctx st)) in
  let st := set_nets st (resize n PerNetData.init (nets st)) in
  let st := set_nets_by_udata st (resize n None (nets_by_udata st)) in
  snd <$> for_each setup_net (sorted (Context.nets (ctx st))) (O, st).

(** ** The settings store *)

(** [boost::lexical_cast<T>] and [std::to_string] for the type [T] of a
    setting; [lexical_cast] is [None] where boost throws
    [bad_lexical_cast]. *)
Class SettingType (T : Type) := {
  lexical_cast : string → option T;
  to_string : T → string
}.

(** [Settings::get].  [ctx->id(name)] is the name itself.  [log_error]
    (of [log.h], not part of the sources) reports the error and ends the
    run. *)
Definition Settings_get {T} `{SettingType T} (c : Context) (name : string)
  (defaultValue : T) : result (T * Context) :=
  let id := name in
  match Context.settings c !! id with
  | Some p =>
      match lexical_cast (Property.str p) with
      | Some v => Ok (v, c)
      | None => Raise log_execution_error
      end
  | None =>
      Ok (defaultValue,
          Context.set_settings c
            (<[id := Property.mk (to_string defaultValue)]> (Context.settings c)))
  end.

Definition Settings_set {T} `{SettingType T} (c : Context) (name : string)
  (value : T) : Context :=
  Context.set_settings c (<[name := Property.mk (to_string value)]> (Context.settings c)).

(** Decimal integers: the strings that [std::to_string] writes for an
    [int] and their reading. *)
Global Instance SettingType_int : SettingType Z := {|
  lexical_cast s := Z.of_int <$> NilZero.int_of_string s;
  to_string z := NilZero.string_of_int (Z.to_int z)
|}.

(** [Settings::set<std::string>]: the string is stored as it is. *)
Definition Settings_set_string (c : Context) (name : string) (value : string)
  : Context :=
  Context.set_settings c (<[name := Property.mk value]> (Context.settings c)).

(** ** Notions used in the statements *)

(** The node is at a cell of the grid: the two assertions of [node_data]. *)
Definition in_grid (st : ChannelRouterState) (n : ChannelNode) : Prop :=
  0 ≤ ChannelNode.x n < width st ∧ 0 ≤ ChannelNode.y n < height st.

(** The row of [nodes] that holds a node: [y * width + x]. *)
Definition row_of (st : ChannelRouterState) (n : ChannelNode) : nat :=
  Z.to_nat (ChannelNode.y n * width st + ChannelNode.x n).

(** Several binds of one net at one node, one per arc that passes there. *)
Definition bind_all (st : ChannelRouterState) (net : NetInfo) (node : ChannelNode)
  (ups : list ChannelNode) : result ChannelRouterState :=
  for_each (λ up s, bind_node_internal s net node up) ups st.

(** The nodes that the loop of [ripup_arc] visits: from [cursor] along the
    stored uphill links until [src], which is not part of the list. *)
Fixpoint routed_path (fuel : nat) (st : ChannelRouterState) (uid : Z)
  (src cursor : ChannelNode) : option (list ChannelNode) :=
  if node_ne cursor src then
    match fuel with
    | O => None
    | S fuel' =>
        match node_data st cursor with
        | Ok wd =>
            match PerNodeData.bound_nets wd !! uid with
            | Some b => (cursor ::.) <$> routed_path fuel' st uid src b.2
            | None => None
            end
        | Raise _ => None
        end
    end
  else Some [].

(** The entry of net [uid] at a node, when the node exists. *)
Definition bound_at (st : ChannelRouterState) (n : ChannelNode) (uid : Z)
  : option (Z * ChannelNode) :=
  match node_data st n with
  | Ok w => PerNodeData.bound_nets w !! uid
  | Raise _ => None
  end.

(** What [unbind_node_internal] leaves of a node bound [c] times. *)
Definition unbound (w : PerNodeData) (uid c : Z) (up : ChannelNode) : PerNodeData :=
  PerNodeData.set_bound_nets w
    (if c - 1 =? 0 then delete uid (PerNodeData.bound_nets w)
     else <[uid := (c - 1, up)]> (PerNodeData.bound_nets w)).

(** How far a node is over capacity for a net, as the description has it:
    [|w.bound_nets| - (width - 1) - [N ∈ w.bound_nets]]. *)
Definition over_capacity_of (w : PerNodeData) (c : Channel) (net_uid : Z) : Z :=
  Z.of_nat (size (PerNodeData.bound_nets w)) - (Channel.width c - 1)
  - (if bool_decide (is_Some (PerNodeData.bound_nets w !! net_uid)) then 1 else 0).

(** The numerator of the estimate, in float arithmetic. *)
Definition togo_numerator (c : ChannelRouterCfg) (curr sink : ChannelNode) : float :=
  F32.add
    (F32.add
       (F32.mul (ChannelRouterCfg.togo_cost_dx c)
          (F32.of_int (Z.abs (ChannelNode.x curr - ChannelNode.x sink))))
       (F32.mul (ChannelRouterCfg.togo_cost_dy c)
          (F32.of_int (Z.abs (ChannelNode.y curr - ChannelNode.y sink)))))
    (ChannelRouterCfg.togo_cost_adder c).

(** The estimate as the description words it: the float numerator divided
    in float arithmetic by [1 + source_uses]. *)
Definition togo_as_described (st : ChannelRouterState) (net : NetInfo)
  (curr sink : ChannelNode) : result float :=
  wd ← node_data st curr;
  Ok (F32.div (togo_numerator (cfg st) curr sink)
        (F32.of_int (1 + source_uses_of wd (NetInfo.udata net)))).

(** The two formulas of the description, in float arithmetic. *)
Definition bias_formula (bias_cost_factor base : float) (users dist hpwl : Z) : float :=
  F32.mul (F32.mul bias_cost_factor (F32.div base (F32.of_int users)))
    (F32.div (F32.of_int dist) (F32.of_int hpwl)).

Definition score_formula (base hist present : float) (source_uses : Z)
  (bias : float) : float :=
  F32.add
    (F32.div (F32.mul (F32.mul base hist) present) (F32.of_int (1 + source_uses)))
    bias.

(** What the loops of [setup_nodes] keep: the dimensions, the channel
    types and the number of cells. *)
Definition grid_shape (W H : Z) (types : list Channel) (st : ChannelRouterState)
  : Prop :=
  width st = W ∧ height st = H ∧ channel_types st = types
  ∧ length (nodes st) = Z.to_nat (W * H).

(** The row index of a displaced cell is the row index of the cell plus
    an offset that depends on the template alone. *)
Definition row_offset (W : Z) (d : dir_t) (along : Z) : Z :=
  match d with
  | DIR_EAST => - along
  | DIR_WEST => along
  | DIR_NORTH => - along * W
  | DIR_SOUTH => along * W
  end.

(** The coordinate [p] is not a cell of the [W] x [H] grid. *)
Definition outside (W H : Z) (p : Z * Z) : Prop :=
  ¬ (0 ≤ p.1 < W ∧ 0 ≤ p.2 < H).

(** The cell at which a template with a non-zero offset leaves the rows:
    the first cell for a negative offset, the last one for a positive. *)
Definition failing_cell (W H off : Z) : Z * Z :=
  if off <? 0 then (0, 0) else (W - 1, H - 1).

(** The net has a driver: [ni->driver.cell != nullptr]. *)
Definition driven (net : string * NetInfo) : bool :=
  if NetInfo.driver_cell net.2 is Some _ then true else false.

(** The number of driven nets in a list. *)
Fixpoint count_driven (l : list (string * NetInfo)) : nat :=
  match l with
  | [] => O
  | net :: l' => ((if driven net then 1 else 0) + count_driven l')%nat
  end.

(** [k] unbinds of one net at one node, one after the other. *)
Definition unbind_all (st : ChannelRouterState) (net : NetInfo) (node : ChannelNode)
  (k : nat) : result ChannelRouterState :=
  for_each (λ _ s, unbind_node_internal s net node) (replicate k tt) st.

(** The uses that net [uid] has of a node, of all nodes together, and the
    condition that every stored use count of the net is positive. *)
Definition uses_of (uid : Z) (w : PerNodeData) : nat :=
  match PerNodeData.bound_nets w !! uid with
  | Some b => Z.to_nat b.1
  | None => O
  end.

Definition total_uses (st : ChannelRouterState) (uid : Z) : nat :=
  sum_list_with (sum_list_with (uses_of uid)) (nodes st).

Definition uses_positive (st : ChannelRouterState) (uid : Z) : Prop :=
  Forall (Forall (λ w, ∀ b, PerNodeData.bound_nets w !! uid = Some b → 0 < b.1))
    (nodes st).

(** Every row of [nodes] has one slot per channel type. *)
Definition rows_full (st : ChannelRouterState) : Prop :=
  Forall (λ row : list PerNodeData, length row = length (channel_types st)) (nodes st).

(** The row at place [idx] of [nodes], if there is one, has [n] slots. *)
Definition row_full (idx n : nat) (st : ChannelRouterState) : Prop :=
  ∀ row : list PerNodeData, nodes st !! idx = Some row → length row = n.

(** A junction template of channel [c] that stays on its cell and passes
    the checks of [setup_nodes]: both offsets are 0, the destination type
    exists, the lengths are not negative. *)
Definition same_cell_template (types : list Channel) (c : Channel) (dh : Downhill.t)
  : Prop :=
  Downhill.src_along dh = 0 ∧ 0 ≤ Channel.length c
  ∧ ∃ d, vec_at types (Downhill.dst_type dh) = Ok d
         ∧ Downhill.dst_along dh = 0 ∧ 0 ≤ Channel.length d.

(** The smallest box around two nodes, and a node that lies in a box. *)
Definition arc_box (a b : ChannelNode) : ArcBounds :=
  ArcBounds.mk (Z.min (ChannelNode.x a) (ChannelNode.x b))
    (Z.min (ChannelNode.y a) (ChannelNode.y b))
    (Z.max (ChannelNode.x a) (ChannelNode.x b))
    (Z.max (ChannelNode.y a) (ChannelNode.y b)).

Definition in_box (bb : ArcBounds) (n : ChannelNode) : Prop :=
  ArcBounds.x0 bb ≤ ChannelNode.x n ≤ ArcBounds.x1 bb
  ∧ ArcBounds.y0 bb ≤ ChannelNode.y n ≤ ArcBounds.y1 bb.

(** What the second pass of [setup_nodes] keeps. *)
Definition grid_full (W H : Z) (types : list Channel) (st : ChannelRouterState) : Prop :=
  grid_shape W H types st ∧ rows_full st.

(** ** A small device for the examples

    A 3 x 1 grid with one EAST channel type of width 1 and no junction
    template; net 0 is driven at (0,0,0) and has one user at (2,0,0). *)

Definition ex_channel : Channel := Channel.mk DIR_EAST 1 F32.one 1 [].

Definition ex_graph : ChannelGraph :=
  ChannelGraph.mk 3 1 [ex_channel]
    (λ _, ChannelNode.mk 0 0 0) (λ _ _, ChannelNode.mk 2 0 0).

Definition ex_cfg : ChannelRouterCfg :=
  ChannelRouterCfg.mk 0 0 F32.one F32.one (F32.of_int 0) F32.one.

Definition ex_net : NetInfo :=
  NetInfo.mk "n0" (Some "drv") [PortRef.mk "snk" "I"] 0.

Definition ex_netdata (routed : bool) : PerNetData :=
  PerNetData.mk (ChannelNode.mk 0 0 0)
    [PerArcData.mk (ChannelNode.mk 2 0 0) (ArcBounds.mk 0 0 2 0) routed]
    (ArcBounds.mk 0 0 2 0) 1 0 2 0.

Definition ex_state : ChannelRouterState :=
  mkState (Context.mk {[ "n0" := ex_net ]} ∅ false) ex_cfg ex_graph 3 1
    (replicate 3 [PerNodeData.init]) [ex_channel] [Some "n0"]
    [ex_netdata false] (F64.lit 1 (-1)) (F64.of_int 1) (F64.of_int 1).

(** The three nodes of the example device. *)
Definition n0 : ChannelNode := ChannelNode.mk 0 0 0.
Definition n1 : ChannelNode := ChannelNode.mk 1 0 0.
Definition n2 : ChannelNode := ChannelNode.mk 2 0 0.

(** A node that net 0 uses once, entered from [up]. *)
Definition ex_bound (up : ChannelNode) : PerNodeData :=
  PerNodeData.set_bound_nets PerNodeData.init {[ 0 := (1, up) ]}.

(** The example device with net 0 routed n0 -> n1 -> n2, the driver n0
    bound with itself as uphill. *)
Definition ex_routed : ChannelRouterState :=
  set_nets (set_nodes ex_state [[ex_bound n0]; [ex_bound n0]; [ex_bound n1]])
    [ex_netdata true].

(** The same device with the arc unrouted and the driver alone bound. *)
Definition ex_ripped : ChannelRouterState :=
  set_nodes ex_state [[ex_bound n0]; [PerNodeData.init]; [PerNodeData.init]].

(** Net 0 with a second arc that ends at n1: n1 carries two arcs. *)
Definition ex_shared : ChannelRouterState :=
  set_nets
    (set_nodes ex_state
       [ [ex_bound n0];
         [PerNodeData.set_bound_nets PerNodeData.init {[ 0 := (2, n0) ]}];
         [ex_bound n1] ])
    [PerNetData.mk n0
       [PerArcData.mk n2 (ArcBounds.mk 0 0 2 0) true;
        PerArcData.mk n1 (ArcBounds.mk 0 0 1 0) true]
       (ArcBounds.mk 0 0 2 0) 1 0 2 0].

(** A node of the example with nets 0, 1 and 2 bound, at weight 1/2:
    [over] is 2 for net 0, which is one of the three, and 3 for net 5. *)
Definition ex_crowded : PerNodeData :=
  PerNodeData.set_bound_nets PerNodeData.init
    {[ 0 := (1, n0); 1 := (1, n0); 2 := (1, n0) ]}.

(** The example with [togo_cost_dx = 3/2]. *)
Definition ex_state_frac : ChannelRouterState :=
  set_cfg ex_state
    (ChannelRouterCfg.mk 0 0 (F32.lit 3 (-1)) F32.one (F32.of_int 0) F32.one).

(** The example with [togo_cost_adder = 3000000000], which is a float and
    is more than an [int] holds. *)
Definition ex_state_far : ChannelRouterState :=
  set_cfg ex_state
    (ChannelRouterCfg.mk 0 0 F32.one F32.one (F32.of_int 3000000000) F32.one).

(** The routed example with nets 1 and 2 bound at n2 beside net 0: n2 is
    two nets over its capacity for net 0. *)
Definition ex_congested : ChannelRouterState :=
  set_nodes ex_routed [[ex_bound n0]; [ex_bound n0]; [ex_crowded]].

(** A queue entry for node [n], reached from n0. *)
Definition ex_entry (n : ChannelNode) (cost togo : float) (tag : Z) : QueuedNode.t :=
  QueuedNode.mk n n0 (NodeScore.mk cost togo 0) tag.

(** A 2 x 1 grid with one EAST channel type of length 1 whose only
    junction template starts one cell along the channel: applied at the
    cell (0,0) its source is (-1,0). *)
Definition ex_hop : Channel :=
  Channel.mk DIR_EAST 1 F32.one 1 [Downhill.mk 1 0 0].

Definition ex_hop_state : ChannelRouterState :=
  mkState (Context.mk ∅ ∅ false) ex_cfg
    (ChannelGraph.mk 2 1 [ex_hop] (λ _, n0) (λ _ _, n1))
    0 0 [] [] [] [] (F64.lit 1 (-1)) (F64.of_int 1) (F64.of_int 1).

(** The same grid with a template that stays on its cell. *)
Definition ex_loop_state : ChannelRouterState :=
  mkState (Context.mk ∅ ∅ false) ex_cfg
    (ChannelGraph.mk 2 1 [Channel.mk DIR_EAST 1 F32.one 1 [Downhill.mk 0 0 0]]
       (λ _, n0) (λ _ _, n1))
    0 0 [] [] [] [] (F64.lit 1 (-1)) (F64.of_int 1) (F64.of_int 1).

(** A context with one setting. *)
Definition ex_settings : Context :=
  Context.mk ∅ {[ "router/seed" := Property.mk "42" ]} false.

(** A netlist of two nets: "a" has a user and no driver, "b" is driven. *)
Definition ex_net_a : NetInfo := NetInfo.mk "a" None [PortRef.mk "snk" "I"] (-1).
Definition ex_net_b : NetInfo := NetInfo.mk "b" (Some "drv") [PortRef.mk "snk" "I"] (-1).

Definition ex_undriven : ChannelRouterState :=
  mkState (Context.mk {[ "a" := ex_net_a; "b" := ex_net_b ]} ∅ false) ex_cfg
    ex_graph 3 1 (replicate 3 [PerNodeData.init]) [ex_channel] [] []
    (F64.lit 1 (-1)) (F64.of_int 1) (F64.of_int 1).

(** The same netlist with a driver on "a" as well. *)
Definition ex_driven : ChannelRouterState :=
  set_ctx ex_undriven
    (Context.mk
       {[ "a" := NetInfo.mk "a" (Some "drv") [PortRef.mk "snk" "I"] (-1);
          "b" := ex_net_b ]} ∅ false).

(** The example with the uphill links of n1 and n2 in a circle. *)
Definition ex_circle : ChannelRouterState :=
  set_nets (set_nodes ex_state [[PerNodeData.init]; [ex_bound n2]; [ex_bound n1]])
    [ex_netdata true].

(** ** Facts on the error monad and on node access *)

Lemma bind_Ok {A B} (m : result A) (f : A → result B) (b : B) :
  m ≫= f = Ok b ↔ ∃ a, m = Ok a ∧ f a = Ok b.
Proof.
  destruct m as [a|e]; simpl; split.
  - intros H. exists a. auto.
  - intros (a' & [= <-] & H). exact H.
  - discriminate.
  - intros (a' & [=] & _).
Qed.

Lemma vec_at_Ok {A} (v : list A) (i : Z) (a : A) :
  vec_at v i = Ok a ↔ 0 ≤ i ∧ v !! Z.to_nat i = Some a.
Proof.
  unfold vec_at. case_bool_decide.
  - destruct (v !! Z.to_nat i) eqn:E; split.
    + intros [= ->]. auto.
    + intros [_ [= ->]]. reflexivity.
    + discriminate.
    + intros [_ [=]].
  - split; [discriminate | tauto].
Qed.

Lemma node_eq_true (a b : ChannelNode) : node_eq a b = true ↔ a = b.
Proof.
  unfold node_eq. destruct a as [ax ay at_], b as [bx by_ bt]. simpl.
  rewrite !andb_true_iff, !Z.eqb_eq. split.
  - intros [[-> ->] ->]. reflexivity.
  - intros [= -> -> ->]. auto.
Qed.

Lemma node_ne_negb (a b : ChannelNode) : node_ne a b = negb (node_eq a b).
Proof. unfold node_ne, node_eq. rewrite !negb_andb. reflexivity. Qed.

Lemma node_ne_true (a b : ChannelNode) : node_ne a b = true ↔ a ≠ b.
Proof.
  rewrite node_ne_negb, negb_true_iff, <- not_true_iff_false, node_eq_true.
  reflexivity.
Qed.

Lemma node_eq_refl (a : ChannelNode) : node_eq a a = true.
Proof. apply node_eq_true. reflexivity. Qed.

Lemma node_data_Ok (st : ChannelRouterState) (n : ChannelNode) (w : PerNodeData) :
  node_data st n = Ok w ↔
  in_grid st n ∧ 0 ≤ ChannelNode.type n ∧
  ∃ row, nodes st !! row_of st n = Some row
         ∧ row !! Z.to_nat (ChannelNode.type n) = Some w.
Proof.
  unfold node_data, in_grid, row_of, NPNR_ASSERT.
  rewrite !Z.geb_leb.
  destruct (0 <=? ChannelNode.x n) eqn:E1; simpl;
    [ apply Z.leb_le in E1
    | apply Z.leb_gt in E1; split; [discriminate | intros; exfalso; lia] ].
  destruct (ChannelNode.x n <? width st) eqn:E2; simpl;
    [ apply Z.ltb_lt in E2
    | apply Z.ltb_ge in E2; split; [discriminate | intros; exfalso; lia] ].
  destruct (0 <=? ChannelNode.y n) eqn:E3; simpl;
    [ apply Z.leb_le in E3
    | apply Z.leb_gt in E3; split; [discriminate | intros; exfalso; lia] ].
  destruct (ChannelNode.y n <? height st) eqn:E4; simpl;
    [ apply Z.ltb_lt in E4
    | apply Z.ltb_ge in E4; split; [discriminate | intros; exfalso; lia] ].
  rewrite bind_Ok. split.
  - intros (row & Hrow & Hw). apply vec_at_Ok in Hrow, Hw.
    destruct Hrow as [_ Hrow], Hw as [Ht Hw].
    repeat split; try lia. eauto.
  - intros (_ & Ht & row & Hrow & Hw). exists row.
    split; apply vec_at_Ok; split; auto; nia.
Qed.

Lemma row_of_inj (st : ChannelRouterState) (a b : ChannelNode) :
  in_grid st a → in_grid st b → row_of st a = row_of st b →
  ChannelNode.x a = ChannelNode.x b ∧ ChannelNode.y a = ChannelNode.y b.
Proof.
  unfold in_grid, row_of. intros Ha Hb H.
  assert (0 ≤ ChannelNode.y a * width st + ChannelNode.x a) by nia.
  assert (0 ≤ ChannelNode.y b * width st + ChannelNode.x b) by nia.
  assert (ChannelNode.y a * width st + ChannelNode.x a
          = ChannelNode.y b * width st + ChannelNode.x b) as Heq
      by (apply Z2Nat.inj; assumption).
  assert (ChannelNode.y a = ChannelNode.y b) by nia.
  split; [nia | assumption].
Qed.

Lemma set_node_data_dims (st : ChannelRouterState) n w :
  width (set_node_data st n w) = width st
  ∧ height (set_node_data st n w) = height st.
Proof. split; reflexivity. Qed.

Lemma node_data_set_eq (st : ChannelRouterState) n w w' :
  node_data st n = Ok w → node_data (set_node_data st n w') n = Ok w'.
Proof.
  rewrite !node_data_Ok. intros (Hg & Ht & row & Hrow & Hw).
  split; [exact Hg | split; [exact Ht | ] ].
  exists (<[Z.to_nat (ChannelNode.type n) := w']> row). split.
  - unfold set_node_data, row_of. simpl.
    rewrite list_lookup_alter_eq. unfold row_of in Hrow. rewrite Hrow.
    reflexivity.
  - apply list_lookup_insert_eq. eapply lookup_lt_Some, Hw.
Qed.

Lemma node_data_set_ne (st : ChannelRouterState) n n' w :
  in_grid st n → 0 ≤ ChannelNode.type n → n ≠ n' →
  node_data (set_node_data st n w) n' = node_data st n'.
Proof.
  intros Hg Ht Hne.
  assert (Hiff : ∀ w', node_data (set_node_data st n w) n' = Ok w'
                       ↔ node_data st n' = Ok w').
  { intros w'. rewrite !node_data_Ok. unfold in_grid, row_of, set_node_data.
    simpl. fold (row_of st n) (row_of st n').
    destruct (decide (row_of st n = row_of st n')) as [Heq|Hrow].
    - split.
      + intros (Hg' & Ht' & row & Hrow & Hw). split; [exact Hg'|].
        split; [exact Ht'|].
        rewrite Heq, list_lookup_alter_eq in Hrow.
        destruct (nodes st !! row_of st n') as [row0|] eqn:E; [|discriminate].
        injection Hrow as <-. exists row0. split; [reflexivity|].
        rewrite list_lookup_insert_ne in Hw; [exact Hw|].
        intros Htt. apply Z2Nat.inj in Htt; try lia.
        destruct (row_of_inj st n n' Hg Hg' Heq) as [Hx Hy].
        apply Hne. destruct n, n'; simpl in *; congruence.
      + intros (Hg' & Ht' & row & Hrow & Hw). split; [exact Hg'|].
        split; [exact Ht'|].
        exists (<[Z.to_nat (ChannelNode.type n) := w]> row). split.
        * rewrite Heq, list_lookup_alter_eq, Hrow. reflexivity.
        * rewrite list_lookup_insert_ne; [exact Hw|].
          intros Htt. apply Z2Nat.inj in Htt; try lia.
          destruct (row_of_inj st n n' Hg Hg' Heq) as [Hx Hy].
          apply Hne. destruct n, n'; simpl in *; congruence.
    - rewrite list_lookup_alter_ne by exact Hrow. reflexivity. }
  destruct (node_data st n') as [w'|e] eqn:E.
  - apply Hiff. reflexivity.
  - destruct (node_data (set_node_data st n w) n') as [w'|e'] eqn:E'.
    + destruct (Hiff w') as [H _]. specialize (H eq_refl). discriminate.
    + clear Hiff. (* both raise: the same check fails *)
      unfold node_data, NPNR_ASSERT in E, E'. simpl in E'.
      destruct ((ChannelNode.x n' >=? 0) && (ChannelNode.x n' <? width st));
        simpl in E, E'; [|congruence].
      destruct ((ChannelNode.y n' >=? 0) && (ChannelNode.y n' <? height st));
        simpl in E, E'; [|congruence].
      unfold vec_at in E, E'.
      repeat (case_bool_decide || case_match || simplify_eq/= || done).
Qed.

Lemma set_node_data_twice (st : ChannelRouterState) n w1 w2 :
  set_node_data (set_node_data st n w1) n w2 = set_node_data st n w2.
Proof.
  unfold set_node_data, set_nodes. simpl. f_equal.
  rewrite list_alter_alter_eq. apply list_alter_ext; [|reflexivity].
  intros row _. simpl. apply list_insert_insert_eq.
Qed.

Lemma set_node_data_id (st : ChannelRouterState) n w :
  node_data st n = Ok w → set_node_data st n w = st.
Proof.
  rewrite node_data_Ok. intros (_ & _ & row & Hrow & Hw).
  destruct st. unfold set_node_data, set_nodes, row_of in *. simpl in *.
  f_equal. revert Hrow.
  generalize (Z.to_nat (ChannelNode.y n * width0 + ChannelNode.x n)).
  intros i Hrow. apply list_eq. intros j.
  destruct (decide (i = j)) as [<-|Hne].
  - rewrite list_lookup_alter_eq, Hrow. simpl. f_equal.
    apply list_insert_id, Hw.
  - apply list_lookup_alter_ne, Hne.
Qed.

Lemma bound_nets_set (w : PerNodeData) m :
  PerNodeData.bound_nets (PerNodeData.set_bound_nets w m) = m.
Proof. reflexivity. Qed.

Lemma set_bound_nets_id (w : PerNodeData) :
  PerNodeData.set_bound_nets w (PerNodeData.bound_nets w) = w.
Proof. destruct w. reflexivity. Qed.

Lemma set_bound_nets_twice (w : PerNodeData) m1 m2 :
  PerNodeData.set_bound_nets (PerNodeData.set_bound_nets w m1) m2
  = PerNodeData.set_bound_nets w m2.
Proof. reflexivity. Qed.

(** What one bind and one unbind do to the state. *)

Lemma bind_node_internal_first st net node uphill w :
  node_data st node = Ok w →
  PerNodeData.bound_nets w !! NetInfo.udata net = None →
  bind_node_internal st net node uphill
  = Ok (set_node_data st node
          (PerNodeData.set_bound_nets w
             (<[NetInfo.udata net := (1, uphill)]> (PerNodeData.bound_nets w)))).
Proof.
  intros Hw Hn. unfold bind_node_internal. rewrite Hw. simpl. rewrite Hn.
  reflexivity.
Qed.

Lemma bind_node_internal_again st net node uphill w c u :
  node_data st node = Ok w →
  PerNodeData.bound_nets w !! NetInfo.udata net = Some (c, u) →
  c ≠ 0 →
  bind_node_internal st net node uphill
  = if node_eq u uphill then
      Ok (set_node_data st node
            (PerNodeData.set_bound_nets w
               (<[NetInfo.udata net := (c + 1, u)]> (PerNodeData.bound_nets w))))
    else Raise assertion_failure.
Proof.
  intros Hw Hb Hc. unfold bind_node_internal. rewrite Hw. simpl. rewrite Hb.
  simpl. destruct (c + 1 =? 1) eqn:E; [apply Z.eqb_eq in E; lia|].
  destruct (node_eq u uphill); reflexivity.
Qed.

Lemma unbind_node_internal_bound st net node w c u :
  node_data st node = Ok w →
  PerNodeData.bound_nets w !! NetInfo.udata net = Some (c, u) →
  unbind_node_internal st net node
  = Ok (set_node_data st node
          (PerNodeData.set_bound_nets w
             (if c - 1 =? 0 then delete (NetInfo.udata net) (PerNodeData.bound_nets w)
              else <[NetInfo.udata net := (c - 1, u)]> (PerNodeData.bound_nets w)))).
Proof.
  intros Hw Hb. unfold unbind_node_internal, map_at. rewrite Hw. simpl.
  rewrite Hb. simpl. destruct (c - 1 =? 0); reflexivity.
Qed.

Lemma bind_all_bound ups : ∀ st net node w c u,
  node_data st node = Ok w →
  PerNodeData.bound_nets w !! NetInfo.udata net = Some (c, u) →
  0 < c →
  bind_all st net node ups
  = if forallb (node_eq u) ups then
      Ok (set_node_data st node
            (PerNodeData.set_bound_nets w
               (<[NetInfo.udata net := (c + Z.of_nat (length ups), u)]>
                  (PerNodeData.bound_nets w))))
    else Raise assertion_failure.
Proof.
  induction ups as [|up ups IH]; intros st net node w c u Hw Hb Hc.
  - simpl. rewrite Z.add_0_r, insert_id by exact Hb.
    rewrite set_bound_nets_id, set_node_data_id by exact Hw. reflexivity.
  - unfold bind_all. simpl.
    rewrite (bind_node_internal_again st net node up w c u Hw Hb) by lia.
    destruct (node_eq u up); simpl; [|reflexivity].
    fold (bind_all (set_node_data st node
            (PerNodeData.set_bound_nets w
               (<[NetInfo.udata net := (c + 1, u)]> (PerNodeData.bound_nets w))))
            net node ups).
    erewrite IH;
      [ | eapply node_data_set_eq, Hw
        | rewrite bound_nets_set; apply lookup_insert_eq | lia ].
    rewrite bound_nets_set, set_bound_nets_twice, set_node_data_twice, insert_insert_eq.
    replace (c + 1 + Z.of_nat (length ups))
      with (c + Z.pos (Pos.of_succ_nat (length ups))) by lia.
    reflexivity.
Qed.

(** ** Bind: use counts and the single uphill *)

(** C3.  [bind_node_internal] adds one to the net's use count at the node.
    On the first use the entry becomes [(1, uphill)]; on a later use the
    stored uphill is compared with the passed one and the run is aborted by
    [NPNR_ASSERT] when they differ, the stored uphill being kept otherwise.
    Hence a run of binds of one net at one node either aborts or was given
    the same uphill each time, which is the one that is stored. *)
Theorem bind_node_internal_consistent st net node uphill w :
  node_data st node = Ok w →
  let uid := NetInfo.udata net in
  let bound := PerNodeData.bound_nets w in
  let put b :=
    set_node_data st node (PerNodeData.set_bound_nets w (<[uid := b]> bound)) in
  (bound !! uid = None →
     bind_node_internal st net node uphill = Ok (put (1, uphill)))
  ∧ (∀ c u, bound !! uid = Some (c, u) → 0 < c →
       (u = uphill →
          bind_node_internal st net node uphill = Ok (put (c + 1, u)))
       ∧ (u ≠ uphill →
            bind_node_internal st net node uphill = Raise assertion_failure))
  ∧ (∀ ups, bound !! uid = None →
       bind_all st net node (uphill :: ups)
       = if forallb (node_eq uphill) ups
         then Ok (put (1 + Z.of_nat (length ups), uphill))
         else Raise assertion_failure).
Proof.
  intros Hw uid bound put. split; [|split].
  - intros Hn. apply bind_node_internal_first; assumption.
  - intros c u Hb Hc.
    pose proof (bind_node_internal_again st net node uphill w c u Hw Hb) as H.
    split.
    + intros ->. rewrite H by lia. rewrite node_eq_refl. reflexivity.
    + intros Hne. rewrite H by lia.
      destruct (node_eq u uphill) eqn:E; [|reflexivity].
      apply node_eq_true in E. contradiction.
  - intros ups Hn. unfold bind_all. simpl.
    rewrite (bind_node_internal_first st net node uphill w Hw Hn). simpl.
    match goal with |- for_each _ _ ?s = _ => fold (bind_all s net node ups) end.
    erewrite bind_all_bound;
      [ | eapply node_data_set_eq, Hw
        | rewrite bound_nets_set; apply lookup_insert_eq | lia ].
    rewrite bound_nets_set, set_bound_nets_twice, set_node_data_twice, insert_insert_eq.
    reflexivity.
Qed.

Lemma bind_node_internal_consistent_witness :
  bind_node_internal ex_state ex_net n1 n0
  = Ok (set_node_data ex_state n1
          (PerNodeData.set_bound_nets PerNodeData.init {[ 0 := (1, n0) ]}))
  ∧ bind_all ex_state ex_net n1 [n0; n0; n0]
    = Ok (set_node_data ex_state n1
            (PerNodeData.set_bound_nets PerNodeData.init {[ 0 := (3, n0) ]}))
  ∧ bind_all ex_state ex_net n1 [n0; n2] = Raise assertion_failure.
Proof.
  assert (Hw : node_data ex_state n1 = Ok PerNodeData.init) by reflexivity.
  destruct (bind_node_internal_consistent ex_state ex_net n1 n0 _ Hw)
    as (H1 & _ & H3).
  split; [|split].
  - apply H1. reflexivity.
  - apply (H3 [n0; n0]). reflexivity.
  - apply (H3 [n2]). reflexivity.
Defined.

(** ** Bind followed by unbind *)

(** C9.  A bind that is legal (the net is not bound at the node, or is
    bound there with the uphill that is passed) followed at once by an
    unbind of the same net at the same node gives back the state in which
    the bind started: the use count is the old one, and an entry that the
    bind created is erased. *)
Theorem bind_unbind_restores st net node uphill w :
  node_data st node = Ok w →
  (PerNodeData.bound_nets w !! NetInfo.udata net = None
   ∨ ∃ c, c ≠ 0
          ∧ PerNodeData.bound_nets w !! NetInfo.udata net = Some (c, uphill)) →
  ∃ st1 w1,
    bind_node_internal st net node uphill = Ok st1
    ∧ node_data st1 node = Ok w1
    ∧ fst <$> (PerNodeData.bound_nets w1 !! NetInfo.udata net)
      = Some (default 0 (fst <$> (PerNodeData.bound_nets w !! NetInfo.udata net)) + 1)
    ∧ unbind_node_internal st1 net node = Ok st.
Proof.
  intros Hw [Hn | (c & Hc & Hb)].
  - eexists _, _. split; [apply bind_node_internal_first; eassumption|].
    split; [eapply node_data_set_eq, Hw|].
    split; [rewrite bound_nets_set, lookup_insert_eq, Hn; reflexivity|].
    erewrite unbind_node_internal_bound;
      [ | eapply node_data_set_eq, Hw | rewrite bound_nets_set; apply lookup_insert_eq ].
    replace (1 - 1 =? 0) with true by reflexivity.
    rewrite bound_nets_set, set_bound_nets_twice, set_node_data_twice.
    rewrite delete_insert_id by exact Hn.
    rewrite set_bound_nets_id, set_node_data_id by exact Hw. reflexivity.
  - eexists _, _. split.
    { rewrite (bind_node_internal_again st net node uphill w c uphill Hw Hb Hc).
      rewrite node_eq_refl. reflexivity. }
    split; [eapply node_data_set_eq, Hw|].
    split; [rewrite bound_nets_set, lookup_insert_eq, Hb; reflexivity|].
    erewrite unbind_node_internal_bound;
      [ | eapply node_data_set_eq, Hw | rewrite bound_nets_set; apply lookup_insert_eq ].
    replace (c + 1 - 1) with c by lia.
    destruct (c =? 0) eqn:E; [apply Z.eqb_eq in E; contradiction|].
    rewrite bound_nets_set, set_bound_nets_twice, set_node_data_twice.
    rewrite insert_insert_eq, insert_id by exact Hb.
    rewrite set_bound_nets_id, set_node_data_id by exact Hw. reflexivity.
Qed.

Lemma bind_unbind_restores_witness :
  ∃ st1 w1,
    bind_node_internal ex_state ex_net n1 n0 = Ok st1
    ∧ node_data st1 n1 = Ok w1
    ∧ fst <$> (PerNodeData.bound_nets w1 !! 0) = Some 1
    ∧ unbind_node_internal st1 ex_net n1 = Ok ex_state.
Proof.
  apply (bind_unbind_restores ex_state ex_net n1 n0 PerNodeData.init).
  - reflexivity.
  - left. reflexivity.
Defined.

(** ** Rip-up *)

(** One step of the walk, read backwards. *)
Lemma routed_path_S fuel st uid src cursor p :
  routed_path (S fuel) st uid src cursor = Some p →
  (cursor = src ∧ p = [])
  ∨ (cursor ≠ src ∧ ∃ w c up p',
       node_data st cursor = Ok w
       ∧ PerNodeData.bound_nets w !! uid = Some (c, up)
       ∧ routed_path fuel st uid src up = Some p'
       ∧ p = cursor :: p').
Proof.
  simpl. destruct (node_ne cursor src) eqn:E.
  - apply node_ne_true in E. intros H. right. split; [exact E|].
    destruct (node_data st cursor) as [w|] eqn:Hw; [|discriminate].
    destruct (PerNodeData.bound_nets w !! uid) as [[c up]|] eqn:Hb; [|discriminate].
    simpl in H. destruct (routed_path fuel st uid src up) as [p'|] eqn:Hp;
      [|discriminate].
    injection H as <-. exists w, c, up, p'. auto.
  - intros [= <-]. left. split; [|reflexivity].
    apply node_eq_true. rewrite node_ne_negb in E.
    destruct (node_eq cursor src); [reflexivity|discriminate].
Qed.

Lemma routed_path_O st uid src cursor p :
  routed_path O st uid src cursor = Some p → cursor = src ∧ p = [].
Proof.
  simpl. destruct (node_ne cursor src) eqn:E; [discriminate|].
  intros [= <-]. split; [|reflexivity].
  apply node_eq_true. rewrite node_ne_negb in E.
  destruct (node_eq cursor src); [reflexivity|discriminate].
Qed.

Lemma routed_path_src fuel st uid src : routed_path fuel st uid src src = Some [].
Proof.
  destruct fuel; simpl; rewrite node_ne_negb, node_eq_refl; reflexivity.
Qed.

(** The walk does not depend on the fuel once there is enough of it. *)
Lemma routed_path_fuel fuel : ∀ st uid src cursor p fuel',
  routed_path fuel st uid src cursor = Some p →
  (length p ≤ fuel')%nat →
  routed_path fuel' st uid src cursor = Some p.
Proof.
  induction fuel as [|fuel IH]; intros st uid src cursor p fuel' H Hlen.
  - apply routed_path_O in H as [-> ->]. apply routed_path_src.
  - apply routed_path_S in H as [[-> ->] | (Hne & w & c & up & p' & Hw & Hb & Hp & ->)].
    + apply routed_path_src.
    + destruct fuel' as [|fuel']; [simpl in Hlen; lia|].
      simpl. apply node_ne_true in Hne. rewrite Hne, Hw, Hb. simpl.
      erewrite IH; [reflexivity | exact Hp | simpl in Hlen; lia].
Qed.

Lemma routed_path_length fuel : ∀ st uid src cursor p,
  routed_path fuel st uid src cursor = Some p → (length p ≤ fuel)%nat.
Proof.
  induction fuel as [|fuel IH]; intros st uid src cursor p H.
  - apply routed_path_O in H as [_ ->]. simpl. lia.
  - apply routed_path_S in H as [[_ ->] | (_ & w & c & up & p' & _ & _ & Hp & ->)].
    + simpl. lia.
    + apply IH in Hp. simpl. lia.
Qed.

(** Every node of the walk starts a walk of its own, which is no longer. *)
Lemma routed_path_suffix fuel : ∀ st uid src cursor p n,
  routed_path fuel st uid src cursor = Some p → n ∈ p →
  ∃ q, routed_path fuel st uid src n = Some q ∧ (length q ≤ length p)%nat.
Proof.
  induction fuel as [|fuel IH]; intros st uid src cursor p n H Hin.
  - apply routed_path_O in H as [_ ->]. inversion Hin.
  - pose proof H as H0.
    apply routed_path_S in H as [[_ ->] | (_ & w & c & up & p' & _ & _ & Hp & ->)].
    + inversion Hin.
    + apply elem_of_cons in Hin as [-> | Hin].
      * exists (cursor :: p'). split; [exact H0 | lia].
      * destruct (IH _ _ _ _ _ _ Hp Hin) as (q & Hq & Hlen).
        exists q. split; [|simpl; lia].
        eapply routed_path_fuel; [exact Hq|].
        apply routed_path_length in Hq. lia.
Qed.

(** The driver is not on the walk, and no node is on it twice. *)
Lemma routed_path_not_src fuel : ∀ st uid src cursor p,
  routed_path fuel st uid src cursor = Some p → src ∉ p.
Proof.
  induction fuel as [|fuel IH]; intros st uid src cursor p H.
  - apply routed_path_O in H as [_ ->]. apply not_elem_of_nil.
  - apply routed_path_S in H as [[_ ->] | (Hne & w & c & up & p' & _ & _ & Hp & ->)].
    + apply not_elem_of_nil.
    + apply not_elem_of_cons. split; [congruence|]. eapply IH, Hp.
Qed.

Lemma routed_path_NoDup fuel : ∀ st uid src cursor p,
  routed_path fuel st uid src cursor = Some p → NoDup p.
Proof.
  induction fuel as [|fuel IH]; intros st uid src cursor p H.
  - apply routed_path_O in H as [_ ->]. constructor.
  - pose proof H as H0.
    apply routed_path_S in H as [[_ ->] | (Hne & w & c & up & p' & Hw & Hb & Hp & ->)].
    + constructor.
    + constructor; [|eapply IH, Hp].
      intros Hin.
      destruct (routed_path_suffix _ _ _ _ _ _ _ Hp Hin) as (q & Hq & Hlen).
      pose proof (routed_path_length _ _ _ _ _ _ Hq) as Hq'.
      eapply (routed_path_fuel _ _ _ _ _ _ (S fuel)) in Hq; [|lia].
      rewrite H0 in Hq. injection Hq as <-. simpl in Hlen. lia.
Qed.

(** The walk reads the nodes on it and no other. *)
Lemma routed_path_ext fuel : ∀ st st' uid src cursor p,
  routed_path fuel st uid src cursor = Some p →
  (∀ n, n ∈ p → node_data st' n = node_data st n) →
  routed_path fuel st' uid src cursor = Some p.
Proof.
  induction fuel as [|fuel IH]; intros st st' uid src cursor p H Hsame.
  - apply routed_path_O in H as [-> ->]. apply routed_path_src.
  - apply routed_path_S in H as [[-> ->] | (Hne & w & c & up & p' & Hw & Hb & Hp & ->)].
    + apply routed_path_src.
    + simpl. apply node_ne_true in Hne. rewrite Hne.
      rewrite Hsame by apply list_elem_of_here. rewrite Hw, Hb. simpl.
      erewrite IH; [reflexivity | exact Hp | ].
      intros n Hn. apply Hsame. apply list_elem_of_further, Hn.
Qed.

Lemma ripup_loop_fuel fuel : ∀ st net src cursor st' fuel',
  ripup_loop fuel st net src cursor = Ok st' → (fuel ≤ fuel')%nat →
  ripup_loop fuel' st net src cursor = Ok st'.
Proof.
  induction fuel as [|fuel IH]; intros st net src cursor st' fuel' H Hle.
  - simpl in H. destruct (node_ne cursor src) eqn:E; [discriminate|].
    destruct fuel'; simpl; rewrite E; exact H.
  - destruct fuel' as [|fuel']; [lia|]. simpl in *.
    destruct (node_ne cursor src); [|exact H].
    destruct (node_data st cursor) as [wd|]; [|discriminate]. simpl in *.
    destruct (map_at (PerNodeData.bound_nets wd) (NetInfo.udata net)) as [b|];
      [|discriminate].
    simpl in *.
    destruct (unbind_node_internal st net cursor) as [st1|]; [|discriminate].
    simpl in *. apply IH; [exact H | lia].
Qed.

Lemma ripup_loop_spec fuel : ∀ st net src cursor p,
  routed_path fuel st (NetInfo.udata net) src cursor = Some p →
  ∃ st', ripup_loop fuel st net src cursor = Ok st'
    ∧ nets st' = nets st
    ∧ (∀ n, n ∉ p → node_data st' n = node_data st n)
    ∧ (∀ n, n ∈ p → ∃ w c up,
          node_data st n = Ok w
          ∧ PerNodeData.bound_nets w !! NetInfo.udata net = Some (c, up)
          ∧ node_data st' n = Ok (unbound w (NetInfo.udata net) c up)).
Proof.
  induction fuel as [|fuel IH]; intros st net src cursor p H.
  - apply routed_path_O in H as [-> ->]. exists st. simpl.
    rewrite node_ne_negb, node_eq_refl. simpl.
    repeat split; auto. intros n Hn. inversion Hn.
  - pose proof (routed_path_NoDup _ _ _ _ _ _ H) as Hnd.
    apply routed_path_S in H
      as [[-> ->] | (Hne & w & c & up & p' & Hw & Hb & Hp & ->)].
    + exists st. simpl. rewrite node_ne_negb, node_eq_refl. simpl.
      repeat split; auto. intros n Hn. inversion Hn.
    + apply NoDup_cons in Hnd as [Hnotin _].
      pose proof Hw as Hw'. apply node_data_Ok in Hw' as (Hg & Ht & _).
      set (st1 := set_node_data st cursor (unbound w (NetInfo.udata net) c up)).
      assert (Hun : unbind_node_internal st net cursor = Ok st1)
        by (apply unbind_node_internal_bound; assumption).
      assert (Hother : ∀ n, n ≠ cursor → node_data st1 n = node_data st n)
        by (intros n Hn; apply node_data_set_ne; auto).
      assert (Hp1 : routed_path fuel st1 (NetInfo.udata net) src up = Some p').
      { eapply routed_path_ext; [exact Hp|]. intros n Hn. apply Hother.
        intros ->. contradiction. }
      destruct (IH st1 net src up p' Hp1) as (st' & Hloop & Hnets & Hout & Hin).
      exists st'. split; [|split; [|split]].
      * simpl. apply node_ne_true in Hne. rewrite Hne, Hw. simpl.
        unfold map_at. rewrite Hb. simpl. rewrite Hun. simpl. exact Hloop.
      * rewrite Hnets. reflexivity.
      * intros n Hn. apply not_elem_of_cons in Hn as [Hn1 Hn2].
        rewrite Hout by exact Hn2. apply Hother, Hn1.
      * intros n Hn. apply elem_of_cons in Hn as [-> | Hn].
        -- exists w, c, up. split; [exact Hw|]. split; [exact Hb|].
           rewrite Hout by exact Hnotin. eapply node_data_set_eq, Hw.
        -- destruct (Hin n Hn) as (w' & c' & up' & Hw1 & Hb' & Hres).
           exists w', c', up'. split; [|split; assumption].
           rewrite <- Hw1. symmetry. apply Hother. intros ->. contradiction.
Qed.

Example ex_routed_by_binds :
  (st1 ← bind_node_internal ex_state ex_net n0 n0;
   st2 ← bind_node_internal st1 ex_net n1 n0;
   st3 ← bind_node_internal st2 ex_net n2 n1;
   Ok (set_arc_routed st3 ex_net 0 true)) = Ok ex_routed.
Proof. vm_compute. reflexivity. Qed.

(** An arc that is not routed is left alone. *)
Lemma ripup_arc_unrouted fuel st net user nd ad :
  vec_at (nets st) (NetInfo.udata net) = Ok nd →
  vec_at (PerNetData.arcs nd) (Z.of_nat user) = Ok ad →
  PerArcData.routed ad = false →
  ripup_arc fuel st net user = Ok st.
Proof.
  intros Hnd Had Hr. unfold ripup_arc. rewrite Hnd. simpl. rewrite Had. simpl.
  rewrite Hr. reflexivity.
Qed.

(** C1, as the code has it.  Ripping up a routed arc takes one use of the
    net off every node on the walk from the sink along the uphill links up
    to, and not including, the driver node: the entry is erased where the
    count was one and keeps its uphill with the count lowered by one
    elsewhere.  The driver node is not on the walk; it and every other node
    keep their data.  The arc is left unrouted.  Any fuel that covers the
    walk gives this result. *)
Theorem ripup_arc_unbinds_walk st net user nd ad fuel0 p :
  vec_at (nets st) (NetInfo.udata net) = Ok nd →
  vec_at (PerNetData.arcs nd) (Z.of_nat user) = Ok ad →
  PerArcData.routed ad = true →
  routed_path fuel0 st (NetInfo.udata net) (PerNetData.src_node nd)
    (PerArcData.sink_node ad) = Some p →
  ∃ st',
    (∀ fuel, (length p ≤ fuel)%nat → ripup_arc fuel st net user = Ok st')
    ∧ (∃ nd' ad', vec_at (nets st') (NetInfo.udata net) = Ok nd'
                  ∧ vec_at (PerNetData.arcs nd') (Z.of_nat user) = Ok ad'
                  ∧ PerArcData.routed ad' = false)
    ∧ (PerNetData.src_node nd ∉ p)
    ∧ (∀ n, n ∉ p → node_data st' n = node_data st n)
    ∧ (∀ n, n ∈ p → ∃ c up,
          bound_at st n (NetInfo.udata net) = Some (c, up)
          ∧ bound_at st' n (NetInfo.udata net)
            = (if c =? 1 then None else Some (c - 1, up))).
Proof.
  intros Hnd Had Hr Hp.
  pose proof (routed_path_not_src _ _ _ _ _ _ Hp) as Hsrc.
  apply (routed_path_fuel _ _ _ _ _ _ (length p)) in Hp; [|lia].
  destruct (ripup_loop_spec _ _ _ _ _ _ Hp) as (st1 & Hloop & Hnets & Hout & Hin).
  exists (set_arc_routed st1 net user false).
  split; [|split; [|split; [|split]]].
  - intros fuel Hfuel. unfold ripup_arc. rewrite Hnd. simpl. rewrite Had. simpl.
    rewrite Hr. simpl.
    rewrite (ripup_loop_fuel _ _ _ _ _ _ fuel Hloop Hfuel). reflexivity.
  - apply vec_at_Ok in Hnd as [Hu Hnd], Had as [_ Had].
    rewrite Nat2Z.id in Had.
    eexists _, _. split; [|split].
    + apply vec_at_Ok. split; [exact Hu|].
      unfold set_arc_routed. simpl.
      rewrite list_lookup_alter_eq, Hnets, Hnd. reflexivity.
    + apply vec_at_Ok. split; [lia|]. rewrite Nat2Z.id. simpl.
      rewrite list_lookup_alter_eq, Had. reflexivity.
    + reflexivity.
  - exact Hsrc.
  - intros n Hn. rewrite <- (Hout n Hn). reflexivity.
  - intros n Hn. destruct (Hin n Hn) as (w & c & up & Hw & Hb & Hres).
    exists c, up. unfold bound_at. rewrite Hw. split; [exact Hb|].
    change (node_data (set_arc_routed st1 net user false) n)
      with (node_data st1 n).
    rewrite Hres. unfold unbound. rewrite bound_nets_set.
    replace (c - 1 =? 0) with (c =? 1)
      by (destruct (Z.eqb_spec c 1), (Z.eqb_spec (c - 1) 0); lia || reflexivity).
    destruct (c =? 1).
    + apply lookup_delete_eq.
    + apply lookup_insert_eq.
Qed.

Lemma ripup_arc_unbinds_walk_witness :
  ∃ st',
    (∀ fuel, (2 ≤ fuel)%nat → ripup_arc fuel ex_routed ex_net 0 = Ok st')
    ∧ (∃ nd' ad', vec_at (nets st') 0 = Ok nd'
                  ∧ vec_at (PerNetData.arcs nd') 0 = Ok ad'
                  ∧ PerArcData.routed ad' = false)
    ∧ (n0 ∉ [n2; n1])
    ∧ (∀ n, n ∉ [n2; n1] → node_data st' n = node_data ex_routed n)
    ∧ (∀ n, n ∈ [n2; n1] → ∃ c up,
          bound_at ex_routed n 0 = Some (c, up)
          ∧ bound_at st' n 0 = (if c =? 1 then None else Some (c - 1, up))).
Proof.
  apply (ripup_arc_unbinds_walk ex_routed ex_net 0%nat (ex_netdata true)
           (PerArcData.mk n2 (ArcBounds.mk 0 0 2 0) true) 2 [n2; n1]).
  - reflexivity.
  - reflexivity.
  - reflexivity.
  - reflexivity.
Defined.

(** The claim as the description words it (no node of the routed path,
    the driver included, is left bound to the net) fails on the example:
    the walk is n2, n1; the driver n0 was bound once, by itself, and is
    still bound after the rip-up. *)
Lemma ripup_arc_leaves_driver_bound :
  routed_path 2 ex_routed 0 n0 n2 = Some [n2; n1]
  ∧ bound_at ex_routed n0 0 = Some (1, n0)
  ∧ ripup_arc 2 ex_routed ex_net 0 = Ok ex_ripped
  ∧ bound_at ex_ripped n0 0 = Some (1, n0).
Proof. vm_compute. auto. Qed.

(** A node that another arc of the net shares stays bound as well: after
    the rip-up of arc 0, n1 is still bound to net 0, once. *)
Example ripup_arc_keeps_shared_node :
  ∃ st', ripup_arc 2 ex_shared ex_net 0 = Ok st'
         ∧ bound_at st' n2 0 = None
         ∧ bound_at st' n1 0 = Some (1, n0)
         ∧ PerArcData.routed <$> (nets st' !! 0%nat ≫= λ nd, PerNetData.arcs nd !! 0%nat)
           = Some false
         ∧ PerArcData.routed <$> (nets st' !! 0%nat ≫= λ nd, PerNetData.arcs nd !! 1%nat)
           = Some true.
Proof. eexists. vm_compute. repeat split; reflexivity. Qed.

(** ** Present cost *)

Lemma map_count_is_Some {V} (m : gmap Z V) (k : Z) :
  negb (map_count m k =? 0) = bool_decide (is_Some (m !! k)).
Proof.
  unfold map_count. destruct (m !! k) as [v|]; reflexivity.
Qed.

(** C4.  With [over = |w.bound_nets| - (width(t) - 1) - [N ∈ w.bound_nets]],
    [present_node_cost] returns 1 when [over <= 0] and otherwise the value
    of [1 + over * curr_cong_weight], computed in double precision and
    narrowed to the float that the function returns. *)
Theorem present_node_cost_formula st w channel_type net_uid c :
  vec_at (channel_types st) channel_type = Ok c →
  let over := over_capacity_of w c net_uid in
  (over ≤ 0 → present_node_cost st w channel_type net_uid = Ok F32.one)
  ∧ (0 < over →
       present_node_cost st w channel_type net_uid
       = Ok (F64.to_f32
               (F64.add (F64.of_int 1)
                  (F64.mul (F64.of_int over) (curr_cong_weight st))))).
Proof.
  intros Hc over. unfold present_node_cost. rewrite Hc. simpl.
  rewrite map_count_is_Some.
  assert (Hover :
    (if bool_decide (is_Some (PerNodeData.bound_nets w !! net_uid))
     then Z.of_nat (size (PerNodeData.bound_nets w)) - (Channel.width c - 1) - 1
     else Z.of_nat (size (PerNodeData.bound_nets w)) - (Channel.width c - 1))
    = over).
  { unfold over, over_capacity_of. case_bool_decide; lia. }
  rewrite Hover. split; intros H.
  - destruct (Z.leb_spec over 0); [reflexivity | lia].
  - destruct (Z.leb_spec over 0); [lia | reflexivity].
Qed.

Lemma present_node_cost_formula_witness :
  present_node_cost ex_state PerNodeData.init 0 0 = Ok (F32.of_int 1)
  ∧ present_node_cost ex_state ex_crowded 0 0 = Ok (F32.of_int 2)
  ∧ present_node_cost ex_state ex_crowded 0 5 = Ok (F32.lit 5 (-1)).
Proof.
  assert (Hc : vec_at (channel_types ex_state) 0 = Ok ex_channel) by reflexivity.
  split; [|split].
  - apply (proj1 (present_node_cost_formula ex_state PerNodeData.init 0 0 _ Hc)).
    vm_compute. intros [=].
  - apply (proj2 (present_node_cost_formula ex_state ex_crowded 0 0 _ Hc)).
    vm_compute. reflexivity.
  - apply (proj2 (present_node_cost_formula ex_state ex_crowded 0 5 _ Hc)).
    vm_compute. reflexivity.
Defined.

(** ** Togo cost *)

Lemma source_uses_of_lookup (wd : PerNodeData) (uid : Z) :
  source_uses_of wd uid = default 0 (fst <$> PerNodeData.bound_nets wd !! uid).
Proof.
  unfold source_uses_of, map_count.
  destruct (PerNodeData.bound_nets wd !! uid) as [b|]; reflexivity.
Qed.

Example F32_to_int_truncates :
  F32.to_int (F32.lit 3 (-1)) = Ok 1 ∧ F32.to_int (F32.lit (-3) (-1)) = Ok (-1)
  ∧ F32.to_int (F32.lit 7 (-2)) = Ok 1 ∧ F32.to_int (F32.of_int 12) = Ok 12.
Proof. vm_compute. auto. Qed.

(** The conversion at the ends of the range of [int]: [INT_MIN] is a float
    and converts to itself; the float next to [INT_MAX] is [2^31], which an
    [int] does not hold. *)
Example F32_to_int_range :
  F32.to_int (F32.of_int INT_MIN) = Ok INT_MIN
  ∧ F32.of_int INT_MAX = F32.of_int (INT_MAX + 1)
  ∧ F32.to_int (F32.of_int INT_MAX) = Raise undefined_behaviour
  ∧ F32.to_int (F32.of_int 3000000000) = Raise undefined_behaviour
  ∧ F32.to_int S754_nan = Raise undefined_behaviour
  ∧ F32.to_int (S754_infinity false) = Raise undefined_behaviour.
Proof. vm_compute. auto 10. Qed.

Lemma F32_to_int_Ok (f : float) (z : Z) :
  F32.to_int f = Ok z ↔ F32.trunc f = Some z ∧ INT_MIN ≤ z ≤ INT_MAX.
Proof.
  unfold F32.to_int. destruct (F32.trunc f) as [z'|].
  - case_bool_decide as Hr; split.
    + intros [= ->]. auto.
    + intros [[= ->] _]. reflexivity.
    + intros [=].
    + intros [[= ->] Hz]. contradiction.
  - split; [intros [=] | intros [[=] _]].
Qed.

Lemma F32_to_int_beyond (f : float) (z : Z) :
  F32.trunc f = Some z → ¬ (INT_MIN ≤ z ≤ INT_MAX) →
  F32.to_int f = Raise undefined_behaviour.
Proof.
  intros Hf Hz. unfold F32.to_int. rewrite Hf.
  case_bool_decide; [contradiction | reflexivity].
Qed.

(** C5, as the code has it.  The numerator is computed in float
    arithmetic and stored in an [int], which drops its fraction; when the
    integral part [base] of the numerator is a value of [int], that is
    [INT_MIN <= base <= INT_MAX], the division by [1 + source_uses] is the
    integer division, which drops the fraction of the quotient, and the
    integer quotient is returned as a float. *)
Theorem get_togo_cost_integer_quotient st net user curr sink wd base :
  node_data st curr = Ok wd →
  F32.trunc (togo_numerator (cfg st) curr sink) = Some base →
  INT_MIN ≤ base ≤ INT_MAX →
  let source_uses :=
    default 0 (fst <$> PerNodeData.bound_nets wd !! NetInfo.udata net) in
  1 + source_uses ≠ 0 →
  get_togo_cost st net user curr sink
  = Ok (F32.of_int (Z.quot base (1 + source_uses))).
Proof.
  intros Hw Hbase Hrange source_uses Hnz. unfold get_togo_cost. rewrite Hw. simpl.
  fold (togo_numerator (cfg st) curr sink).
  rewrite (proj2 (F32_to_int_Ok _ base) (conj Hbase Hrange)). simpl.
  rewrite source_uses_of_lookup. fold source_uses.
  destruct (Z.eqb_spec (1 + source_uses) 0); [contradiction | reflexivity].
Qed.

Lemma get_togo_cost_integer_quotient_witness :
  get_togo_cost ex_routed ex_net 0 n0 n2 = Ok (F32.of_int (Z.quot 2 (1 + 1))).
Proof.
  apply (get_togo_cost_integer_quotient ex_routed ex_net 0%nat n0 n2 (ex_bound n0) 2).
  - reflexivity.
  - reflexivity.
  - unfold INT_MIN, INT_MAX. lia.
  - vm_compute. intros [=].
Defined.

(** Beyond the range of [int] the function has no value: when the
    integral part of the numerator is not a value of [int], the conversion
    that stores it in [base_cost] is undefined, whatever the use count. *)
Lemma get_togo_cost_beyond_int st net user curr sink wd base :
  node_data st curr = Ok wd →
  F32.trunc (togo_numerator (cfg st) curr sink) = Some base →
  ¬ (INT_MIN ≤ base ≤ INT_MAX) →
  get_togo_cost st net user curr sink = Raise undefined_behaviour.
Proof.
  intros Hw Hbase Hrange. unfold get_togo_cost. rewrite Hw. simpl.
  fold (togo_numerator (cfg st) curr sink).
  rewrite (F32_to_int_beyond _ base Hbase Hrange). reflexivity.
Qed.

Example get_togo_cost_adder_beyond_int :
  F32.trunc (togo_numerator (cfg ex_state_far) n0 n2) = Some 3000000000
  ∧ get_togo_cost ex_state_far ex_net 0 n0 n2 = Raise undefined_behaviour.
Proof. vm_compute. auto. Qed.

(** The estimate is not the float quotient.  At n1, which net 0 uses once
    and which is one column from the sink, the numerator 1 is divided by 2
    as an integer: the function returns 0 where the float quotient is 1/2.
    With [togo_cost_dx = 3/2] and an unused node one column from the sink
    the numerator 3/2 is cut to 1. *)
Lemma get_togo_cost_not_float_quotient :
  get_togo_cost ex_routed ex_net 0 n1 n2 = Ok (F32.of_int 0)
  ∧ togo_as_described ex_routed ex_net n1 n2 = Ok (F32.lit 1 (-1))
  ∧ get_togo_cost ex_routed ex_net 0 n1 n2 ≠ togo_as_described ex_routed ex_net n1 n2
  ∧ get_togo_cost ex_state_frac ex_net 0 n1 n2 = Ok (F32.of_int 1)
  ∧ togo_as_described ex_state_frac ex_net n1 n2 = Ok (F32.lit 3 (-1))
  ∧ get_togo_cost ex_state_frac ex_net 0 n1 n2
    ≠ togo_as_described ex_state_frac ex_net n1 n2.
Proof. vm_compute. repeat split; discriminate. Qed.

(** ** Node score *)

(** The value of the present cost, by the excess [over] of the node for
    the net. *)
Lemma present_node_cost_value st w channel_type net_uid c :
  vec_at (channel_types st) channel_type = Ok c →
  present_node_cost st w channel_type net_uid
  = Ok (if bool_decide (over_capacity_of w c net_uid ≤ 0) then F32.one
        else F64.to_f32
               (F64.add (F64.of_int 1)
                  (F64.mul (F64.of_int (over_capacity_of w c net_uid))
                     (curr_cong_weight st)))).
Proof.
  intros Hc. unfold present_node_cost. rewrite Hc. simpl.
  rewrite map_count_is_Some.
  replace (if bool_decide (is_Some (PerNodeData.bound_nets w !! net_uid))
           then Z.of_nat (size (PerNodeData.bound_nets w)) - (Channel.width c - 1) - 1
           else Z.of_nat (size (PerNodeData.bound_nets w)) - (Channel.width c - 1))
    with (over_capacity_of w c net_uid)
    by (unfold over_capacity_of; case_bool_decide; lia).
  destruct (Z.leb_spec (over_capacity_of w c net_uid) 0);
    case_bool_decide; try lia; reflexivity.
Qed.

(** C8.  For a node [n] of the grid, a net [N] with a record and the
    channel type [t] of [n], [score_node_for_arc] returns
    [base * hist * present / (1 + source_uses) + bias] with
    [base = types[t].cost], [hist] the node's historical cost,
    [source_uses] the use count of [N] at [n] (0 when [N] is not bound
    there),
    [bias = bias_cost_factor * (base / |users|) * ((|n.x - cx| + |n.y - cy|) / hpwl)]
    and [present] the present cost of [n] for [N]: with
    [over = |bound_nets| - (width(t) - 1) - [N ∈ bound_nets]] it is 1 when
    [over <= 0] and [1 + over * curr_cong_weight] otherwise, computed in
    double precision and narrowed to float.  The rest is float
    arithmetic. *)
Theorem score_node_for_arc_formula st net user node wd nd c :
  node_data st node = Ok wd →
  vec_at (nets st) (NetInfo.udata net) = Ok nd →
  vec_at (channel_types st) (ChannelNode.type node) = Ok c →
  let over := over_capacity_of wd c (NetInfo.udata net) in
  let present :=
    if bool_decide (over ≤ 0) then F32.one
    else F64.to_f32
           (F64.add (F64.of_int 1) (F64.mul (F64.of_int over) (curr_cong_weight st))) in
  score_node_for_arc st net user node
  = Ok (score_formula (Channel.cost c) (PerNodeData.hist_cong_cost wd) present
          (default 0 (fst <$> PerNodeData.bound_nets wd !! NetInfo.udata net))
          (bias_formula (ChannelRouterCfg.bias_cost_factor (cfg st))
             (Channel.cost c) (Z.of_nat (length (NetInfo.users net)))
             (Z.abs (ChannelNode.x node - PerNetData.cx nd)
              + Z.abs (ChannelNode.y node - PerNetData.cy nd))
             (PerNetData.hpwl nd))).
Proof.
  intros Hw Hnd Hc over present.
  unfold score_node_for_arc. rewrite Hw. simpl. rewrite Hnd. simpl.
  rewrite Hc. simpl.
  rewrite (present_node_cost_value st wd _ (NetInfo.udata net) c Hc). simpl.
  rewrite source_uses_of_lookup. reflexivity.
Qed.

(** At n2 of the routed example the node is within its capacity: base,
    hist and present are 1, the net uses the node once, and the node is one
    column off the centre of a net of half-perimeter 2: 1/2 + 1/2.  With
    nets 1 and 2 bound there as well the excess for net 0 is 2 and the
    present cost is 1 + 2 * 1/2 = 2: the score is 2/2 + 1/2. *)
Lemma score_node_for_arc_formula_witness :
  score_node_for_arc ex_routed ex_net 0 n2
  = Ok (score_formula F32.one F32.one F32.one 1
          (bias_formula F32.one F32.one 1 1 2))
  ∧ score_node_for_arc ex_congested ex_net 0 n2
    = Ok (score_formula F32.one F32.one (F32.of_int 2) 1
            (bias_formula F32.one F32.one 1 1 2)).
Proof.
  split.
  - apply (score_node_for_arc_formula ex_routed ex_net 0%nat n2 (ex_bound n1)
             (ex_netdata true) ex_channel); reflexivity.
  - apply (score_node_for_arc_formula ex_congested ex_net 0%nat n2 ex_crowded
             (ex_netdata true) ex_channel); reflexivity.
Defined.

Example score_node_for_arc_value :
  score_node_for_arc ex_routed ex_net 0 n2 = Ok (F32.of_int 1)
  ∧ score_node_for_arc ex_congested ex_net 0 n2 = Ok (F32.lit 3 (-1)).
Proof. vm_compute. auto. Qed.

(** ** Queue order *)

Lemma SFcompare_Eq_sym (a b : float) :
  SFcompare a b = Some Eq → SFcompare b a = Some Eq.
Proof.
  destruct a as [sa|sa| |sa ma ea], b as [sb|sb| |sb mb eb]; simpl;
    try destruct sa; try destruct sb; try congruence.
  - destruct (Z.compare_spec ea eb) as [->| |]; try discriminate.
    rewrite Z.compare_refl. intros [= H].
    destruct (Pos.compare_cont Eq ma mb) eqn:E; try discriminate.
    apply Pos.compare_eq in E as ->.
    fold (Pos.compare mb mb). rewrite Pos.compare_refl. reflexivity.
  - destruct (Z.compare_spec ea eb) as [->| |]; try discriminate.
    rewrite Z.compare_refl. intros [= H].
    apply Pos.compare_eq in H as ->.
    fold (Pos.compare mb mb). rewrite Pos.compare_refl. reflexivity.
Qed.

Lemma F32_eqb_sym (a b : float) : F32.eqb a b = true → F32.eqb b a = true.
Proof.
  unfold F32.eqb, SFeqb. destruct (SFcompare a b) as [[| |]|] eqn:E;
    try discriminate.
  rewrite (SFcompare_Eq_sym a b E). reflexivity.
Qed.

(** [pq_top] is a top: for a comparison that is a strict weak order, no
    element of the queue is ordered after it. *)
Section pq_top_facts.
Context {T : Type} (comp : T → T → bool).
Hypothesis comp_asym : ∀ a b, comp a b = true → comp b a = false.
Hypothesis comp_negtrans :
  ∀ a b c, comp a b = false → comp b c = false → comp a c = false.

Lemma pq_top_elem (l : list T) : ∀ best, pq_top comp best l ∈ best :: l.
Proof.
  induction l as [|e l IH]; intros best; simpl.
  - apply list_elem_of_here.
  - specialize (IH (if comp best e then e else best)).
    apply elem_of_cons in IH as [-> | IH].
    + destruct (comp best e).
      * apply list_elem_of_further, list_elem_of_here.
      * apply list_elem_of_here.
    + apply list_elem_of_further, list_elem_of_further, IH.
Qed.

Lemma pq_top_not_before (l : list T) : ∀ best x,
  x ∈ best :: l → comp (pq_top comp best l) x = false.
Proof.
  induction l as [|e l IH]; intros best x Hx; simpl.
  - apply elem_of_cons in Hx as [-> | Hx]; [|inversion Hx].
    destruct (comp best best) eqn:E; [|reflexivity].
    rewrite (comp_asym _ _ E) in E. discriminate.
  - set (best' := if comp best e then e else best).
    assert (Hb : comp best' best = false).
    { unfold best'. destruct (comp best e) eqn:E; [apply comp_asym, E|].
      destruct (comp best best) eqn:E'; [|reflexivity].
      rewrite (comp_asym _ _ E') in E'. discriminate. }
    assert (He : comp best' e = false).
    { unfold best'. destruct (comp best e) eqn:E; [|exact E].
      destruct (comp e e) eqn:E'; [|reflexivity].
      rewrite (comp_asym _ _ E') in E'. discriminate. }
    pose proof (IH best' best' (list_elem_of_here _ _)) as Htop.
    apply elem_of_cons in Hx as [-> | Hx].
    + eapply comp_negtrans; eassumption.
    + apply elem_of_cons in Hx as [-> | Hx].
      * eapply comp_negtrans; eassumption.
      * apply IH. apply list_elem_of_further, Hx.
Qed.
End pq_top_facts.

(** C6, as the code has it.  Of two entries with equal totals the one
    with the smaller random tag is on top of the queue, whichever was
    pushed first: [Greater] orders the entry with the larger tag behind
    the other. *)
Theorem Greater_tie_prefers_smaller_randtag (a b : QueuedNode.t) :
  F32.eqb (NodeScore.total (QueuedNode.score a)) (NodeScore.total (QueuedNode.score b))
  = true →
  QueuedNode.randtag a < QueuedNode.randtag b →
  QueuedNode.Greater b a = true
  ∧ QueuedNode.Greater a b = false
  ∧ pq_top QueuedNode.Greater a [b] = a
  ∧ pq_top QueuedNode.Greater b [a] = a.
Proof.
  intros Heq Hlt. unfold NodeScore.total in Heq.
  assert (Hba : QueuedNode.Greater b a = true).
  { unfold QueuedNode.Greater. rewrite (F32_eqb_sym _ _ Heq). lia. }
  assert (Hab : QueuedNode.Greater a b = false).
  { unfold QueuedNode.Greater. rewrite Heq. lia. }
  simpl. rewrite Hba, Hab. auto.
Qed.

Lemma Greater_tie_prefers_smaller_randtag_witness :
  let a := ex_entry n1 (F32.of_int 1) (F32.of_int 2) 4 in
  let b := ex_entry n2 (F32.of_int 2) (F32.of_int 1) 9 in
  QueuedNode.Greater b a = true
  ∧ QueuedNode.Greater a b = false
  ∧ pq_top QueuedNode.Greater a [b] = a
  ∧ pq_top QueuedNode.Greater b [a] = a.
Proof.
  intros a b. apply (Greater_tie_prefers_smaller_randtag a b).
  - reflexivity.
  - reflexivity.
Defined.

(** The entry with the larger tag is not the one that is popped first:
    of two entries of total 3 with tags 4 and 9, in either push order, the
    queue has the entry with tag 4 on top. *)
Lemma Greater_tie_larger_randtag_not_first :
  let a := ex_entry n1 (F32.of_int 1) (F32.of_int 2) 4 in
  let b := ex_entry n2 (F32.of_int 2) (F32.of_int 1) 9 in
  F32.eqb (NodeScore.total (QueuedNode.score a)) (NodeScore.total (QueuedNode.score b))
  = true
  ∧ QueuedNode.randtag (pq_top QueuedNode.Greater a [b]) = 4
  ∧ QueuedNode.randtag (pq_top QueuedNode.Greater b [a]) = 4.
Proof. vm_compute. auto. Qed.

(** ** Graph set-up rejects a template that leaves the grid *)

Lemma is_Raise_bind {A B} (m : result A) (f : A → result B) :
  is_Raise m → is_Raise (m ≫= f).
Proof. destruct m; simpl; [intros [] | intros _; exact I]. Qed.

Section for_each_facts.
Context {A S : Type} (Inv : S → Prop) (body : A → S → result S).

Lemma for_each_inv (l : list A) :
  (∀ a s s', a ∈ l → Inv s → body a s = Ok s' → Inv s') →
  ∀ s s', Inv s → for_each body l s = Ok s' → Inv s'.
Proof.
  induction l as [|a l IH]; intros Hbody s s' Hs H.
  - simpl in H. injection H as <-. exact Hs.
  - simpl in H. destruct (body a s) as [s1|] eqn:E; [|discriminate].
    simpl in H. eapply IH; [ | | exact H].
    + intros a' t t' Ha'. apply Hbody. apply list_elem_of_further, Ha'.
    + eapply Hbody; [apply list_elem_of_here | exact Hs | exact E].
Qed.

Lemma for_each_raises (l : list A) (a : A) :
  (∀ a' s s', a' ∈ l → Inv s → body a' s = Ok s' → Inv s') →
  a ∈ l →
  (∀ s, Inv s → is_Raise (body a s)) →
  ∀ s, Inv s → is_Raise (for_each body l s).
Proof.
  induction l as [|a0 l IH]; intros Hbody Ha Hbad s Hs.
  - inversion Ha.
  - simpl. destruct (body a0 s) as [s1|e] eqn:E; simpl; [|exact I].
    assert (Hs1 : Inv s1)
      by (eapply Hbody; [apply list_elem_of_here | exact Hs | exact E]).
    apply elem_of_cons in Ha as [-> | Ha].
    + specialize (Hbad s Hs). rewrite E in Hbad. contradiction.
    + apply IH; auto.
      intros a' t t' Ha'. apply Hbody. apply list_elem_of_further, Ha'.
Qed.
End for_each_facts.

Lemma vec_at_raises {A} (v : list A) (n i : Z) :
  length v = Z.to_nat n → 0 ≤ n → i < 0 ∨ n ≤ i → is_Raise (vec_at v i).
Proof.
  intros Hlen Hn Hi. unfold vec_at. case_bool_decide; [|exact I].
  destruct (v !! Z.to_nat i) eqn:E; [|exact I].
  apply lookup_lt_Some in E. lia.
Qed.

Lemma alter_slot_shape W H types st row col f :
  grid_shape W H types st → grid_shape W H types (alter_slot st row col f).
Proof.
  intros (Hw & Hh & Ht & Hl). unfold grid_shape, alter_slot. simpl.
  rewrite length_alter. auto.
Qed.

(** Case analysis along a chain of binds that is assumed to end in [Ok]. *)
Ltac bind_cases :=
  repeat (simpl;
          match goal with
          | |- (let '(_, _) := ?p in _) = Ok _ → _ => destruct p
          | |- (?m ≫= _) = Ok _ → _ => destruct m; simpl; [|intros [=]]
          end).

Lemma add_downhill_shape W H types x y t c dh st st' :
  grid_shape W H types st → add_downhill x y t c dh st = Ok st' →
  grid_shape W H types st'.
Proof.
  intros Hs. unfold add_downhill. bind_cases.
  intros [= Heq]. subst st'. apply alter_slot_shape, alter_slot_shape, Hs.
Qed.

Lemma add_channel_type_shape W H types x y t st st' :
  grid_shape W H types st → add_channel_type x y t st = Ok st' →
  grid_shape W H types st'.
Proof.
  intros Hs. unfold add_channel_type.
  destruct (vec_at (channel_types st) t) as [c|]; simpl; [|intros [=]].
  apply for_each_inv; [|exact Hs].
  intros dh s s' _. apply add_downhill_shape.
Qed.

Lemma resize_cell_shape W H types x y st st' :
  grid_shape W H types st → resize_cell x y st = Ok st' →
  grid_shape W H types st'.
Proof.
  intros (Hw & Hh & Ht & Hl). unfold resize_cell.
  destruct (vec_at (nodes st) _); simpl; [|intros [=]].
  intros [= Heq]. subst st'. unfold grid_shape. simpl. rewrite length_alter. auto.
Qed.

Lemma displace_row W d x y along :
  (displace d x y along).2 * W + (displace d x y along).1
  = y * W + x + row_offset W d along.
Proof. destruct d; simpl; lia. Qed.

Lemma outside_row_offset W H d x y along :
  0 ≤ x < W → 0 ≤ y < H → outside W H (displace d x y along) →
  row_offset W d along ≠ 0.
Proof.
  unfold outside. intros Hx Hy Hout Hoff. apply Hout.
  destruct d; simpl in *; split; nia.
Qed.

Lemma failing_cell_in_grid W H off :
  0 < W → 0 < H →
  (failing_cell W H off).1 ∈ seqZ 0 W ∧ (failing_cell W H off).2 ∈ seqZ 0 H.
Proof.
  intros HW HH. unfold failing_cell.
  destruct (off <? 0); simpl; rewrite !elem_of_seqZ; lia.
Qed.

Lemma failing_cell_row W H off :
  0 < W → 0 < H → off ≠ 0 →
  let i := (failing_cell W H off).2 * W + (failing_cell W H off).1 + off in
  i < 0 ∨ W * H ≤ i.
Proof.
  intros HW HH Hoff. unfold failing_cell.
  destruct (Z.ltb_spec off 0); simpl; [left; lia | right; nia].
Qed.

(** Case analysis along a chain of binds, up to the first look-up of a
    row of [nodes]. *)
Ltac raise_cases st :=
  repeat (simpl;
          match goal with
          | |- True => exact I
          | |- is_Raise (Raise _) => exact I
          | |- is_Raise (let '(_, _) := ?p in _) => destruct p eqn:?
          | |- is_Raise (?m ≫= _) =>
              lazymatch m with
              | vec_at (nodes st) _ => fail
              | _ => destruct m eqn:?
              end
          end).

Lemma add_downhill_raises_src W H types x y t c dh st :
  grid_shape W H types st → 0 ≤ W * H →
  (let i := y * W + x + row_offset W (Channel.dir c) (Downhill.src_along dh) in
   i < 0 ∨ W * H ≤ i) →
  is_Raise (add_downhill x y t c dh st).
Proof.
  intros (Hw & Hh & Ht & Hl) HWH Hi. unfold add_downhill. raise_cases st.
  apply is_Raise_bind, (vec_at_raises _ (W * H)); [exact Hl | exact HWH |].
  rewrite Hw.
  pose proof (displace_row W (Channel.dir c) x y (Downhill.src_along dh)) as Hrow.
  match goal with E : displace (Channel.dir c) _ _ _ = _ |- _ => rewrite E in Hrow end.
  simpl in Hrow. rewrite Hrow. exact Hi.
Qed.

Lemma add_downhill_raises_dst W H types x y t c dh d st :
  grid_shape W H types st → 0 ≤ W * H →
  vec_at types (Downhill.dst_type dh) = Ok d →
  (let i := y * W + x + row_offset W (Channel.dir d) (Downhill.dst_along dh) in
   i < 0 ∨ W * H ≤ i) →
  is_Raise (add_downhill x y t c dh st).
Proof.
  intros (Hw & Hh & Ht & Hl) HWH Hd Hi. unfold add_downhill.
  rewrite Ht, Hd. raise_cases st.
  match goal with
  | |- is_Raise (?m ≫= _) => destruct m as [src_row|]; simpl; [|exact I]
  end.
  destruct (vec_at src_row t); simpl; [|exact I].
  apply is_Raise_bind, (vec_at_raises _ (W * H)); [exact Hl | exact HWH |].
  rewrite Hw.
  pose proof (displace_row W (Channel.dir d) x y (Downhill.dst_along dh)) as Hrow.
  match goal with E : displace (Channel.dir d) _ _ _ = _ |- _ => rewrite E in Hrow end.
  simpl in Hrow. rewrite Hrow. exact Hi.
Qed.

Lemma add_channel_type_raises W H types x y t c dh st :
  grid_shape W H types st → 0 ≤ W * H →
  vec_at types t = Ok c → dh ∈ Channel.downhill c →
  (∀ s, grid_shape W H types s → is_Raise (add_downhill x y t c dh s)) →
  is_Raise (add_channel_type x y t st).
Proof.
  intros Hs HWH Hc Hdh Hbad. unfold add_channel_type.
  destruct Hs as (Hw & Hh & Ht & Hl). rewrite Ht, Hc. simpl.
  apply (for_each_raises (grid_shape W H types) _ _ dh); auto.
  - intros dh' s s' _. apply add_downhill_shape.
  - repeat split; assumption.
Qed.

Lemma cells_shape W H types (body : Z → Z → ChannelRouterState → result ChannelRouterState)
  (xs ys : list Z) :
  (∀ x y s s', grid_shape W H types s → body x y s = Ok s' → grid_shape W H types s') →
  ∀ s s', grid_shape W H types s →
    for_each (λ y, for_each (λ x, body x y) xs) ys s = Ok s' →
    grid_shape W H types s'.
Proof.
  intros Hbody. apply for_each_inv. intros y s s' _.
  apply for_each_inv. intros x t t' _. apply Hbody.
Qed.

(** Set-up is ended by an exception as soon as one iteration of its
    innermost loop is, at a cell of the grid, whatever the state. *)
Lemma setup_nodes_raises_at st fx fy t c dh :
  let W := ChannelGraph.get_width (g st) in
  let H := ChannelGraph.get_height (g st) in
  let types := ChannelGraph.get_channels (g st) in
  fx ∈ seqZ 0 W → fy ∈ seqZ 0 H →
  vec_at types t = Ok c → dh ∈ Channel.downhill c →
  (∀ s, grid_shape W H types s → is_Raise (add_downhill fx fy t c dh s)) →
  is_Raise (setup_nodes st).
Proof.
  intros W H types Hfx Hfy Hc Hdh Hbad.
  assert (HWH : 0 ≤ W * H) by (apply elem_of_seqZ in Hfx, Hfy; nia).
  unfold setup_nodes. simpl. fold W H types.
  destruct (Z.ltb_spec (W * H) 0) as [|_]; [exact I|].
  match goal with
  | |- is_Raise (?m ≫= _) => destruct m as [st2|] eqn:Hfirst; simpl; [|exact I]
  end.
  assert (Hs2 : grid_shape W H types st2).
  { eapply (cells_shape W H types (λ x y, resize_cell x y)); [ | | exact Hfirst].
    - intros x' y' s s'. apply resize_cell_shape.
    - unfold grid_shape. simpl. rewrite length_resize. auto. }
  destruct Hs2 as (Hw2 & Hh2 & Ht2 & Hl2).
  rewrite Hw2, Hh2, Ht2.
  assert (Hkeep : ∀ x' y' s s', grid_shape W H types s →
            for_each (add_channel_type x' y')
              (seqZ 0 (Z.of_nat (length types))) s = Ok s' →
            grid_shape W H types s').
  { intros x' y' s s'. apply for_each_inv. intros t' u u' _.
    apply add_channel_type_shape. }
  apply (for_each_raises (grid_shape W H types) _ _ fy);
    [ | exact Hfy | | repeat split; assumption ].
  { intros y' s s' _. apply for_each_inv. intros x' u u' _. apply Hkeep. }
  intros s Hs.
  apply (for_each_raises (grid_shape W H types) _ _ fx);
    [ | exact Hfx | | exact Hs ].
  { intros x' u u' _. apply Hkeep. }
  intros s' Hs'.
  apply (for_each_raises (grid_shape W H types) _ _ t);
    [ | | | exact Hs' ].
  - intros t' u u' _. apply add_channel_type_shape.
  - apply vec_at_Ok in Hc as [Ht0 Hc]. apply lookup_lt_Some in Hc.
    apply elem_of_seqZ. lia.
  - intros u Hu. eapply add_channel_type_raises; eassumption.
Qed.

(** A template whose source or destination is outside the grid at some
    cell ends the set-up. *)
Lemma setup_nodes_raises_outside st x y t c dh :
  let W := ChannelGraph.get_width (g st) in
  let H := ChannelGraph.get_height (g st) in
  let types := ChannelGraph.get_channels (g st) in
  0 ≤ x < W → 0 ≤ y < H →
  vec_at types t = Ok c → dh ∈ Channel.downhill c →
  (outside W H (displace (Channel.dir c) x y (Downhill.src_along dh))
   ∨ ∃ d, vec_at types (Downhill.dst_type dh) = Ok d
          ∧ outside W H (displace (Channel.dir d) x y (Downhill.dst_along dh))) →
  is_Raise (setup_nodes st).
Proof.
  intros W H types Hx Hy Hc Hdh Hout.
  assert (HW : 0 < W) by lia. assert (HH : 0 < H) by lia.
  assert (HWH : 0 ≤ W * H) by nia.
  (* the offset of the template and the cell at which it leaves the rows *)
  assert (∃ off, off ≠ 0 ∧
            ∀ x' y' s, grid_shape W H types s →
              (let i := y' * W + x' + off in i < 0 ∨ W * H ≤ i) →
              is_Raise (add_downhill x' y' t c dh s))
    as (off & Hoff & Hbad).
  { destruct Hout as [Hsrc | (d & Hd & Hdst)].
    - exists (row_offset W (Channel.dir c) (Downhill.src_along dh)). split.
      + eapply outside_row_offset; eassumption.
      + intros x' y' s Hs Hi. eapply add_downhill_raises_src; eassumption.
    - exists (row_offset W (Channel.dir d) (Downhill.dst_along dh)). split.
      + eapply outside_row_offset; eassumption.
      + intros x' y' s Hs Hi. eapply add_downhill_raises_dst; eassumption. }
  destruct (failing_cell_in_grid W H off HW HH) as [Hfx Hfy].
  pose proof (failing_cell_row W H off HW HH Hoff) as Hrow.
  destruct (failing_cell W H off) as [fx fy]. simpl in Hfx, Hfy, Hrow.
  apply (setup_nodes_raises_at st fx fy t c dh); try assumption.
  intros s Hs. apply Hbad; [exact Hs | exact Hrow].
Qed.

(** A template that names a channel type that does not exist ends the
    set-up of a grid that has a cell. *)
Lemma setup_nodes_raises_missing_type st t c dh e :
  let W := ChannelGraph.get_width (g st) in
  let H := ChannelGraph.get_height (g st) in
  let types := ChannelGraph.get_channels (g st) in
  0 < W → 0 < H →
  vec_at types t = Ok c → dh ∈ Channel.downhill c →
  vec_at types (Downhill.dst_type dh) = Raise e →
  is_Raise (setup_nodes st).
Proof.
  intros W H types HW HH Hc Hdh Hmiss.
  apply (setup_nodes_raises_at st 0 0 t c dh); try assumption.
  - apply elem_of_seqZ. lia.
  - apply elem_of_seqZ. lia.
  - intros s (_ & _ & Ht & _). unfold add_downhill.
    destruct (NPNR_ASSERT _); simpl; [|exact I].
    destruct (displace _ _ _ _). rewrite Ht.
    fold types. rewrite Hmiss. exact I.
Qed.

(** Read the other way: a set-up that returns has met no template that
    leaves the grid. *)
Lemma setup_nodes_Ok_inside st st' x y t c dh :
  let W := ChannelGraph.get_width (g st) in
  let H := ChannelGraph.get_height (g st) in
  let types := ChannelGraph.get_channels (g st) in
  setup_nodes st = Ok st' →
  0 ≤ x < W → 0 ≤ y < H →
  vec_at types t = Ok c → dh ∈ Channel.downhill c →
  ¬ outside W H (displace (Channel.dir c) x y (Downhill.src_along dh))
  ∧ ∀ d, vec_at types (Downhill.dst_type dh) = Ok d →
         ¬ outside W H (displace (Channel.dir d) x y (Downhill.dst_along dh)).
Proof.
  intros W H types Hok Hx Hy Hc Hdh.
  pose proof (setup_nodes_raises_outside st x y t c dh Hx Hy Hc Hdh) as Hr.
  rewrite Hok in Hr. simpl in Hr. split.
  - intros Hout. apply Hr. left. exact Hout.
  - intros d Hd Hout. apply Hr. right. eauto.
Qed.

(** C2.  When a downhill template of a channel type, applied at a cell
    of the grid, has its source or its destination outside the grid, graph
    set-up does not return: it is ended by an exception ([std::out_of_range]
    from a [.at], or a failed [NPNR_ASSERT]), whatever the state it starts
    in, so that no adjacency with such an edge is handed to the router. *)
Theorem setup_nodes_rejects_outside st x y t c dh :
  let W := ChannelGraph.get_width (g st) in
  let H := ChannelGraph.get_height (g st) in
  let types := ChannelGraph.get_channels (g st) in
  0 ≤ x < W → 0 ≤ y < H →
  vec_at types t = Ok c → dh ∈ Channel.downhill c →
  (outside W H (displace (Channel.dir c) x y (Downhill.src_along dh))
   ∨ ∃ d, vec_at types (Downhill.dst_type dh) = Ok d
          ∧ outside W H (displace (Channel.dir d) x y (Downhill.dst_along dh))) →
  ∃ e, setup_nodes st = Raise e.
Proof.
  intros W H types Hx Hy Hc Hdh Hout.
  pose proof (setup_nodes_raises_outside st x y t c dh Hx Hy Hc Hdh Hout) as Hr.
  destruct (setup_nodes st) as [|e]; [destruct Hr | eauto].
Qed.

Lemma setup_nodes_rejects_outside_witness :
  ∃ e, setup_nodes ex_hop_state = Raise e.
Proof.
  apply (setup_nodes_rejects_outside ex_hop_state 0 0 0 ex_hop (Downhill.mk 1 0 0)).
  - simpl. lia.
  - simpl. lia.
  - reflexivity.
  - simpl. apply list_elem_of_here.
  - left. unfold outside. simpl. lia.
Defined.

Example setup_nodes_hop : setup_nodes ex_hop_state = Raise out_of_range.
Proof. vm_compute. reflexivity. Qed.

Example setup_nodes_loop :
  nodes <$> setup_nodes ex_loop_state
  = Ok [ [PerNodeData.mk [n0] [n0] ∅ F32.one false (-1)];
         [PerNodeData.mk [n1] [n1] ∅ F32.one false (-1)] ].
Proof. vm_compute. reflexivity. Qed.

(** ** Settings *)

(** C10.  [Settings::get] on a name that is present and whose string
    parses as the requested type returns the parsed value and leaves the
    context, and with it the settings map, as it was; on a name that is
    absent it stores the string of the default under the name, changes
    nothing else, and returns the default. *)
Theorem Settings_get_spec {T} `{SettingType T} (c : Context) (name : string)
  (defaultValue : T) :
  (∀ p v, Context.settings c !! name = Some p →
          lexical_cast (Property.str p) = Some v →
          Settings_get c name defaultValue = Ok (v, c))
  ∧ (Context.settings c !! name = None →
       ∃ c', Settings_get c name defaultValue = Ok (defaultValue, c')
             ∧ Context.settings c'
               = <[name := Property.mk (to_string defaultValue)]> (Context.settings c)
             ∧ Context.nets c' = Context.nets c
             ∧ Context.debug c' = Context.debug c).
Proof.
  split.
  - intros p v Hp Hv. unfold Settings_get. rewrite Hp, Hv. reflexivity.
  - intros Hn. unfold Settings_get. rewrite Hn. eexists. split; [reflexivity|].
    auto.
Qed.

Lemma Settings_get_spec_witness :
  Settings_get ex_settings "router/seed" 1 = Ok (42, ex_settings)
  ∧ ∃ c', Settings_get ex_settings "router/iter" 7 = Ok (7, c')
          ∧ Context.settings c'
            = <[ "router/iter" := Property.mk "7" ]> (Context.settings ex_settings)
          ∧ Context.nets c' = Context.nets ex_settings
          ∧ Context.debug c' = Context.debug ex_settings.
Proof.
  split.
  - apply (proj1 (Settings_get_spec ex_settings "router/seed" 1)
             (Property.mk "42") 42); reflexivity.
  - destruct (proj2 (Settings_get_spec ex_settings "router/iter" 7) eq_refl)
      as (c' & H1 & H2 & H3 & H4).
    exists c'. split; [exact H1 | split; [exact H2 | split; [exact H3 | exact H4]]].
Defined.

(** ** Net identifiers *)

Example sorted_ex_undriven :
  sorted (Context.nets (ctx ex_undriven)) = [("a", ex_net_a); ("b", ex_net_b)].
Proof. vm_compute. reflexivity. Qed.

(** C7 fails on the code.  The loop of [setup_nets] leaves the body by
    [continue] for a net without driver and so skips the [i++] at its end:
    the next net in the order is given the same [udata] and the same
    slot.  Here "a" and "b" both have [udata = 0], slot 0 of
    [nets_by_udata] names "b" alone, slot 0 of [nets] holds the record of
    "b", and slot 1 is never written. *)
Theorem setup_nets_undriven_shares_udata :
  ∃ st',
    setup_nets ex_undriven = Ok st'
    ∧ NetInfo.udata <$> (Context.nets (ctx st') !! "a") = Some 0
    ∧ NetInfo.udata <$> (Context.nets (ctx st') !! "b") = Some 0
    ∧ nets_by_udata st' = [Some "b"; None]
    ∧ PerNetData.hpwl <$> nets st' = [2; 0]
    ∧ nets st' !! 1%nat = Some PerNetData.init.
Proof. eexists. vm_compute. repeat split; reflexivity. Qed.

Example setup_nets_driven :
  ∃ st',
    setup_nets ex_driven = Ok st'
    ∧ NetInfo.udata <$> (Context.nets (ctx st') !! "a") = Some 0
    ∧ NetInfo.udata <$> (Context.nets (ctx st') !! "b") = Some 1
    ∧ nets_by_udata st' = [Some "a"; Some "b"]
    ∧ PerNetData.hpwl <$> nets st' = [2; 2]
    ∧ PerNetData.cx <$> nets st' = [1; 1].
Proof. eexists. vm_compute. repeat split; reflexivity. Qed.

(** *** The identifier of a net in general *)

Lemma count_driven_app l1 l2 :
  count_driven (l1 ++ l2) = (count_driven l1 + count_driven l2)%nat.
Proof. induction l1 as [|net l1 IH]; simpl; [reflexivity | rewrite IH; lia]. Qed.

Lemma setup_net_record_counted gr ni nd :
  (setup_net_record gr ni nd).2
  = if NetInfo.driver_cell ni is Some _ then true else false.
Proof. unfold setup_net_record. destruct (NetInfo.driver_cell ni); reflexivity. Qed.

Lemma setup_net_step key ni0 i st :
  (i < length (nets st))%nat → (i < length (nets_by_udata st))%nat →
  ∃ st',
    setup_net (key, ni0) (i, st)
    = Ok ((i + if driven (key, ni0) then 1 else 0)%nat, st')
    ∧ Context.nets (ctx st')
      = <[key := NetInfo.set_udata ni0 (Z.of_nat i)]> (Context.nets (ctx st))
    ∧ length (nets st') = length (nets st)
    ∧ length (nets_by_udata st') = length (nets_by_udata st).
Proof.
  intros Hn Hu. unfold setup_net.
  apply lookup_lt_is_Some_2 in Hn as [nd Hnd], Hu as [p Hp].
  assert (H1 : vec_at (nets_by_udata st) (Z.of_nat i) = Ok p)
    by (apply vec_at_Ok; rewrite Nat2Z.id; split; [lia | exact Hp]).
  assert (H2 : vec_at (nets st) (Z.of_nat i) = Ok nd)
    by (apply vec_at_Ok; rewrite Nat2Z.id; split; [lia | exact Hnd]).
  simpl. rewrite H1. simpl. rewrite H2. simpl.
  pose proof (setup_net_record_counted (g st)
                (NetInfo.set_udata ni0 (Z.of_nat i)) nd) as Hc.
  destruct (setup_net_record _ _ nd) as [nd' counted]. simpl in Hc. subst counted.
  eexists. split.
  - unfold driven. simpl.
    destruct (NetInfo.driver_cell ni0); [replace (i + 1)%nat with (S i) by lia|
                                         replace (i + 0)%nat with i by lia];
      reflexivity.
  - simpl. rewrite !length_insert. auto.
Qed.

Lemma setup_nets_loop l : ∀ i st,
  NoDup l.*1 →
  (i + length l ≤ length (nets st))%nat →
  (i + length l ≤ length (nets_by_udata st))%nat →
  ∃ i' st',
    for_each setup_net l (i, st) = Ok (i', st')
    ∧ (∀ k key ni, l !! k = Some (key, ni) →
         Context.nets (ctx st') !! key
         = Some (NetInfo.set_udata ni (Z.of_nat (i + count_driven (take k l)))))
    ∧ (∀ key, key ∉ l.*1 →
         Context.nets (ctx st') !! key = Context.nets (ctx st) !! key).
Proof.
  induction l as [|[key0 ni0] l IH]; intros i st Hnd Hn Hu.
  - exists i, st. split; [reflexivity|]. split; [|auto].
    intros k key ni Hk. rewrite lookup_nil in Hk. discriminate.
  - simpl in Hnd, Hn, Hu. apply NoDup_cons in Hnd as [Hfresh Hnd].
    destruct (setup_net_step key0 ni0 i st) as (st1 & Hstep & Hctx & Hn1 & Hu1);
      [lia | lia |].
    set (i1 := (i + if driven (key0, ni0) then 1 else 0)%nat) in *.
    destruct (IH i1 st1 Hnd) as (i' & st' & Hloop & Hin & Hout).
    { rewrite Hn1. unfold i1. destruct (driven _); lia. }
    { rewrite Hu1. unfold i1. destruct (driven _); lia. }
    exists i', st'. split; [|split].
    + cbn [for_each]. rewrite Hstep. exact Hloop.
    + intros [|k] key ni Hk; simpl in Hk.
      * injection Hk as -> ->. rewrite Hout by exact Hfresh.
        rewrite Hctx, lookup_insert_eq. simpl.
        replace (i + 0)%nat with i by lia. reflexivity.
      * rewrite (Hin k key ni Hk). simpl. unfold i1.
        do 3 f_equal. lia.
    + intros key Hkey. simpl in Hkey. apply not_elem_of_cons in Hkey as [Hne Hkey].
      rewrite Hout by exact Hkey. rewrite Hctx. apply lookup_insert_ne. congruence.
Qed.

Lemma sorted_NoDup (m : gmap string NetInfo) : NoDup (sorted m).*1.
Proof.
  unfold sorted. rewrite merge_sort_Permutation. apply NoDup_fst_map_to_list.
Qed.

Lemma sorted_length (m : gmap string NetInfo) : length (sorted m) = size m.
Proof.
  unfold sorted. rewrite merge_sort_Permutation. apply length_map_to_list.
Qed.

(** The net at place [k] of the sorted order is given as [udata] the
    number of driven nets before it, which is [k] only when all of them
    are driven. *)
Lemma setup_nets_udata st :
  let l := sorted (Context.nets (ctx st)) in
  ∃ st', setup_nets st = Ok st'
    ∧ ∀ k key ni, l !! k = Some (key, ni) →
        Context.nets (ctx st') !! key
        = Some (NetInfo.set_udata ni (Z.of_nat (count_driven (take k l)))).
Proof.
  intros l. unfold setup_nets.
  set (n := size (Context.nets (ctx st))).
  set (st0 := set_nets_by_udata (set_nets st _) _).
  destruct (setup_nets_loop l O st0) as (i' & st' & Hloop & Hin & _).
  - apply sorted_NoDup.
  - unfold st0, l. simpl. rewrite length_resize, sorted_length. lia.
  - unfold st0, l. simpl. rewrite length_resize, sorted_length. lia.
  - exists st'. split.
    + change (Context.nets (ctx st0)) with (Context.nets (ctx st)).
      fold l. rewrite Hloop. reflexivity.
    + intros k key ni Hk. rewrite (Hin k key ni Hk). reflexivity.
Qed.

(** Two nets that follow each other in the order get the same [udata]
    when the first has no driver. *)
Lemma setup_nets_udata_shared st k ka na kb nb :
  let l := sorted (Context.nets (ctx st)) in
  l !! k = Some (ka, na) → l !! S k = Some (kb, nb) →
  NetInfo.driver_cell na = None →
  ∃ st' u, setup_nets st = Ok st'
    ∧ NetInfo.udata <$> Context.nets (ctx st') !! ka = Some u
    ∧ NetInfo.udata <$> Context.nets (ctx st') !! kb = Some u.
Proof.
  intros l Ha Hb Hund.
  destruct (setup_nets_udata st) as (st' & Hok & Hud). fold l in Hud.
  exists st', (Z.of_nat (count_driven (take k l))). split; [exact Hok|].
  rewrite (Hud _ _ _ Ha), (Hud _ _ _ Hb). simpl. split; [reflexivity|].
  rewrite (take_S_r _ _ _ Ha), count_driven_app. simpl.
  unfold driven. simpl. rewrite Hund. do 3 f_equal. lia.
Qed.

(** * Further properties of the code *)

(** ** Node identity *)

(** X1.  [operator!=] on ChannelNode is the negation of [operator==], and
    [operator==] holds of two nodes exactly when they are the same triple. *)
Theorem node_eq_ne_complement (a b : ChannelNode) :
  node_ne a b = negb (node_eq a b)
  ∧ (node_eq a b = true ↔ a = b)
  ∧ (node_ne a b = true ↔ a ≠ b).
Proof.
  split; [apply node_ne_negb|]. split; [apply node_eq_true | apply node_ne_true].
Qed.

(** ** Bind and unbind: what they touch and when they fail *)

Lemma node_data_outside st n :
  ¬ in_grid st n → node_data st n = Raise assertion_failure.
Proof.
  unfold in_grid, node_data, NPNR_ASSERT. intros Hout. rewrite !Z.geb_leb.
  destruct (Z.leb_spec 0 (ChannelNode.x n)), (Z.ltb_spec (ChannelNode.x n) (width st));
    simpl; try reflexivity.
  destruct (Z.leb_spec 0 (ChannelNode.y n)), (Z.ltb_spec (ChannelNode.y n) (height st));
    simpl; try reflexivity.
  exfalso. apply Hout. lia.
Qed.

Lemma bind_node_internal_Ok_inv st net node uphill st' :
  bind_node_internal st net node uphill = Ok st' →
  ∃ w b, node_data st node = Ok w
         ∧ st' = set_node_data st node
                   (PerNodeData.set_bound_nets w
                      (<[NetInfo.udata net := b]> (PerNodeData.bound_nets w))).
Proof.
  unfold bind_node_internal. destruct (node_data st node) as [w|]; simpl; [|intros [=]].
  destruct (_ =? 1).
  - intros [= <-]. eauto.
  - destruct (NPNR_ASSERT _); simpl; [|intros [=]]. intros [= <-]. eauto.
Qed.

Lemma unbind_node_internal_Ok_inv st net node st' :
  unbind_node_internal st net node = Ok st' →
  ∃ w m, node_data st node = Ok w
         ∧ (∀ k, k ≠ NetInfo.udata net → m !! k = PerNodeData.bound_nets w !! k)
         ∧ st' = set_node_data st node (PerNodeData.set_bound_nets w m).
Proof.
  unfold unbind_node_internal. destruct (node_data st node) as [w|]; simpl; [|intros [=]].
  destruct (map_at _ _) as [b|]; simpl; [|intros [=]].
  destruct (_ =? 0); intros [= <-]; eexists _, _; (split; [reflexivity|]);
    (split; [|reflexivity]); intros k Hk.
  - apply lookup_delete_ne. congruence.
  - apply lookup_insert_ne. congruence.
Qed.

(** What a write to the binding map of one node leaves alone. *)
Lemma set_bound_nets_frame st node w m :
  node_data st node = Ok w →
  let st' := set_node_data st node (PerNodeData.set_bound_nets w m) in
  width st' = width st ∧ height st' = height st ∧ nets st' = nets st
  ∧ channel_types st' = channel_types st ∧ ctx st' = ctx st
  ∧ (∀ n', n' ≠ node → node_data st' n' = node_data st n')
  ∧ ∃ w', node_data st' node = Ok w'
          ∧ PerNodeData.bound_nets w' = m
          ∧ PerNodeData.downhill w' = PerNodeData.downhill w
          ∧ PerNodeData.uphill w' = PerNodeData.uphill w
          ∧ PerNodeData.hist_cong_cost w' = PerNodeData.hist_cong_cost w
          ∧ PerNodeData.unavailable w' = PerNodeData.unavailable w
          ∧ PerNodeData.reserved_net w' = PerNodeData.reserved_net w.
Proof.
  intros Hw st'. repeat (split; [reflexivity|]). split.
  - intros n' Hne. pose proof Hw as Hw'. apply node_data_Ok in Hw' as (Hg & Ht & _).
    apply node_data_set_ne; auto.
  - eexists. split; [eapply node_data_set_eq, Hw|]. repeat split.
Qed.

(** X2.  A bind that returns has written the entry of its net at its node
    and nothing else: every other node keeps its data, every other net
    keeps its entry at the node, the node keeps its neighbour lists, its
    historical cost and its [unavailable] and [reserved_net] marks, and the
    net records, the dimensions and the context are the same. *)
Theorem bind_node_internal_frame st net node uphill st' :
  bind_node_internal st net node uphill = Ok st' →
  width st' = width st ∧ height st' = height st ∧ nets st' = nets st
  ∧ channel_types st' = channel_types st ∧ ctx st' = ctx st
  ∧ (∀ n', n' ≠ node → node_data st' n' = node_data st n')
  ∧ (∀ k, k ≠ NetInfo.udata net → bound_at st' node k = bound_at st node k)
  ∧ ∃ w w', node_data st node = Ok w ∧ node_data st' node = Ok w'
            ∧ PerNodeData.downhill w' = PerNodeData.downhill w
            ∧ PerNodeData.uphill w' = PerNodeData.uphill w
            ∧ PerNodeData.hist_cong_cost w' = PerNodeData.hist_cong_cost w
            ∧ PerNodeData.unavailable w' = PerNodeData.unavailable w
            ∧ PerNodeData.reserved_net w' = PerNodeData.reserved_net w.
Proof.
  intros Hb. apply bind_node_internal_Ok_inv in Hb as (w & b & Hw & ->).
  destruct (set_bound_nets_frame st node w
              (<[NetInfo.udata net := b]> (PerNodeData.bound_nets w)) Hw)
    as (H1 & H2 & H3 & H4 & H5 & H6 & w' & Hw' & Hm & H7).
  repeat (split; [assumption|]). split.
  - intros k Hk. unfold bound_at. rewrite Hw', Hw, Hm.
    apply lookup_insert_ne. congruence.
  - exists w, w'. auto.
Qed.

Lemma bind_node_internal_frame_witness :
  ∃ st', bind_node_internal ex_routed ex_net n1 n0 = Ok st'
         ∧ node_data st' n2 = node_data ex_routed n2
         ∧ bound_at st' n1 7 = bound_at ex_routed n1 7.
Proof.
  eexists. split; [reflexivity|].
  match goal with |- node_data ?s _ = _ ∧ _ =>
    destruct (bind_node_internal_frame ex_routed ex_net n1 n0 s eq_refl)
      as (_ & _ & _ & _ & _ & Hn & Hk & _)
  end.
  split; [apply Hn; discriminate | apply Hk; discriminate].
Defined.

(** X3.  An unbind that returns has written the entry of its net at its
    node and nothing else, in the same sense. *)
Theorem unbind_node_internal_frame st net node st' :
  unbind_node_internal st net node = Ok st' →
  width st' = width st ∧ height st' = height st ∧ nets st' = nets st
  ∧ channel_types st' = channel_types st ∧ ctx st' = ctx st
  ∧ (∀ n', n' ≠ node → node_data st' n' = node_data st n')
  ∧ (∀ k, k ≠ NetInfo.udata net → bound_at st' node k = bound_at st node k)
  ∧ ∃ w w', node_data st node = Ok w ∧ node_data st' node = Ok w'
            ∧ PerNodeData.downhill w' = PerNodeData.downhill w
            ∧ PerNodeData.uphill w' = PerNodeData.uphill w
            ∧ PerNodeData.hist_cong_cost w' = PerNodeData.hist_cong_cost w
            ∧ PerNodeData.unavailable w' = PerNodeData.unavailable w
            ∧ PerNodeData.reserved_net w' = PerNodeData.reserved_net w.
Proof.
  intros Hb. apply unbind_node_internal_Ok_inv in Hb as (w & m & Hw & Hm' & ->).
  destruct (set_bound_nets_frame st node w m Hw)
    as (H1 & H2 & H3 & H4 & H5 & H6 & w' & Hw' & Hm & H7).
  repeat (split; [assumption|]). split.
  - intros k Hk. unfold bound_at. rewrite Hw', Hw, Hm. apply Hm', Hk.
  - exists w, w'. auto.
Qed.

Lemma unbind_node_internal_frame_witness :
  ∃ st', unbind_node_internal ex_routed ex_net n1 = Ok st'
         ∧ node_data st' n2 = node_data ex_routed n2
         ∧ bound_at st' n1 7 = bound_at ex_routed n1 7.
Proof.
  eexists. split; [reflexivity|].
  match goal with |- node_data ?s _ = _ ∧ _ =>
    destruct (unbind_node_internal_frame ex_routed ex_net n1 s eq_refl)
      as (_ & _ & _ & _ & _ & Hn & Hk & _)
  end.
  split; [apply Hn; discriminate | apply Hk; discriminate].
Defined.

(** X4.  Bind and unbind end in a failed assertion for a node that is not
    a cell of the grid, and unbind ends in [out_of_range] for a net that
    is not bound at the node: a use that was not taken cannot be given
    back. *)
Theorem bind_unbind_errors st net node uphill :
  (¬ in_grid st node →
     bind_node_internal st net node uphill = Raise assertion_failure
     ∧ unbind_node_internal st net node = Raise assertion_failure)
  ∧ (∀ w, node_data st node = Ok w →
          PerNodeData.bound_nets w !! NetInfo.udata net = None →
          unbind_node_internal st net node = Raise out_of_range).
Proof.
  split.
  - intros Hout. unfold bind_node_internal, unbind_node_internal.
    rewrite (node_data_outside st node Hout). split; reflexivity.
  - intros w Hw Hn. unfold unbind_node_internal, map_at. rewrite Hw. simpl.
    rewrite Hn. reflexivity.
Qed.

Lemma bind_unbind_errors_witness :
  (bind_node_internal ex_state ex_net (ChannelNode.mk 3 0 0) n0
   = Raise assertion_failure
   ∧ unbind_node_internal ex_state ex_net (ChannelNode.mk 3 0 0)
     = Raise assertion_failure)
  ∧ unbind_node_internal ex_state ex_net n1 = Raise out_of_range.
Proof.
  destruct (bind_unbind_errors ex_state ex_net (ChannelNode.mk 3 0 0) n0) as [H1 _].
  destruct (bind_unbind_errors ex_state ex_net n1 n0) as [_ H2].
  split.
  - apply H1. unfold in_grid. simpl. lia.
  - apply (H2 PerNodeData.init); reflexivity.
Defined.

(** X5.  An unbind followed by a bind of the same net at the same node
    with the uphill that was stored gives back the state, whatever the
    use count was: when the unbind erased the entry the bind makes it
    anew. *)
Theorem unbind_bind_restores st net node w c u :
  node_data st node = Ok w →
  PerNodeData.bound_nets w !! NetInfo.udata net = Some (c, u) →
  ∃ st1, unbind_node_internal st net node = Ok st1
         ∧ bound_at st1 node (NetInfo.udata net)
           = (if c =? 1 then None else Some (c - 1, u))
         ∧ bind_node_internal st1 net node u = Ok st.
Proof.
  intros Hw Hb. eexists. split; [apply unbind_node_internal_bound; eassumption|].
  replace (c - 1 =? 0) with (c =? 1)
    by (destruct (Z.eqb_spec c 1), (Z.eqb_spec (c - 1) 0); lia || reflexivity).
  destruct (Z.eqb_spec c 1) as [-> | Hc].
  - split.
    { unfold bound_at. erewrite node_data_set_eq by exact Hw.
      rewrite bound_nets_set. apply lookup_delete_eq. }
    erewrite bind_node_internal_first;
      [ | eapply node_data_set_eq, Hw | rewrite bound_nets_set; apply lookup_delete_eq ].
    rewrite bound_nets_set, set_bound_nets_twice, set_node_data_twice.
    rewrite insert_delete_eq, insert_id by exact Hb.
    rewrite set_bound_nets_id, set_node_data_id by exact Hw. reflexivity.
  - split.
    { unfold bound_at. erewrite node_data_set_eq by exact Hw.
      rewrite bound_nets_set. apply lookup_insert_eq. }
    erewrite bind_node_internal_again;
      [ | eapply node_data_set_eq, Hw
        | rewrite bound_nets_set; apply lookup_insert_eq | lia ].
    rewrite node_eq_refl.
    rewrite bound_nets_set, set_bound_nets_twice, set_node_data_twice.
    replace (c - 1 + 1) with c by lia.
    rewrite insert_insert_eq, insert_id by exact Hb.
    rewrite set_bound_nets_id, set_node_data_id by exact Hw. reflexivity.
Qed.

Lemma unbind_bind_restores_witness :
  ∃ st1, unbind_node_internal ex_routed ex_net n2 = Ok st1
         ∧ bound_at st1 n2 0 = None
         ∧ bind_node_internal st1 ex_net n2 n1 = Ok ex_routed.
Proof.
  apply (unbind_bind_restores ex_routed ex_net n2 (ex_bound n1) 1 n1); reflexivity.
Defined.

(** ** The use count as a reference count *)

Lemma for_each_app {A S} (body : A → S → result S) (l1 l2 : list A) (s : S) :
  for_each body (l1 ++ l2) s = for_each body l1 s ≫= for_each body l2.
Proof.
  revert s. induction l1 as [|a l1 IH]; intros s; simpl; [reflexivity|].
  destruct (body a s); simpl; [apply IH | reflexivity].
Qed.

Lemma replicate_snoc {A} (k : nat) (a : A) : replicate (S k) a = replicate k a ++ [a].
Proof. induction k as [|k IH]; simpl in *; [reflexivity | rewrite <- IH; reflexivity]. Qed.

(** [k] unbinds of a net that is bound more than [k] times lower the
    count by [k] and keep the uphill. *)
Lemma unbind_all_bound k : ∀ st net node w c u,
  node_data st node = Ok w →
  PerNodeData.bound_nets w !! NetInfo.udata net = Some (c + Z.of_nat k, u) →
  0 < c →
  unbind_all st net node k
  = Ok (set_node_data st node
          (PerNodeData.set_bound_nets w
             (<[NetInfo.udata net := (c, u)]> (PerNodeData.bound_nets w)))).
Proof.
  induction k as [|k IH]; intros st net node w c u Hw Hb Hc.
  - unfold unbind_all. simpl. rewrite Z.add_0_r in Hb.
    rewrite insert_id by exact Hb.
    rewrite set_bound_nets_id, set_node_data_id by exact Hw. reflexivity.
  - unfold unbind_all. cbn [replicate for_each].
    rewrite (unbind_node_internal_bound st net node w _ u Hw Hb).
    destruct (Z.eqb_spec (c + Z.of_nat (S k) - 1) 0) as [|_]; [lia|].
    cbn [mbind result_bind].
    match goal with |- for_each _ _ ?s = _ => fold (unbind_all s net node k) end.
    erewrite (IH _ net node _ c u);
      [ | eapply node_data_set_eq, Hw
        | rewrite bound_nets_set, lookup_insert_eq; do 2 f_equal; lia | exact Hc ].
    rewrite bound_nets_set, set_bound_nets_twice, set_node_data_twice, insert_insert_eq.
    reflexivity.
Qed.

(** X6.  The use count is a reference count.  [k] binds of a net at a
    node where it was not bound, all with one uphill, leave the count [k];
    [k] unbinds then give back the state in which the binds started, the
    entry being erased by the last of them; one unbind more ends in
    [out_of_range]. *)
Theorem bind_all_unbind_all st net node w u k :
  node_data st node = Ok w →
  PerNodeData.bound_nets w !! NetInfo.udata net = None →
  ∃ st1,
    bind_all st net node (replicate (S k) u) = Ok st1
    ∧ bound_at st1 node (NetInfo.udata net) = Some (Z.of_nat (S k), u)
    ∧ (∃ st2, unbind_all st1 net node k = Ok st2
              ∧ bound_at st2 node (NetInfo.udata net) = Some (1, u))
    ∧ unbind_all st1 net node (S k) = Ok st
    ∧ unbind_all st1 net node (S (S k)) = Raise out_of_range.
Proof.
  intros Hw Hn.
  set (w1 := PerNodeData.set_bound_nets w
               (<[NetInfo.udata net := (1, u)]> (PerNodeData.bound_nets w))).
  set (wk := PerNodeData.set_bound_nets w
               (<[NetInfo.udata net := (Z.of_nat (S k), u)]> (PerNodeData.bound_nets w))).
  assert (Hbind : bind_all st net node (replicate (S k) u)
                  = Ok (set_node_data st node wk)).
  { unfold bind_all. cbn [replicate for_each].
    rewrite (bind_node_internal_first st net node u w Hw Hn).
    cbn [mbind result_bind].
    match goal with |- for_each _ _ ?s = _ => fold (bind_all s net node (replicate k u)) end.
    erewrite bind_all_bound;
      [ | eapply node_data_set_eq, Hw
        | rewrite bound_nets_set; apply lookup_insert_eq | lia ].
    replace (forallb (node_eq u) (replicate k u)) with true.
    - rewrite bound_nets_set, set_bound_nets_twice, set_node_data_twice, insert_insert_eq.
      rewrite length_replicate. unfold wk. do 5 f_equal. lia.
    - symmetry. clear. induction k as [|k IH]; simpl; [reflexivity|].
      rewrite node_eq_refl. exact IH. }
  assert (Hwk : node_data (set_node_data st node wk) node = Ok wk)
    by (eapply node_data_set_eq, Hw).
  assert (Hdown : unbind_all (set_node_data st node wk) net node k
                  = Ok (set_node_data st node w1)).
  { erewrite (unbind_all_bound k _ net node wk 1 u);
      [ | exact Hwk
        | unfold wk; rewrite bound_nets_set, lookup_insert_eq; do 2 f_equal; lia | lia ].
    unfold wk. rewrite bound_nets_set, set_bound_nets_twice, set_node_data_twice,
      insert_insert_eq. reflexivity. }
  assert (Hw1 : node_data (set_node_data st node w1) node = Ok w1)
    by (eapply node_data_set_eq, Hw).
  assert (Hlast : unbind_node_internal (set_node_data st node w1) net node = Ok st).
  { erewrite unbind_node_internal_bound;
      [ | exact Hw1 | unfold w1; rewrite bound_nets_set; apply lookup_insert_eq ].
    replace (1 - 1 =? 0) with true by reflexivity.
    unfold w1. rewrite bound_nets_set, set_bound_nets_twice, set_node_data_twice.
    rewrite delete_insert_id by exact Hn.
    rewrite set_bound_nets_id, set_node_data_id by exact Hw. reflexivity. }
  assert (Hall : unbind_all (set_node_data st node wk) net node (S k) = Ok st).
  { unfold unbind_all. rewrite replicate_snoc, for_each_app.
    fold (unbind_all (set_node_data st node wk) net node k). rewrite Hdown.
    cbn [mbind result_bind for_each]. rewrite Hlast. reflexivity. }
  exists (set_node_data st node wk). split; [exact Hbind|]. split.
  { unfold bound_at. rewrite Hwk. unfold wk. rewrite bound_nets_set.
    apply lookup_insert_eq. }
  split.
  { eexists. split; [exact Hdown|]. unfold bound_at. rewrite Hw1. unfold w1.
    rewrite bound_nets_set. apply lookup_insert_eq. }
  split; [exact Hall|].
  unfold unbind_all. rewrite replicate_snoc, for_each_app.
  fold (unbind_all (set_node_data st node wk) net node (S k)). rewrite Hall.
  cbn [mbind result_bind for_each].
  unfold unbind_node_internal, map_at. rewrite Hw. simpl. rewrite Hn. reflexivity.
Qed.

Lemma bind_all_unbind_all_witness :
  ∃ st1,
    bind_all ex_state ex_net n1 (replicate 3 n0) = Ok st1
    ∧ bound_at st1 n1 0 = Some (3, n0)
    ∧ (∃ st2, unbind_all st1 ex_net n1 2 = Ok st2 ∧ bound_at st2 n1 0 = Some (1, n0))
    ∧ unbind_all st1 ex_net n1 3 = Ok ex_state
    ∧ unbind_all st1 ex_net n1 4 = Raise out_of_range.
Proof.
  apply (bind_all_unbind_all ex_state ex_net n1 PerNodeData.init n0 2); reflexivity.
Defined.

(** ** Rip-up: repetition, errors, termination *)

Lemma ripup_loop_nets fuel : ∀ st net src cursor st',
  ripup_loop fuel st net src cursor = Ok st' → nets st' = nets st.
Proof.
  induction fuel as [|fuel IH]; intros st net src cursor st'; simpl.
  - destruct (node_ne cursor src); [intros [=] | intros [= <-]; reflexivity].
  - destruct (node_ne cursor src); [|intros [= <-]; reflexivity].
    destruct (node_data st cursor); simpl; [|intros [=]].
    destruct (map_at _ _); simpl; [|intros [=]].
    destruct (unbind_node_internal st net cursor) as [st1|] eqn:E; simpl; [|intros [=]].
    intros H. apply IH in H. rewrite H.
    apply unbind_node_internal_Ok_inv in E as (w & m & _ & _ & ->). reflexivity.
Qed.

(** X7.  A rip-up that returns leaves a state in which the rip-up of the
    same arc changes nothing, with any fuel: the arc is unrouted, so no
    use is taken off a node a second time. *)
Theorem ripup_arc_idempotent fuel st net user st' :
  ripup_arc fuel st net user = Ok st' →
  ∀ fuel', ripup_arc fuel' st' net user = Ok st'.
Proof.
  unfold ripup_arc at 1.
  destruct (vec_at (nets st) (NetInfo.udata net)) as [nd|] eqn:Hnd; simpl; [|intros [=]].
  destruct (vec_at (PerNetData.arcs nd) (Z.of_nat user)) as [ad|] eqn:Had; simpl;
    [|intros [=]].
  destruct (PerArcData.routed ad) eqn:Hr; simpl.
  - destruct (ripup_loop fuel st net _ _) as [st1|] eqn:Hloop; simpl; [|intros [=]].
    intros [= <-] fuel'.
    apply ripup_loop_nets in Hloop.
    apply vec_at_Ok in Hnd as [Hu Hnd], Had as [_ Had]. rewrite Nat2Z.id in Had.
    eapply ripup_arc_unrouted.
    + apply vec_at_Ok. split; [exact Hu|]. unfold set_arc_routed. simpl.
      rewrite list_lookup_alter_eq, Hloop, Hnd. reflexivity.
    + apply vec_at_Ok. split; [lia|]. rewrite Nat2Z.id. simpl.
      rewrite list_lookup_alter_eq, Had. reflexivity.
    + reflexivity.
  - intros [= <-] fuel'. eapply ripup_arc_unrouted; eassumption.
Qed.

Lemma ripup_arc_idempotent_witness :
  ripup_arc 2 ex_routed ex_net 0 = Ok ex_ripped
  ∧ ∀ fuel', ripup_arc fuel' ex_ripped ex_net 0 = Ok ex_ripped.
Proof.
  split; [reflexivity|].
  apply (ripup_arc_idempotent 2 ex_routed ex_net 0%nat ex_ripped). reflexivity.
Defined.

(** X8.  Rip-up ends in [out_of_range] when the net has no record, when
    the arc does not exist, and when the arc is flagged routed but the net
    is not bound at its sink, the sink being a node of the grid other than
    the driver: a routed flag without bindings is not cleared silently. *)
Theorem ripup_arc_errors fuel st net user :
  (is_Raise (vec_at (nets st) (NetInfo.udata net)) →
     ripup_arc fuel st net user = Raise out_of_range)
  ∧ (∀ nd, vec_at (nets st) (NetInfo.udata net) = Ok nd →
       (length (PerNetData.arcs nd) ≤ user)%nat →
       ripup_arc fuel st net user = Raise out_of_range)
  ∧ (∀ nd ad w, vec_at (nets st) (NetInfo.udata net) = Ok nd →
       vec_at (PerNetData.arcs nd) (Z.of_nat user) = Ok ad →
       PerArcData.routed ad = true →
       PerArcData.sink_node ad ≠ PerNetData.src_node nd →
       node_data st (PerArcData.sink_node ad) = Ok w →
       PerNodeData.bound_nets w !! NetInfo.udata net = None →
       ripup_arc (S fuel) st net user = Raise out_of_range).
Proof.
  split; [|split].
  - unfold ripup_arc, vec_at. case_bool_decide; [|reflexivity].
    destruct (nets st !! _); [intros [] | reflexivity].
  - intros nd Hnd Hlen. unfold ripup_arc. rewrite Hnd. simpl.
    unfold vec_at. case_bool_decide; [|reflexivity].
    rewrite Nat2Z.id, lookup_ge_None_2 by exact Hlen. reflexivity.
  - intros nd ad w Hnd Had Hr Hne Hw Hn. unfold ripup_arc.
    rewrite Hnd. simpl. rewrite Had. simpl. rewrite Hr. simpl.
    apply node_ne_true in Hne. rewrite Hne, Hw. simpl.
    unfold map_at. rewrite Hn. reflexivity.
Qed.

(** The example with the arc flagged routed and nothing bound. *)
Lemma ripup_arc_errors_witness :
  ripup_arc 5 (set_nets ex_state [ex_netdata true]) ex_net 3 = Raise out_of_range
  ∧ ripup_arc 5 (set_nets ex_state [ex_netdata true]) ex_net 0 = Raise out_of_range.
Proof.
  destruct (ripup_arc_errors 5 (set_nets ex_state [ex_netdata true]) ex_net 3)
    as (_ & H2 & _).
  destruct (ripup_arc_errors 4 (set_nets ex_state [ex_netdata true]) ex_net 0)
    as (_ & _ & H3).
  split.
  - apply (H2 (ex_netdata true)); [reflexivity | simpl; lia].
  - apply (H3 (ex_netdata true) (PerArcData.mk n2 (ArcBounds.mk 0 0 2 0) true)
             PerNodeData.init); try reflexivity. discriminate.
Defined.

Lemma sum_list_with_insert {A} (g : A → nat) (l : list A) (i : nat) (x y : A) :
  l !! i = Some x →
  (sum_list_with g (<[i:=y]> l) + g x = sum_list_with g l + g y)%nat.
Proof.
  revert i. induction l as [|a l IH]; intros [|i] H; simpl in *; try discriminate.
  - injection H as ->. lia.
  - specialize (IH i H). lia.
Qed.

Lemma sum_list_with_alter {A} (g : A → nat) (f : A → A) (l : list A) (i : nat) (x : A) :
  l !! i = Some x →
  (sum_list_with g (alter f i l) + g x = sum_list_with g l + g (f x))%nat.
Proof.
  revert i. induction l as [|a l IH]; intros [|i] H; try discriminate.
  - injection H as ->. change (alter f 0%nat (x :: l)) with (f x :: l). simpl. lia.
  - specialize (IH i H). change (alter f (S i) (a :: l)) with (a :: alter f i l).
    simpl. lia.
Qed.

Lemma total_uses_set st n w w' uid :
  node_data st n = Ok w →
  (total_uses (set_node_data st n w') uid + uses_of uid w
   = total_uses st uid + uses_of uid w')%nat.
Proof.
  intros Hw. apply node_data_Ok in Hw as (_ & _ & row & Hrow & Hcol).
  unfold total_uses, set_node_data. simpl. fold (row_of st n).
  pose proof (sum_list_with_alter (sum_list_with (uses_of uid))
                (λ row, <[Z.to_nat (ChannelNode.type n) := w']> row)
                (nodes st) (row_of st n) row Hrow) as H1.
  pose proof (sum_list_with_insert (uses_of uid) row
                (Z.to_nat (ChannelNode.type n)) w w' Hcol) as H2.
  simpl in H1. lia.
Qed.

Lemma uses_positive_set st n w' uid :
  uses_positive st uid →
  (∀ b, PerNodeData.bound_nets w' !! uid = Some b → 0 < b.1) →
  uses_positive (set_node_data st n w') uid.
Proof.
  intros Hpos Hw'. unfold uses_positive, set_node_data. simpl.
  apply Forall_alter; [exact Hpos|].
  intros row _ Hrow. apply Forall_insert; assumption.
Qed.

Lemma uses_positive_lookup st n w uid b :
  uses_positive st uid → node_data st n = Ok w →
  PerNodeData.bound_nets w !! uid = Some b → 0 < b.1.
Proof.
  intros Hpos Hw Hb. apply node_data_Ok in Hw as (_ & _ & row & Hrow & Hcol).
  unfold uses_positive in Hpos.
  rewrite Forall_lookup in Hpos. specialize (Hpos _ _ Hrow).
  rewrite Forall_lookup in Hpos. exact (Hpos _ _ Hcol b Hb).
Qed.

Lemma node_data_not_out_of_fuel st n : node_data st n ≠ Raise out_of_fuel.
Proof.
  unfold node_data, NPNR_ASSERT, vec_at.
  repeat (case_match || case_bool_decide || simpl); discriminate.
Qed.

Lemma ripup_loop_terminates fuel : ∀ st net src cursor,
  uses_positive st (NetInfo.udata net) →
  (total_uses st (NetInfo.udata net) < fuel)%nat →
  ripup_loop fuel st net src cursor ≠ Raise out_of_fuel.
Proof.
  induction fuel as [|fuel IH]; intros st net src cursor Hpos Hfuel; [lia|].
  simpl. destruct (node_ne cursor src); [|discriminate].
  destruct (node_data st cursor) as [w|e] eqn:Hw; simpl.
  2:{ intros [= ->]. exact (node_data_not_out_of_fuel st cursor Hw). }
  unfold map_at.
  destruct (PerNodeData.bound_nets w !! NetInfo.udata net) as [[c u]|] eqn:Hb; simpl;
    [|discriminate].
  rewrite (unbind_node_internal_bound st net cursor w c u Hw Hb). simpl.
  pose proof (uses_positive_lookup st cursor w _ _ Hpos Hw Hb) as Hc. simpl in Hc.
  pose proof (total_uses_set st cursor w (unbound w (NetInfo.udata net) c u)
                (NetInfo.udata net) Hw) as Hsum.
  assert (Huw : uses_of (NetInfo.udata net) w = Z.to_nat c)
    by (unfold uses_of; rewrite Hb; reflexivity).
  fold (unbound w (NetInfo.udata net) c u).
  apply IH.
  - apply uses_positive_set; [exact Hpos|].
    intros b. unfold unbound. rewrite bound_nets_set.
    destruct (Z.eqb_spec (c - 1) 0).
    + rewrite lookup_delete_eq. discriminate.
    + rewrite lookup_insert_eq. intros [= <-]. simpl. lia.
  - assert (Huw' : (uses_of (NetInfo.udata net) (unbound w (NetInfo.udata net) c u)
                    = Z.to_nat c - 1)%nat).
    { unfold uses_of, unbound. rewrite bound_nets_set.
      destruct (Z.eqb_spec (c - 1) 0).
      - rewrite lookup_delete_eq. lia.
      - rewrite lookup_insert_eq. simpl. lia. }
    lia.
Qed.

(** X9.  Rip-up comes to an end.  In a state in which every use count
    that the net has stored is positive, a fuel above the sum of these
    counts is never used up: each round of the loop takes one use off, so
    the loop returns or throws, also when the uphill links run in a
    circle that misses the driver. *)
Theorem ripup_arc_terminates fuel st net user :
  uses_positive st (NetInfo.udata net) →
  (total_uses st (NetInfo.udata net) < fuel)%nat →
  ripup_arc fuel st net user ≠ Raise out_of_fuel.
Proof.
  intros Hpos Hfuel. unfold ripup_arc.
  destruct (vec_at (nets st) _) as [nd|] eqn:Hnd; simpl.
  2:{ unfold vec_at in Hnd. repeat (case_match || case_bool_decide); congruence. }
  destruct (vec_at (PerNetData.arcs nd) _) as [ad|] eqn:Had; simpl.
  2:{ unfold vec_at in Had. repeat (case_match || case_bool_decide); congruence. }
  destruct (PerArcData.routed ad); simpl; [|discriminate].
  pose proof (ripup_loop_terminates fuel st net (PerNetData.src_node nd)
                (PerArcData.sink_node ad) Hpos Hfuel) as Hloop.
  destruct (ripup_loop fuel st net _ _); simpl; [discriminate | congruence].
Qed.

Lemma ripup_arc_terminates_witness :
  ripup_arc 3 ex_circle ex_net 0 ≠ Raise out_of_fuel.
Proof.
  apply (ripup_arc_terminates 3 ex_circle ex_net 0).
  - unfold uses_positive. simpl.
    repeat constructor; intros b; vm_compute; intros [= <-]; reflexivity.
  - vm_compute. lia.
Defined.

Example ripup_arc_circle : ripup_arc 3 ex_circle ex_net 0 = Raise out_of_range.
Proof. vm_compute. reflexivity. Qed.

(** ** Present cost and the net's own use *)

Lemma present_node_cost_delete st w t uid :
  present_node_cost st w t uid
  = present_node_cost st
      (PerNodeData.set_bound_nets w (delete uid (PerNodeData.bound_nets w))) t uid.
Proof.
  unfold present_node_cost. rewrite bound_nets_set.
  destruct (vec_at (channel_types st) t) as [c|]; simpl; [|reflexivity].
  rewrite !map_count_is_Some, lookup_delete_eq, map_size_delete.
  destruct (PerNodeData.bound_nets w !! uid) as [b|] eqn:Hb.
  - assert (size (PerNodeData.bound_nets w) ≠ O)
      by (eapply map_size_ne_0_lookup_2; eauto).
    rewrite bool_decide_eq_true_2 by eauto.
    rewrite (bool_decide_eq_false_2 (is_Some None)) by (intros [? [=]]).
    replace (Z.of_nat (size (PerNodeData.bound_nets w)) - (Channel.width c - 1) - 1)
      with (Z.of_nat (Init.Nat.pred (size (PerNodeData.bound_nets w)))
            - (Channel.width c - 1)) by lia.
    reflexivity.
  - reflexivity.
Qed.

Lemma present_node_cost_state st st' w t uid :
  channel_types st' = channel_types st →
  curr_cong_weight st' = curr_cong_weight st →
  present_node_cost st' w t uid = present_node_cost st w t uid.
Proof. intros H1 H2. unfold present_node_cost. rewrite H1, H2. reflexivity. Qed.

(** X10.  The present cost that a net sees at a node does not count the
    net itself: it is the same before and after a bind of the net at the
    node, and before and after an unbind, for every channel type. *)
Theorem present_node_cost_own_use st net node uphill w t :
  node_data st node = Ok w →
  (∀ st' w', bind_node_internal st net node uphill = Ok st' →
             node_data st' node = Ok w' →
             present_node_cost st' w' t (NetInfo.udata net)
             = present_node_cost st w t (NetInfo.udata net))
  ∧ (∀ st' w', unbind_node_internal st net node = Ok st' →
               node_data st' node = Ok w' →
               present_node_cost st' w' t (NetInfo.udata net)
               = present_node_cost st w t (NetInfo.udata net)).
Proof.
  intros Hw. split; intros st' w' Hop Hw'.
  - apply bind_node_internal_Ok_inv in Hop as (w0 & b & Hw0 & ->).
    rewrite Hw in Hw0. injection Hw0 as <-.
    erewrite node_data_set_eq in Hw' by exact Hw. injection Hw' as <-.
    rewrite (present_node_cost_state st) by reflexivity.
    rewrite (present_node_cost_delete st w), (present_node_cost_delete st (PerNodeData.set_bound_nets _ _)).
    rewrite bound_nets_set, set_bound_nets_twice, delete_insert_eq. reflexivity.
  - unfold unbind_node_internal in Hop. rewrite Hw in Hop. simpl in Hop.
    destruct (map_at _ _) as [b|]; simpl in Hop; [|discriminate].
    rewrite (present_node_cost_delete st w).
    destruct (_ =? 0); injection Hop as <-;
      erewrite node_data_set_eq in Hw' by exact Hw; injection Hw' as <-;
      rewrite (present_node_cost_state st) by reflexivity;
      rewrite (present_node_cost_delete st (PerNodeData.set_bound_nets _ _));
      rewrite bound_nets_set, set_bound_nets_twice.
    + rewrite delete_delete_eq. reflexivity.
    + rewrite delete_insert_eq. reflexivity.
Qed.

Lemma present_node_cost_own_use_witness :
  ∃ st' w', bind_node_internal ex_state ex_net n1 n0 = Ok st'
            ∧ node_data st' n1 = Ok w'
            ∧ present_node_cost st' w' 0 0
              = present_node_cost ex_state PerNodeData.init 0 0.
Proof.
  eexists _, _. split; [reflexivity|]. split; [reflexivity|].
  apply (proj1 (present_node_cost_own_use ex_state ex_net n1 n0 PerNodeData.init 0
                  eq_refl)); reflexivity.
Defined.

(** X11.  A node within its capacity is free: the present cost is 1 for
    a net that is bound at a node holding no more nets than the width of
    its channel type, and for any net at a node holding fewer. *)
Theorem present_node_cost_within_capacity st w t uid c :
  vec_at (channel_types st) t = Ok c →
  (is_Some (PerNodeData.bound_nets w !! uid) →
     Z.of_nat (size (PerNodeData.bound_nets w)) ≤ Channel.width c →
     present_node_cost st w t uid = Ok F32.one)
  ∧ (Z.of_nat (size (PerNodeData.bound_nets w)) < Channel.width c →
       present_node_cost st w t uid = Ok F32.one).
Proof.
  intros Hc. unfold present_node_cost. rewrite Hc. simpl.
  rewrite map_count_is_Some. split.
  - intros Hb Hsz. rewrite bool_decide_eq_true_2 by exact Hb.
    destruct (Z.leb_spec
                (Z.of_nat (size (PerNodeData.bound_nets w)) - (Channel.width c - 1) - 1) 0);
      [reflexivity | lia].
  - intros Hsz. case_bool_decide.
    + destruct (Z.leb_spec
                  (Z.of_nat (size (PerNodeData.bound_nets w)) - (Channel.width c - 1) - 1) 0);
        [reflexivity | lia].
    + destruct (Z.leb_spec
                  (Z.of_nat (size (PerNodeData.bound_nets w)) - (Channel.width c - 1)) 0);
        [reflexivity | lia].
Qed.

Lemma present_node_cost_within_capacity_witness :
  present_node_cost ex_routed (ex_bound n0) 0 0 = Ok F32.one
  ∧ present_node_cost ex_routed PerNodeData.init 0 3 = Ok F32.one.
Proof.
  destruct (present_node_cost_within_capacity ex_routed (ex_bound n0) 0 0 ex_channel
              eq_refl) as [H1 _].
  destruct (present_node_cost_within_capacity ex_routed PerNodeData.init 0 3 ex_channel
              eq_refl) as [_ H2].
  split.
  - apply H1; [exists (1, n0); reflexivity | vm_compute; intros [=]].
  - apply H2. vm_compute. reflexivity.
Defined.

(** ** The order of the queue *)

Lemma SFcompare_antisym (a b : float) :
  SFcompare b a = CompOpp <$> SFcompare a b.
Proof.
  destruct a as [sa|sa| |sa ma ea], b as [sb|sb| |sb mb eb]; simpl;
    try destruct sa; try destruct sb; try reflexivity;
    rewrite (Z.compare_antisym ea eb);
    destruct (ea ?= eb); simpl; try reflexivity;
    change (Pos.compare_cont Eq mb ma) with (Pos.compare mb ma);
    change (Pos.compare_cont Eq ma mb) with (Pos.compare ma mb);
    rewrite (Pos.compare_antisym ma mb);
    destruct (Pos.compare ma mb); reflexivity.
Qed.

(** X12.  [Greater] is a strict comparison: no entry is ordered after
    itself, two entries are never ordered after each other, and an entry
    whose total is not a number is ordered neither after nor before any
    entry. *)
Theorem Greater_strict (a b : QueuedNode.t) :
  QueuedNode.Greater a a = false
  ∧ (QueuedNode.Greater a b = true → QueuedNode.Greater b a = false)
  ∧ (NodeScore.total (QueuedNode.score a) = S754_nan →
       QueuedNode.Greater a b = false ∧ QueuedNode.Greater b a = false).
Proof.
  unfold QueuedNode.Greater, NodeScore.total, F32.eqb, F32.gtb, SFeqb, SFltb.
  set (ta := F32.add _ (NodeScore.togo_cost (QueuedNode.score a))).
  set (tb := F32.add _ (NodeScore.togo_cost (QueuedNode.score b))).
  split; [|split].
  - destruct (SFcompare ta ta) as [[| |]|] eqn:E; try reflexivity.
    + lia.
    + pose proof (SFcompare_antisym ta ta) as H. rewrite E in H. discriminate.
  - rewrite (SFcompare_antisym ta tb).
    destruct (SFcompare ta tb) as [[| |]|]; simpl; try discriminate; try reflexivity.
    lia.
  - intros ->. destruct tb; simpl; auto.
Qed.

Lemma Greater_strict_witness :
  let a := ex_entry n1 (F32.of_int 1) (F32.of_int 2) 4 in
  let b := ex_entry n2 (F32.of_int 1) (F32.of_int 1) 9 in
  QueuedNode.Greater a b = true ∧ QueuedNode.Greater b a = false.
Proof.
  intros a b. split; [reflexivity|].
  apply (proj1 (proj2 (Greater_strict a b))). reflexivity.
Defined.

(** X13.  Best first: of two entries the one with the smaller total is
    on top of the queue, whatever the random tags and whichever was pushed
    first. *)
Theorem Greater_smaller_total_first (a b : QueuedNode.t) :
  F32.gtb (NodeScore.total (QueuedNode.score b)) (NodeScore.total (QueuedNode.score a))
  = true →
  QueuedNode.Greater b a = true
  ∧ QueuedNode.Greater a b = false
  ∧ pq_top QueuedNode.Greater a [b] = a
  ∧ pq_top QueuedNode.Greater b [a] = a.
Proof.
  unfold NodeScore.total, F32.gtb, SFltb. intros Hlt.
  assert (Hba : QueuedNode.Greater b a = true).
  { unfold QueuedNode.Greater, F32.eqb, F32.gtb, SFeqb, SFltb.
    rewrite (SFcompare_antisym (F32.add (NodeScore.cost (QueuedNode.score a)) _)).
    destruct (SFcompare (F32.add (NodeScore.cost (QueuedNode.score a)) _) _)
      as [[| |]|]; simpl; try discriminate; reflexivity. }
  assert (Hab : QueuedNode.Greater a b = false).
  { unfold QueuedNode.Greater, F32.eqb, F32.gtb, SFeqb, SFltb.
    rewrite (SFcompare_antisym (F32.add (NodeScore.cost (QueuedNode.score a)) _)).
    destruct (SFcompare (F32.add (NodeScore.cost (QueuedNode.score a)) _) _)
      as [[| |]|]; simpl; try discriminate; reflexivity. }
  simpl. rewrite Hba, Hab. auto.
Qed.

Lemma Greater_smaller_total_first_witness :
  let a := ex_entry n1 (F32.of_int 1) (F32.of_int 1) 9 in
  let b := ex_entry n2 (F32.of_int 1) (F32.of_int 2) 4 in
  QueuedNode.Greater b a = true
  ∧ QueuedNode.Greater a b = false
  ∧ pq_top QueuedNode.Greater a [b] = a
  ∧ pq_top QueuedNode.Greater b [a] = a.
Proof.
  intros a b. apply (Greater_smaller_total_first a b). reflexivity.
Defined.

(** ** Graph set-up: what a set-up that returns has met and built *)

Lemma row_offset_nonzero W d along : 0 < W → along ≠ 0 → row_offset W d along ≠ 0.
Proof. intros HW Ha. destruct d; simpl; nia. Qed.

Lemma setup_nodes_raises_along st t c dh :
  let W := ChannelGraph.get_width (g st) in
  let H := ChannelGraph.get_height (g st) in
  let types := ChannelGraph.get_channels (g st) in
  0 < W → 0 < H →
  vec_at types t = Ok c → dh ∈ Channel.downhill c →
  (Downhill.src_along dh ≠ 0
   ∨ ∃ d, vec_at types (Downhill.dst_type dh) = Ok d ∧ Downhill.dst_along dh ≠ 0) →
  is_Raise (setup_nodes st).
Proof.
  intros W H types HW HH Hc Hdh Halong.
  assert (HWH : 0 ≤ W * H) by nia.
  assert (∃ off, off ≠ 0 ∧
            ∀ x' y' s, grid_shape W H types s →
              (let i := y' * W + x' + off in i < 0 ∨ W * H ≤ i) →
              is_Raise (add_downhill x' y' t c dh s))
    as (off & Hoff & Hbad).
  { destruct Halong as [Hsrc | (d & Hd & Hdst)].
    - exists (row_offset W (Channel.dir c) (Downhill.src_along dh)). split.
      + apply row_offset_nonzero; assumption.
      + intros x' y' s Hs Hi. eapply add_downhill_raises_src; eassumption.
    - exists (row_offset W (Channel.dir d) (Downhill.dst_along dh)). split.
      + apply row_offset_nonzero; assumption.
      + intros x' y' s Hs Hi. eapply add_downhill_raises_dst; eassumption. }
  destruct (failing_cell_in_grid W H off HW HH) as [Hfx Hfy].
  pose proof (failing_cell_row W H off HW HH Hoff) as Hrow.
  destruct (failing_cell W H off) as [fx fy]. simpl in Hfx, Hfy, Hrow.
  apply (setup_nodes_raises_at st fx fy t c dh); try assumption.
  intros s Hs. apply Hbad; [exact Hs | exact Hrow].
Qed.

Lemma setup_nodes_raises_assert st t c dh :
  let W := ChannelGraph.get_width (g st) in
  let H := ChannelGraph.get_height (g st) in
  let types := ChannelGraph.get_channels (g st) in
  0 < W → 0 < H →
  vec_at types t = Ok c → dh ∈ Channel.downhill c →
  (Channel.length c < Downhill.src_along dh
   ∨ ∃ d, vec_at types (Downhill.dst_type dh) = Ok d
          ∧ Channel.length d < Downhill.dst_along dh) →
  is_Raise (setup_nodes st).
Proof.
  intros W H types HW HH Hc Hdh Hlen.
  apply (setup_nodes_raises_at st 0 0 t c dh); try assumption.
  - apply elem_of_seqZ. lia.
  - apply elem_of_seqZ. lia.
  - intros s (_ & _ & Ht & _). unfold add_downhill, NPNR_ASSERT.
    destruct Hlen as [Hsrc | (d & Hd & Hdst)].
    + destruct (Z.leb_spec (Downhill.src_along dh) (Channel.length c)); [lia|].
      exact I.
    + destruct (Downhill.src_along dh <=? Channel.length c); simpl; [|exact I].
      destruct (displace _ _ _ _). rewrite Ht. fold types. rewrite Hd. simpl.
      destruct (Z.leb_spec (Downhill.dst_along dh) (Channel.length d)); [lia|].
      exact I.
Qed.

(** X14.  On a grid that has a cell, a set-up that returns has met only
    junction templates that stay on their cell: each template of each
    channel type has [src_along = 0] and [dst_along = 0], names a channel
    type that exists, and both channel lengths are at least 0.  A
    template that joins two different cells ends the set-up by an
    exception, because the row index of its source or destination leaves
    the rows at the first or at the last cell. *)
Theorem setup_nodes_Ok_templates st st' t c dh :
  let W := ChannelGraph.get_width (g st) in
  let H := ChannelGraph.get_height (g st) in
  let types := ChannelGraph.get_channels (g st) in
  setup_nodes st = Ok st' →
  0 < W → 0 < H →
  vec_at types t = Ok c → dh ∈ Channel.downhill c →
  Downhill.src_along dh = 0 ∧ 0 ≤ Channel.length c
  ∧ ∃ d, vec_at types (Downhill.dst_type dh) = Ok d
         ∧ Downhill.dst_along dh = 0 ∧ 0 ≤ Channel.length d.
Proof.
  intros W H types Hok HW HH Hc Hdh.
  assert (Hno : ¬ is_Raise (setup_nodes st)) by (rewrite Hok; intros []).
  destruct (vec_at types (Downhill.dst_type dh)) as [d|e] eqn:Hd.
  2:{ exfalso. apply Hno.
      exact (setup_nodes_raises_missing_type st t c dh e HW HH Hc Hdh Hd). }
  destruct (Z.eq_dec (Downhill.src_along dh) 0) as [Hs|Hs].
  2:{ exfalso. apply Hno.
      apply (setup_nodes_raises_along st t c dh HW HH Hc Hdh). left. exact Hs. }
  destruct (Z.eq_dec (Downhill.dst_along dh) 0) as [Hds|Hds].
  2:{ exfalso. apply Hno.
      apply (setup_nodes_raises_along st t c dh HW HH Hc Hdh). right. eauto. }
  split; [exact Hs|]. split.
  - destruct (Z.le_gt_cases 0 (Channel.length c)) as [|Hlt]; [assumption|].
    exfalso. apply Hno.
    apply (setup_nodes_raises_assert st t c dh HW HH Hc Hdh). left. lia.
  - exists d. split; [reflexivity|]. split; [exact Hds|].
    destruct (Z.le_gt_cases 0 (Channel.length d)) as [|Hlt]; [assumption|].
    exfalso. apply Hno.
    apply (setup_nodes_raises_assert st t c dh HW HH Hc Hdh). right. exists d.
    split; [exact Hd | lia].
Qed.

Lemma setup_nodes_Ok_templates_witness :
  ∃ st', setup_nodes ex_loop_state = Ok st'
    ∧ Downhill.src_along (Downhill.mk 0 0 0) = 0
    ∧ 0 ≤ 1
    ∧ ∃ d, vec_at [Channel.mk DIR_EAST 1 F32.one 1 [Downhill.mk 0 0 0]] 0 = Ok d
           ∧ Downhill.dst_along (Downhill.mk 0 0 0) = 0 ∧ 0 ≤ Channel.length d.
Proof.
  eexists. split; [vm_compute; reflexivity|].
  eapply (setup_nodes_Ok_templates ex_loop_state _ 0
            (Channel.mk DIR_EAST 1 F32.one 1 [Downhill.mk 0 0 0]) (Downhill.mk 0 0 0)).
  - vm_compute. reflexivity.
  - simpl. lia.
  - simpl. lia.
  - reflexivity.
  - simpl. apply list_elem_of_here.
Defined.

Section for_each_more.
Context {A S : Type} (Inv Q : S → Prop) (body : A → S → result S).

Lemma for_each_establishes (l : list A) (a : A) :
  a ∈ l →
  (∀ a' s s', Inv s → body a' s = Ok s' → Inv s') →
  (∀ s s', Inv s → body a s = Ok s' → Q s') →
  (∀ a' s s', Inv s → Q s → body a' s = Ok s' → Q s') →
  ∀ s s', Inv s → for_each body l s = Ok s' → Q s'.
Proof.
  intros Ha Hinv Hest Hkeep.
  induction l as [|a0 l IH]; intros s s' Hs H; [inversion Ha|].
  simpl in H. destruct (body a0 s) as [s1|] eqn:E; [|discriminate]. simpl in H.
  pose proof (Hinv _ _ _ Hs E) as Hs1.
  apply elem_of_cons in Ha as [-> | Ha].
  - pose proof (Hest _ _ Hs E) as Hq1.
    cut (Inv s' ∧ Q s'); [tauto|].
    eapply (for_each_inv (λ s, Inv s ∧ Q s) body l); [ | | exact H]; [|tauto].
    intros a' t t' _ [Ht1 Ht2] Ht. split; eauto.
  - eapply IH; eassumption.
Qed.

Lemma for_each_returns (l : list A) :
  (∀ a s, a ∈ l → Inv s → ∃ s', body a s = Ok s' ∧ Inv s') →
  ∀ s, Inv s → ∃ s', for_each body l s = Ok s' ∧ Inv s'.
Proof.
  induction l as [|a l IH]; intros Hbody s Hs.
  - exists s. split; [reflexivity | exact Hs].
  - destruct (Hbody a s (list_elem_of_here _ _) Hs) as (s1 & E & Hs1).
    destruct (IH (λ a' t Ha', Hbody a' t (list_elem_of_further _ _ _ Ha')) s1 Hs1)
      as (s' & H & Hs').
    exists s'. split; [|exact Hs']. simpl. rewrite E. exact H.
Qed.
End for_each_more.

Lemma resize_cell_row_full W H types x y s s' idx :
  grid_shape W H types s → resize_cell x y s = Ok s' →
  (idx = Z.to_nat (y * W + x) ∨ row_full idx (length types) s) →
  row_full idx (length types) s'.
Proof.
  intros (Hw & Hh & Ht & Hl). unfold resize_cell.
  destruct (vec_at (nodes s) _); simpl; [|intros [=]].
  intros [= <-] Hidx row. simpl. rewrite Hw, Ht.
  destruct (decide (Z.to_nat (y * W + x) = idx)) as [<- | Hne].
  - rewrite list_lookup_alter_eq.
    destruct (nodes s !! _); simpl; [|discriminate].
    intros [= <-]. apply length_resize.
  - rewrite list_lookup_alter_ne by exact Hne.
    destruct Hidx as [-> | Hfull]; [contradiction | apply Hfull].
Qed.

Lemma resize_cells_rows_full W H types s s' :
  0 < W → 0 < H →
  grid_shape W H types s →
  for_each (λ y, for_each (λ x, resize_cell x y) (seqZ 0 W)) (seqZ 0 H) s = Ok s' →
  grid_shape W H types s' ∧ rows_full s'.
Proof.
  intros HW HH Hs Hloop.
  assert (Hs' : grid_shape W H types s').
  { eapply (cells_shape W H types (λ x y, resize_cell x y)); [ | exact Hs | exact Hloop].
    intros x y t t'. apply resize_cell_shape. }
  split; [exact Hs'|].
  destruct Hs' as (Hw' & Hh' & Ht' & Hl').
  unfold rows_full. rewrite Ht'. apply Forall_lookup. intros idx row Hrow.
  assert (Hidx : (idx < Z.to_nat (W * H))%nat)
    by (rewrite <- Hl'; eapply lookup_lt_Some, Hrow).
  set (y0 := Z.of_nat idx / W). set (x0 := Z.of_nat idx mod W).
  assert (Hx0 : 0 ≤ x0 < W) by (apply Z.mod_pos_bound; lia).
  assert (Hdiv : Z.of_nat idx = W * y0 + x0) by (apply Z.div_mod; lia).
  assert (Hy0 : 0 ≤ y0 < H) by (unfold y0; split;
    [apply Z.div_pos; lia | apply Z.div_lt_upper_bound; lia]).
  assert (Hi : idx = Z.to_nat (y0 * W + x0)) by lia.
  revert row Hrow. change (row_full idx (length types) s').
  eapply (for_each_establishes (grid_shape W H types) (row_full idx (length types))
            _ (seqZ 0 H) y0); [ | | | | exact Hs | exact Hloop].
  - apply elem_of_seqZ. lia.
  - intros y t t'. apply for_each_inv. intros x u u' _. apply resize_cell_shape.
  - intros t t'.
    apply (for_each_establishes (grid_shape W H types) (row_full idx (length types))
             _ (seqZ 0 W) x0).
    + apply elem_of_seqZ. lia.
    + intros x u u'. apply resize_cell_shape.
    + intros u u' Hu E. eapply resize_cell_row_full; [exact Hu | exact E | left; exact Hi].
    + intros x u u' Hu Hq E. eapply resize_cell_row_full; [exact Hu | exact E | right; exact Hq].
  - intros y t t' Ht Hq E.
    cut (grid_shape W H types t' ∧ row_full idx (length types) t'); [tauto|].
    eapply (for_each_inv (λ s, grid_shape W H types s ∧ row_full idx (length types) s)
              _ (seqZ 0 W)); [ | | exact E]; [|tauto].
    intros x u u' _ [Hu1 Hu2] E'. split.
    + eapply resize_cell_shape; eassumption.
    + eapply resize_cell_row_full; [exact Hu1 | exact E' | right; exact Hu2].
Qed.

Lemma alter_slot_rows_full st row col f :
  rows_full st → rows_full (alter_slot st row col f).
Proof.
  unfold rows_full, alter_slot. simpl. intros Hf.
  apply Forall_alter; [exact Hf|]. intros r _ Hr. rewrite length_alter. exact Hr.
Qed.

Lemma add_downhill_rows_full x y t c dh st st' :
  rows_full st → add_downhill x y t c dh st = Ok st' → rows_full st'.
Proof.
  intros Hs. unfold add_downhill. bind_cases.
  intros [= Heq]. subst st'. apply alter_slot_rows_full, alter_slot_rows_full, Hs.
Qed.

Lemma add_channel_type_full W H types x y t st st' :
  grid_full W H types st → add_channel_type x y t st = Ok st' →
  grid_full W H types st'.
Proof.
  intros Hs. unfold add_channel_type.
  destruct (vec_at (channel_types st) t) as [c|]; simpl; [|intros [=]].
  apply for_each_inv; [|exact Hs].
  intros dh s s' _ [H1 H2] E. split.
  - eapply add_downhill_shape; eassumption.
  - eapply add_downhill_rows_full; eassumption.
Qed.

Lemma setup_nodes_Ok_full st st' :
  let W := ChannelGraph.get_width (g st) in
  let H := ChannelGraph.get_height (g st) in
  let types := ChannelGraph.get_channels (g st) in
  setup_nodes st = Ok st' →
  grid_shape W H types st' ∧ (0 < W → 0 < H → rows_full st').
Proof.
  intros W H types. unfold setup_nodes. simpl. fold W H types.
  destruct (Z.ltb_spec (W * H) 0) as [|HWH]; [intros [=]|].
  match goal with
  | |- (?m ≫= _) = _ → _ => destruct m as [st2|] eqn:Hfirst; simpl; [|intros [=]]
  end.
  assert (Hs1 : grid_shape W H types
            (set_channel_types
               (set_nodes (set_dims st W H) (resize (Z.to_nat (W * H)) [] (nodes st)))
               types))
    by (unfold grid_shape; simpl; rewrite length_resize; auto).
  assert (Hs2 : grid_shape W H types st2).
  { eapply (cells_shape W H types (λ x y, resize_cell x y)); [ | exact Hs1 | exact Hfirst].
    intros x y t t'. apply resize_cell_shape. }
  pose proof Hs2 as (Hw2 & Hh2 & Ht2 & Hl2).
  rewrite Hw2, Hh2, Ht2. intros Hloop. split.
  - eapply (for_each_inv (grid_shape W H types)); [ | exact Hs2 | exact Hloop].
    intros y s s' _. apply for_each_inv. intros x u u' _.
    apply for_each_inv. intros t v v' _. apply add_channel_type_shape.
  - intros HW HH.
    destruct (resize_cells_rows_full W H types _ _ HW HH Hs1 Hfirst) as [_ Hf2].
    cut (grid_full W H types st'); [intros [_ Hf]; exact Hf|].
    eapply (for_each_inv (grid_full W H types)); [ | | exact Hloop].
    + intros y s s' _. apply for_each_inv. intros x u u' _.
      apply for_each_inv. intros t v v' _. apply add_channel_type_full.
    + split; assumption.
Qed.

(** X15.  After a set-up that returns, the state has the dimensions and
    the channel types of the graph, and [node_data] finds a node exactly
    when the node is a cell of the grid with a channel type that exists:
    every such slot was made, and no look-up can reach another one. *)
Theorem setup_nodes_node_data st st' :
  setup_nodes st = Ok st' →
  width st' = ChannelGraph.get_width (g st)
  ∧ height st' = ChannelGraph.get_height (g st)
  ∧ channel_types st' = ChannelGraph.get_channels (g st)
  ∧ ∀ n, (∃ w, node_data st' n = Ok w)
         ↔ (0 ≤ ChannelNode.x n < ChannelGraph.get_width (g st)
            ∧ 0 ≤ ChannelNode.y n < ChannelGraph.get_height (g st)
            ∧ 0 ≤ ChannelNode.type n
                < Z.of_nat (length (ChannelGraph.get_channels (g st)))).
Proof.
  intros Hok. apply setup_nodes_Ok_full in Hok as [(Hw & Hh & Ht & Hl) Hfull].
  repeat (split; [assumption|]). intros n. split.
  - intros [w Hn]. apply node_data_Ok in Hn as (Hg & Hty & row & Hrow & Hcol).
    unfold in_grid in Hg. rewrite Hw, Hh in Hg.
    specialize (Hfull ltac:(lia) ltac:(lia)).
    unfold rows_full in Hfull. rewrite Forall_lookup in Hfull.
    specialize (Hfull _ _ Hrow). rewrite Ht in Hfull.
    apply lookup_lt_Some in Hcol. lia.
  - intros (Hx & Hy & Hty).
    specialize (Hfull ltac:(lia) ltac:(lia)).
    assert (Hr : is_Some (nodes st' !! row_of st' n)).
    { apply lookup_lt_is_Some_2. rewrite Hl. unfold row_of. rewrite Hw. nia. }
    destruct Hr as [row Hrow].
    unfold rows_full in Hfull. rewrite Forall_lookup in Hfull.
    pose proof (Hfull _ _ Hrow) as Hlen. rewrite Ht in Hlen.
    assert (Hc : is_Some (row !! Z.to_nat (ChannelNode.type n)))
      by (apply lookup_lt_is_Some_2; lia).
    destruct Hc as [w Hcol]. exists w. apply node_data_Ok.
    unfold in_grid. rewrite Hw, Hh. split; [lia|]. split; [lia|]. eauto.
Qed.

Lemma setup_nodes_node_data_witness :
  ∃ st', setup_nodes ex_loop_state = Ok st'
    ∧ width st' = 2 ∧ height st' = 1
    ∧ (∃ w, node_data st' n1 = Ok w)
    ∧ ¬ (∃ w, node_data st' n2 = Ok w).
Proof.
  eexists. split; [vm_compute; reflexivity|].
  match goal with |- width ?s = _ ∧ _ =>
    destruct (setup_nodes_node_data ex_loop_state s) as (Hw & Hh & _ & Hn);
      [vm_compute; reflexivity|]
  end.
  split; [exact Hw|]. split; [exact Hh|]. split.
  - apply Hn. simpl. lia.
  - intros Hex. apply Hn in Hex. simpl in Hex. lia.
Defined.

Lemma displace_zero d x y : displace d x y 0 = (x, y).
Proof. destruct d; simpl; f_equal; lia. Qed.

Lemma vec_at_lt {A} (v : list A) (i : Z) :
  0 ≤ i < Z.of_nat (length v) → ∃ a, vec_at v i = Ok a.
Proof.
  intros Hi. destruct (lookup_lt_is_Some_2 v (Z.to_nat i)) as [a Ha]; [lia|].
  exists a. apply vec_at_Ok. split; [lia | exact Ha].
Qed.

Lemma resize_cell_returns W H types x y s :
  grid_shape W H types s → 0 ≤ x < W → 0 ≤ y < H →
  ∃ s', resize_cell x y s = Ok s' ∧ grid_shape W H types s'.
Proof.
  intros Hs Hx Hy. pose proof Hs as (Hw & Hh & Ht & Hl).
  destruct (vec_at_lt (nodes s) (y * width s + x)) as [row Hrow];
    [rewrite Hl, Hw; nia|].
  eexists. split.
  - unfold resize_cell. rewrite Hrow. reflexivity.
  - eapply resize_cell_shape; [exact Hs|]. unfold resize_cell. rewrite Hrow. reflexivity.
Qed.

Lemma add_downhill_returns W H types x y t c dh s :
  grid_full W H types s → 0 ≤ x < W → 0 ≤ y < H →
  vec_at types t = Ok c → same_cell_template types c dh →
  ∃ s', add_downhill x y t c dh s = Ok s' ∧ grid_full W H types s'.
Proof.
  intros [Hs Hf] Hx Hy Hc (Hsa & Hlc & d & Hd & Hda & Hld).
  pose proof Hs as (Hw & Hh & Ht & Hl).
  destruct (vec_at_lt (nodes s) (y * width s + x)) as [row Hrow];
    [rewrite Hl, Hw; nia|].
  pose proof Hrow as Hrow'. apply vec_at_Ok in Hrow' as [_ Hrow'].
  unfold rows_full in Hf. rewrite Forall_lookup in Hf.
  pose proof (Hf _ _ Hrow') as Hlen. rewrite Ht in Hlen.
  destruct (vec_at_lt row t) as [w1 Hw1].
  { rewrite Hlen. apply vec_at_Ok in Hc as [? Hc]. apply lookup_lt_Some in Hc. lia. }
  destruct (vec_at_lt row (Downhill.dst_type dh)) as [w2 Hw2].
  { rewrite Hlen. apply vec_at_Ok in Hd as [? Hd]. apply lookup_lt_Some in Hd. lia. }
  assert (Hres : ∃ s', add_downhill x y t c dh s = Ok s').
  { unfold add_downhill, NPNR_ASSERT. rewrite Hsa, Hda, Ht, Hd.
    destruct (Z.leb_spec 0 (Channel.length c)); [|lia]. simpl.
    rewrite displace_zero. simpl.
    destruct (Z.leb_spec 0 (Channel.length d)); [|lia]. simpl.
    rewrite displace_zero. rewrite Hrow. simpl. rewrite Hw1. simpl.
    rewrite Hw2. simpl. eauto. }
  destruct Hres as [s' Hs']. exists s'. split; [exact Hs'|]. split.
  - eapply add_downhill_shape; eassumption.
  - eapply add_downhill_rows_full; [|exact Hs']. apply Forall_lookup. exact Hf.
Qed.

Lemma add_channel_type_returns W H types x y t s :
  grid_full W H types s → 0 ≤ x < W → 0 ≤ y < H →
  0 ≤ t < Z.of_nat (length types) →
  (∀ t c dh, vec_at types t = Ok c → dh ∈ Channel.downhill c →
             same_cell_template types c dh) →
  ∃ s', add_channel_type x y t s = Ok s' ∧ grid_full W H types s'.
Proof.
  intros Hs Hx Hy Ht Htempl. destruct (vec_at_lt types t Ht) as [c Hc].
  unfold add_channel_type. destruct Hs as [Hs Hf].
  pose proof Hs as (_ & _ & Hty & _). rewrite Hty, Hc. simpl.
  apply (for_each_returns (grid_full W H types)); [|split; assumption].
  intros dh u Hdh Hu. eapply add_downhill_returns; eauto.
Qed.

(** X16.  Set-up returns when the grid has no negative number of cells
    and every junction template stays on its cell, names a channel type
    that exists and passes the two assertions: no look-up of the two
    passes can then fail. *)
Theorem setup_nodes_returns st :
  let W := ChannelGraph.get_width (g st) in
  let H := ChannelGraph.get_height (g st) in
  let types := ChannelGraph.get_channels (g st) in
  0 ≤ W * H →
  (∀ t c dh, vec_at types t = Ok c → dh ∈ Channel.downhill c →
             same_cell_template types c dh) →
  ∃ st', setup_nodes st = Ok st'.
Proof.
  intros W H types HWH Htempl. unfold setup_nodes. simpl. fold W H types.
  destruct (Z.ltb_spec (W * H) 0) as [|_]; [lia|].
  set (st1 := set_channel_types _ types).
  assert (Hs1 : grid_shape W H types st1)
    by (unfold grid_shape, st1; simpl; rewrite length_resize; auto).
  destruct (for_each_returns (grid_shape W H types)
              (λ y, for_each (λ x, resize_cell x y) (seqZ 0 W)) (seqZ 0 H))
    with (s := st1) as (st2 & Hfirst & Hs2); [ | exact Hs1 | ].
  { intros y s Hy Hs. apply (for_each_returns (grid_shape W H types)); [|exact Hs].
    intros x u Hx Hu. apply elem_of_seqZ in Hx, Hy.
    apply (resize_cell_returns W H types); [exact Hu | lia | lia]. }
  rewrite Hfirst. simpl. pose proof Hs2 as (Hw2 & Hh2 & Ht2 & Hl2).
  rewrite Hw2, Hh2, Ht2.
  destruct (decide (0 < W ∧ 0 < H)) as [[HW HH] | Hempty].
  - destruct (resize_cells_rows_full W H types _ _ HW HH Hs1 Hfirst) as [_ Hf2].
    destruct (for_each_returns (grid_full W H types)
                (λ y, for_each
                        (λ x, for_each (add_channel_type x y)
                                (seqZ 0 (Z.of_nat (length types))))
                        (seqZ 0 W)) (seqZ 0 H))
      with (s := st2) as (st' & Hloop & _); [ | split; assumption | eauto ].
    intros y s Hy Hs. apply (for_each_returns (grid_full W H types)); [|exact Hs].
    intros x u Hx Hu. apply (for_each_returns (grid_full W H types)); [|exact Hu].
    intros t v Ht Hv. apply elem_of_seqZ in Hx, Hy, Ht.
    apply (add_channel_type_returns W H types); [exact Hv | lia | lia | lia | exact Htempl].
  - destruct (decide (0 < H)) as [HH|HH].
    + assert (HW : W ≤ 0) by lia.
      replace (seqZ 0 W) with (@nil Z)
        by (unfold seqZ; replace (Z.to_nat W) with O by lia; reflexivity).
      exists st2. clear. induction (seqZ 0 H) as [|y l IH]; simpl; [reflexivity | exact IH].
    + replace (seqZ 0 H) with (@nil Z)
        by (unfold seqZ; replace (Z.to_nat H) with O by lia; reflexivity).
      exists st2. reflexivity.
Qed.

Lemma setup_nodes_returns_witness : ∃ st', setup_nodes ex_loop_state = Ok st'.
Proof.
  apply (setup_nodes_returns ex_loop_state).
  - simpl. lia.
  - intros t c dh Hc Hdh. simpl in Hc.
    apply vec_at_Ok in Hc as [Ht Hc].
    destruct (Z.to_nat t) as [|k] eqn:Ek; simpl in Hc; [|destruct k; discriminate].
    injection Hc as <-. simpl in Hdh.
    apply elem_of_cons in Hdh as [-> | Hdh]; [|inversion Hdh].
    unfold same_cell_template. simpl. split; [reflexivity|]. split; [lia|].
    eexists. split; [reflexivity|]. simpl. split; [reflexivity | lia].
Defined.

(** ** Net records: slots, boxes, centroid *)

Section setup_arcs.
Context (gr : ChannelGraph) (ni : NetInfo) (src : ChannelNode).

Lemma setup_arcs_fold (users : list PortRef) : ∀ (j : nat) (nd : PerNetData) (m : Z),
  (j + length users ≤ length (PerNetData.arcs nd))%nat →
  0 ≤ m →
  m * ArcBounds.x0 (PerNetData.bb nd) ≤ PerNetData.cx nd
    ≤ m * ArcBounds.x1 (PerNetData.bb nd) →
  m * ArcBounds.y0 (PerNetData.bb nd) ≤ PerNetData.cy nd
    ≤ m * ArcBounds.y1 (PerNetData.bb nd) →
  let r := (foldl (setup_arc gr ni src) (j, nd) users).2 in
  let m' := m + Z.of_nat (length users) in
  PerNetData.src_node r = PerNetData.src_node nd
  ∧ PerNetData.total_route_us r = PerNetData.total_route_us nd
  ∧ length (PerNetData.arcs r) = length (PerNetData.arcs nd)
  ∧ (∀ i, (i < j)%nat → PerNetData.arcs r !! i = PerNetData.arcs nd !! i)
  ∧ (∀ i u, users !! i = Some u →
       ∃ old, PerNetData.arcs nd !! (j + i)%nat = Some old
              ∧ PerNetData.arcs r !! (j + i)%nat
                = Some (PerArcData.mk (ChannelGraph.get_sink_node gr ni u)
                          (arc_box src (ChannelGraph.get_sink_node gr ni u))
                          (PerArcData.routed old)))
  ∧ (∀ n, in_box (PerNetData.bb nd) n → in_box (PerNetData.bb r) n)
  ∧ (∀ u, u ∈ users → in_box (PerNetData.bb r) (ChannelGraph.get_sink_node gr ni u))
  ∧ m' * ArcBounds.x0 (PerNetData.bb r) ≤ PerNetData.cx r
      ≤ m' * ArcBounds.x1 (PerNetData.bb r)
  ∧ m' * ArcBounds.y0 (PerNetData.bb r) ≤ PerNetData.cy r
      ≤ m' * ArcBounds.y1 (PerNetData.bb r).
Proof.
  induction users as [|u us IH]; intros j nd m Hlen Hm Hcx Hcy r m'.
  - subst r m'. simpl. rewrite Z.add_0_r.
    split; [reflexivity|]. split; [reflexivity|]. split; [reflexivity|].
    split; [reflexivity|]. split; [intros [|i] u Hi; discriminate Hi|].
    split; [auto|]. split; [intros u Hu; inversion Hu|]. split; assumption.
  - simpl in Hlen.
    set (sink := ChannelGraph.get_sink_node gr ni u).
    set (nd1 := (setup_arc gr ni src (j, nd) u).2).
    assert (Hacc : setup_arc gr ni src (j, nd) u = (S j, nd1)) by reflexivity.
    assert (Hbox1 : ∀ n, in_box (PerNetData.bb nd) n → in_box (PerNetData.bb nd1) n).
    { intros n. unfold in_box, nd1. simpl. lia. }
    assert (Hsink1 : in_box (PerNetData.bb nd1) sink).
    { unfold in_box, nd1. simpl. fold sink. lia. }
    destruct (IH (S j) nd1 (m + 1)) as (H1 & H2 & H3 & H4 & H5 & H6 & H7 & H8 & H9).
    { unfold nd1. simpl. rewrite length_alter. lia. }
    { lia. }
    { unfold nd1. simpl. fold sink. nia. }
    { unfold nd1. simpl. fold sink. nia. }
    subst r m'. cbn [foldl]. rewrite Hacc.
    split; [rewrite H1; reflexivity|]. split; [rewrite H2; reflexivity|].
    split; [rewrite H3; unfold nd1; simpl; apply length_alter|].
    split.
    { intros i Hi. rewrite H4 by lia. unfold nd1. simpl.
      apply list_lookup_alter_ne. lia. }
    split.
    { intros [|i] u' Hi; simpl in Hi.
      - injection Hi as <-. rewrite Nat.add_0_r.
        destruct (lookup_lt_is_Some_2 (PerNetData.arcs nd) j) as [old Hold]; [lia|].
        exists old. split; [exact Hold|].
        rewrite H4 by lia. unfold nd1. simpl.
        rewrite list_lookup_alter_eq, Hold. reflexivity.
      - destruct (H5 i u' Hi) as (old & Hold & Hres).
        replace (j + S i)%nat with (S j + i)%nat by lia.
        unfold nd1 in Hold. simpl in Hold.
        rewrite list_lookup_alter_ne in Hold by lia.
        exists old. split; [exact Hold | exact Hres]. }
    split; [intros n Hn; apply H6, Hbox1, Hn|].
    split.
    { intros u' Hu'. apply elem_of_cons in Hu' as [-> | Hu'].
      - apply H6, Hsink1.
      - apply H7, Hu'. }
    replace (m + Z.of_nat (length (u :: us))) with (m + 1 + Z.of_nat (length us))
      by (simpl; lia).
    split; assumption.
Qed.
End setup_arcs.

Lemma quot_between (k a b s : Z) :
  0 < k → k * a ≤ s ≤ k * b → a ≤ Z.quot s k ≤ b.
Proof.
  intros Hk Hs. pose proof (Z.quot_rem' s k) as Hqr.
  destruct (Z_le_gt_dec 0 s) as [Hpos|Hneg].
  - pose proof (Z.rem_bound_pos s k Hpos Hk). nia.
  - pose proof (Z.rem_bound_pos_neg s k Hk ltac:(lia)). nia.
Qed.

(** The record that [setup_nets] builds for a net with a driver. *)
Lemma setup_net_record_driven gr ni nd drv :
  NetInfo.driver_cell ni = Some drv →
  let r := (setup_net_record gr ni nd).1 in
  let src := ChannelGraph.get_source_node gr ni in
  let b := PerNetData.bb r in
  PerNetData.src_node r = src
  ∧ length (PerNetData.arcs r) = length (NetInfo.users ni)
  ∧ (∀ j u, NetInfo.users ni !! j = Some u →
       ∃ ad, PerNetData.arcs r !! j = Some ad
             ∧ PerArcData.sink_node ad = ChannelGraph.get_sink_node gr ni u
             ∧ PerArcData.bb ad = arc_box src (ChannelGraph.get_sink_node gr ni u))
  ∧ in_box b src
  ∧ (∀ u, u ∈ NetInfo.users ni → in_box b (ChannelGraph.get_sink_node gr ni u))
  ∧ PerNetData.hpwl r
    = Z.max ((ArcBounds.y1 b - ArcBounds.y0 b) + (ArcBounds.x1 b - ArcBounds.x0 b)) 1
  ∧ ArcBounds.x0 b ≤ PerNetData.cx r ≤ ArcBounds.x1 b
  ∧ ArcBounds.y0 b ≤ PerNetData.cy r ≤ ArcBounds.y1 b.
Proof.
  intros Hdrv r src b. subst r b. unfold setup_net_record. rewrite Hdrv.
  fold src.
  set (nd1 :=
    PerNetData.mk src
      (resize (length (NetInfo.users ni)) PerArcData.init (PerNetData.arcs nd))
      (ArcBounds.mk (ChannelNode.x src) (ChannelNode.y src)
         (ChannelNode.x src) (ChannelNode.y src))
      (0 + ChannelNode.x src) (0 + ChannelNode.y src)
      (PerNetData.hpwl nd) (PerNetData.total_route_us nd)).
  destruct (setup_arcs_fold gr ni src (NetInfo.users ni) O nd1 1)
    as (H1 & H2 & H3 & H4 & H5 & H6 & H7 & H8 & H9).
  { unfold nd1. simpl. rewrite length_resize. lia. }
  { lia. }
  { unfold nd1. simpl. lia. }
  { unfold nd1. simpl. lia. }
  set (nd2 := (foldl (setup_arc gr ni src) (O, nd1) (NetInfo.users ni)).2) in *.
  assert (Hsrc : in_box (PerNetData.bb nd2) src).
  { apply H6. unfold in_box, nd1. simpl. lia. }
  cbn [fst PerNetData.src_node PerNetData.arcs PerNetData.bb PerNetData.hpwl
       PerNetData.cx PerNetData.cy].
  split; [reflexivity|].
  split; [rewrite H3; unfold nd1; simpl; apply length_resize|].
  split.
  { intros j u Hu. destruct (H5 j u Hu) as (old & _ & Hres). simpl in Hres.
    eexists. split; [exact Hres|]. split; reflexivity. }
  split; [exact Hsrc|]. split; [exact H7|].
  unfold in_box in Hsrc. split; [lia|].
  replace (Z.of_nat (length (NetInfo.users ni) + 1)) with (1 + Z.of_nat (length (NetInfo.users ni)))
    by lia.
  split; apply quot_between; (lia || assumption).
Qed.

(** One round of the loop of [setup_nets], with what it writes. *)
Lemma setup_net_step_slots key ni0 i st :
  (i < length (nets st))%nat → (i < length (nets_by_udata st))%nat →
  ∃ st' old,
    setup_net (key, ni0) (i, st)
    = Ok ((i + if driven (key, ni0) then 1 else 0)%nat, st')
    ∧ nets st !! i = Some old
    ∧ nets st'
      = <[i := (setup_net_record (g st) (NetInfo.set_udata ni0 (Z.of_nat i)) old).1]>
          (nets st)
    ∧ nets_by_udata st' = <[i := Some key]> (nets_by_udata st)
    ∧ g st' = g st ∧ cfg st' = cfg st.
Proof.
  intros Hn Hu. unfold setup_net.
  apply lookup_lt_is_Some_2 in Hn as [nd Hnd], Hu as [p Hp].
  assert (H1 : vec_at (nets_by_udata st) (Z.of_nat i) = Ok p)
    by (apply vec_at_Ok; rewrite Nat2Z.id; split; [lia | exact Hp]).
  assert (H2 : vec_at (nets st) (Z.of_nat i) = Ok nd)
    by (apply vec_at_Ok; rewrite Nat2Z.id; split; [lia | exact Hnd]).
  simpl. rewrite H1. simpl. rewrite H2. simpl.
  pose proof (setup_net_record_counted (g st)
                (NetInfo.set_udata ni0 (Z.of_nat i)) nd) as Hc.
  destruct (setup_net_record _ _ nd) as [nd' counted] eqn:Hrec. simpl in Hc.
  subst counted. eexists _, nd. split.
  - unfold driven. simpl.
    destruct (NetInfo.driver_cell ni0); [replace (i + 1)%nat with (S i) by lia|
                                         replace (i + 0)%nat with i by lia];
      reflexivity.
  - simpl. rewrite Hrec. auto.
Qed.

Lemma setup_nets_loop_slots l : ∀ i st,
  (i + length l ≤ length (nets st))%nat →
  (i + length l ≤ length (nets_by_udata st))%nat →
  ∃ i' st',
    for_each setup_net l (i, st) = Ok (i', st')
    ∧ g st' = g st ∧ cfg st' = cfg st
    ∧ (∀ s, (s < i)%nat →
         nets st' !! s = nets st !! s
         ∧ nets_by_udata st' !! s = nets_by_udata st !! s)
    ∧ (∀ k key ni, l !! k = Some (key, ni) → driven (key, ni) = true →
         let s := (i + count_driven (take k l))%nat in
         nets_by_udata st' !! s = Some (Some key)
         ∧ ∃ old, nets st' !! s
                  = Some (setup_net_record (g st)
                            (NetInfo.set_udata ni (Z.of_nat s)) old).1).
Proof.
  induction l as [|[key0 ni0] l IH]; intros i st Hn Hu.
  - exists i, st. split; [reflexivity|]. split; [reflexivity|]. split; [reflexivity|].
    split; [auto|]. intros [|k] key ni Hk; discriminate Hk.
  - simpl in Hn, Hu.
    destruct (setup_net_step_slots key0 ni0 i st)
      as (st1 & old & Hstep & Hold & Hnets & Hby & Hg & Hcfg); [lia | lia |].
    set (i1 := (i + if driven (key0, ni0) then 1 else 0)%nat) in *.
    assert (Hi1 : (i ≤ i1 ≤ i + 1)%nat) by (unfold i1; destruct (driven _); lia).
    destruct (IH i1 st1) as (i' & st' & Hloop & Hg' & Hcfg' & Hlow & Hin).
    { rewrite Hnets, length_insert. lia. }
    { rewrite Hby, length_insert. lia. }
    exists i', st'. split; [cbn [for_each]; rewrite Hstep; exact Hloop|].
    split; [congruence|]. split; [congruence|]. split.
    + intros s Hs. destruct (Hlow s ltac:(lia)) as [Ha Hb].
      rewrite Ha, Hb, Hnets, Hby.
      rewrite !list_lookup_insert_ne by lia. auto.
    + intros [|k] key ni Hk Hdr; simpl in Hk.
      * injection Hk as -> ->. simpl. rewrite Nat.add_0_r.
        assert (Hi1' : i1 = S i) by (unfold i1; rewrite Hdr; lia).
        destruct (Hlow i ltac:(lia)) as [Ha Hb]. rewrite Ha, Hb, Hnets, Hby.
        rewrite !list_lookup_insert_eq by lia. split; [reflexivity|].
        exists old. reflexivity.
      * destruct (Hin k key ni Hk Hdr) as [Ha (old' & Hb)].
        replace (i + count_driven (take (S k) ((key0, ni0) :: l)))%nat
          with (i1 + count_driven (take k l))%nat
          by (simpl; unfold i1; lia).
        split; [exact Ha|]. exists old'. rewrite Hb, Hg. reflexivity.
Qed.

(** [setup_nets] always returns; what it leaves for a net with a driver. *)
Lemma setup_nets_driven_record st :
  let l := sorted (Context.nets (ctx st)) in
  ∃ st', setup_nets st = Ok st'
    ∧ g st' = g st ∧ cfg st' = cfg st
    ∧ ∀ k key ni, l !! k = Some (key, ni) → driven (key, ni) = true →
        let s := count_driven (take k l) in
        Context.nets (ctx st') !! key = Some (NetInfo.set_udata ni (Z.of_nat s))
        ∧ nets_by_udata st' !! s = Some (Some key)
        ∧ ∃ old, nets st' !! s
                 = Some (setup_net_record (g st)
                           (NetInfo.set_udata ni (Z.of_nat s)) old).1.
Proof.
  intros l. unfold setup_nets.
  set (n := size (Context.nets (ctx st))).
  set (st0 := set_nets_by_udata (set_nets st _) _).
  assert (Hlen : length l = n) by apply sorted_length.
  destruct (setup_nets_loop l O st0) as (i1 & st1 & Hloop1 & Hin1 & _).
  { apply sorted_NoDup. }
  { unfold st0. simpl. rewrite length_resize. lia. }
  { unfold st0. simpl. rewrite length_resize. lia. }
  destruct (setup_nets_loop_slots l O st0) as (i' & st' & Hloop & Hg & Hcfg & _ & Hin).
  { unfold st0. simpl. rewrite length_resize. lia. }
  { unfold st0. simpl. rewrite length_resize. lia. }
  rewrite Hloop in Hloop1. injection Hloop1 as <- <-.
  exists st'. split.
  { change (Context.nets (ctx st0)) with (Context.nets (ctx st)). fold l.
    rewrite Hloop. reflexivity. }
  split; [exact Hg|]. split; [exact Hcfg|].
  intros k key ni Hk Hdr. cbv zeta. split; [apply (Hin1 k key ni Hk)|].
  exact (Hin k key ni Hk Hdr).
Qed.

Lemma setup_nets_driven_spec st st' k key ni drv :
  let l := sorted (Context.nets (ctx st)) in
  setup_nets st = Ok st' →
  l !! k = Some (key, ni) → NetInfo.driver_cell ni = Some drv →
  let s := count_driven (take k l) in
  let ni' := NetInfo.set_udata ni (Z.of_nat s) in
  cfg st' = cfg st
  ∧ Context.nets (ctx st') !! key = Some ni'
  ∧ nets_by_udata st' !! s = Some (Some key)
  ∧ ∃ old, nets st' !! s = Some (setup_net_record (g st) ni' old).1.
Proof.
  intros l Hok Hk Hdrv s ni'.
  destruct (setup_nets_driven_record st) as (st'' & Hok' & _ & Hcfg & Hrec).
  rewrite Hok in Hok'. injection Hok' as <-.
  split; [exact Hcfg|]. apply (Hrec k key ni Hk).
  unfold driven. simpl. rewrite Hdrv. reflexivity.
Qed.

(** X17.  [setup_nets] never throws, and a net with a driver owns its
    slot: with [s] the number of driven nets before it in the order of the
    names, its [udata] is [s], [nets_by_udata[s]] names it, and [nets[s]]
    holds its driver node and one arc per user with the user's sink node,
    whatever nets without driver come before or after it. *)
Theorem setup_nets_driven_slot st :
  let l := sorted (Context.nets (ctx st)) in
  ∃ st', setup_nets st = Ok st'
    ∧ ∀ k key ni drv, l !! k = Some (key, ni) → NetInfo.driver_cell ni = Some drv →
        let s := count_driven (take k l) in
        let ni' := NetInfo.set_udata ni (Z.of_nat s) in
        Context.nets (ctx st') !! key = Some ni'
        ∧ nets_by_udata st' !! s = Some (Some key)
        ∧ ∃ nd, nets st' !! s = Some nd
            ∧ PerNetData.src_node nd = ChannelGraph.get_source_node (g st) ni'
            ∧ length (PerNetData.arcs nd) = length (NetInfo.users ni)
            ∧ ∀ j u, NetInfo.users ni !! j = Some u →
                ∃ ad, PerNetData.arcs nd !! j = Some ad
                      ∧ PerArcData.sink_node ad
                        = ChannelGraph.get_sink_node (g st) ni' u.
Proof.
  intros l. destruct (setup_nets_driven_record st) as (st' & Hok & _).
  exists st'. split; [exact Hok|]. intros k key ni drv Hk Hdrv s ni'.
  destruct (setup_nets_driven_spec st st' k key ni drv Hok Hk Hdrv)
    as (_ & Hctx & Hby & old & Hnd).
  split; [exact Hctx|]. split; [exact Hby|].
  eexists. split; [exact Hnd|].
  destruct (setup_net_record_driven (g st) ni' old drv Hdrv)
    as (H1 & H2 & H3 & _).
  split; [exact H1|]. split; [exact H2|].
  intros j u Hu. destruct (H3 j u Hu) as (ad & Had & Hsink & _). eauto.
Qed.

Lemma setup_nets_driven_slot_witness :
  ∃ st', setup_nets ex_undriven = Ok st'
    ∧ Context.nets (ctx st') !! "b" = Some (NetInfo.set_udata ex_net_b 0)
    ∧ nets_by_udata st' !! 0%nat = Some (Some "b")
    ∧ ∃ nd, nets st' !! 0%nat = Some nd
        ∧ PerNetData.src_node nd = n0
        ∧ length (PerNetData.arcs nd) = 1%nat.
Proof.
  destruct (setup_nets_driven_slot ex_undriven) as (st' & Hok & H).
  exists st'. split; [exact Hok|].
  destruct (H 1%nat "b" ex_net_b "drv" eq_refl eq_refl)
    as (H1 & H2 & nd & H3 & H4 & H5 & _).
  split; [exact H1|]. split; [exact H2|]. exists nd.
  split; [exact H3|]. split; [exact H4 | exact H5].
Defined.

(** X18.  Bounding boxes.  In the record of a net with a driver, the box
    of every arc is the smallest box around the driver node and the arc's
    sink node, the box of the net holds the driver node and every sink
    node, and [hpwl] is the half perimeter of the net's box, or 1 when
    that is 0. *)
Theorem setup_nets_boxes st st' k key ni drv :
  let l := sorted (Context.nets (ctx st)) in
  setup_nets st = Ok st' →
  l !! k = Some (key, ni) → NetInfo.driver_cell ni = Some drv →
  ∃ nd, nets st' !! count_driven (take k l) = Some nd
    ∧ in_box (PerNetData.bb nd) (PerNetData.src_node nd)
    ∧ (∀ j ad, PerNetData.arcs nd !! j = Some ad →
         PerArcData.bb ad = arc_box (PerNetData.src_node nd) (PerArcData.sink_node ad)
         ∧ in_box (PerNetData.bb nd) (PerArcData.sink_node ad))
    ∧ PerNetData.hpwl nd
      = Z.max ((ArcBounds.y1 (PerNetData.bb nd) - ArcBounds.y0 (PerNetData.bb nd))
               + (ArcBounds.x1 (PerNetData.bb nd) - ArcBounds.x0 (PerNetData.bb nd))) 1
    ∧ 1 ≤ PerNetData.hpwl nd.
Proof.
  intros l Hok Hk Hdrv. subst l.
  destruct (setup_nets_driven_spec st st' k key ni drv Hok Hk Hdrv)
    as (_ & _ & _ & old & Hnd).
  eexists. split; [exact Hnd|].
  destruct (setup_net_record_driven (g st)
              (NetInfo.set_udata ni (Z.of_nat (count_driven (take k (sorted (Context.nets (ctx st))))))) old drv Hdrv)
    as (H1 & H2 & H3 & H4 & H5 & H6 & _).
  split; [rewrite H1; exact H4|]. split; [|split; [exact H6 | rewrite H6; lia]].
  intros j ad Had.
  assert (Hj : (j < length (NetInfo.users ni))%nat).
  { change (NetInfo.users ni)
      with (NetInfo.users (NetInfo.set_udata ni (Z.of_nat (count_driven (take k (sorted (Context.nets (ctx st)))))))).
    rewrite <- H2. eapply lookup_lt_Some, Had. }
  destruct (lookup_lt_is_Some_2 _ _ Hj) as [u Hu].
  destruct (H3 j u Hu) as (ad' & Had' & Hsink & Hbb).
  rewrite Had in Had'. injection Had' as <-.
  rewrite H1, Hsink. split; [exact Hbb|].
  apply H5. eapply list_elem_of_lookup_2, Hu.
Qed.

Lemma setup_nets_boxes_witness :
  ∃ st' nd, setup_nets ex_undriven = Ok st'
    ∧ nets st' !! 0%nat = Some nd
    ∧ in_box (PerNetData.bb nd) (PerNetData.src_node nd)
    ∧ 1 ≤ PerNetData.hpwl nd.
Proof.
  destruct (setup_nets ex_undriven) as [st'|] eqn:Hok; [|discriminate Hok].
  destruct (setup_nets_boxes ex_undriven st' 1%nat "b" ex_net_b "drv" Hok eq_refl eq_refl)
    as (nd & H1 & H2 & _ & _ & H3).
  exists st', nd. split; [reflexivity|]. split; [exact H1|]. split; [exact H2 | exact H3].
Defined.

(** X19.  The centroid of a net with a driver lies in the net's box: the
    integer division of the coordinate sums by the number of nodes does
    not take it outside. *)
Theorem setup_nets_centroid st st' k key ni drv :
  let l := sorted (Context.nets (ctx st)) in
  setup_nets st = Ok st' →
  l !! k = Some (key, ni) → NetInfo.driver_cell ni = Some drv →
  ∃ nd, nets st' !! count_driven (take k l) = Some nd
    ∧ ArcBounds.x0 (PerNetData.bb nd) ≤ PerNetData.cx nd ≤ ArcBounds.x1 (PerNetData.bb nd)
    ∧ ArcBounds.y0 (PerNetData.bb nd) ≤ PerNetData.cy nd ≤ ArcBounds.y1 (PerNetData.bb nd).
Proof.
  intros l Hok Hk Hdrv. subst l.
  destruct (setup_nets_driven_spec st st' k key ni drv Hok Hk Hdrv)
    as (_ & _ & _ & old & Hnd).
  eexists. split; [exact Hnd|].
  destruct (setup_net_record_driven (g st)
              (NetInfo.set_udata ni (Z.of_nat (count_driven (take k (sorted (Context.nets (ctx st))))))) old drv Hdrv)
    as (_ & _ & _ & _ & _ & _ & H7 & H8).
  split; assumption.
Qed.

Lemma setup_nets_centroid_witness :
  ∃ st' nd, setup_nets ex_undriven = Ok st'
    ∧ nets st' !! 0%nat = Some nd
    ∧ ArcBounds.x0 (PerNetData.bb nd) ≤ PerNetData.cx nd ≤ ArcBounds.x1 (PerNetData.bb nd).
Proof.
  destruct (setup_nets ex_undriven) as [st'|] eqn:Hok; [|discriminate Hok].
  destruct (setup_nets_centroid ex_undriven st' 1%nat "b" ex_net_b "drv" Hok eq_refl eq_refl)
    as (nd & H1 & H2 & _).
  exists st', nd. split; [reflexivity|]. split; [exact H1 | exact H2].
Defined.

(** X20.  The search can start and end: with margins that are not
    negative, [hit_test_node] accepts the driver node and the sink node of
    every arc against the arc's box. *)
Theorem setup_nets_hit_test st st' k key ni drv :
  let l := sorted (Context.nets (ctx st)) in
  setup_nets st = Ok st' →
  l !! k = Some (key, ni) → NetInfo.driver_cell ni = Some drv →
  0 ≤ ChannelRouterCfg.bb_margin_x (cfg st) →
  0 ≤ ChannelRouterCfg.bb_margin_y (cfg st) →
  ∃ nd, nets st' !! count_driven (take k l) = Some nd
    ∧ ∀ j ad, PerNetData.arcs nd !! j = Some ad →
        hit_test_node st' (PerArcData.bb ad) (PerNetData.src_node nd) = true
        ∧ hit_test_node st' (PerArcData.bb ad) (PerArcData.sink_node ad) = true.
Proof.
  intros l Hok Hk Hdrv Hmx Hmy. subst l.
  destruct (setup_nets_driven_spec st st' k key ni drv Hok Hk Hdrv)
    as (Hcfg & _ & _ & old & Hnd).
  eexists. split; [exact Hnd|].
  destruct (setup_net_record_driven (g st)
              (NetInfo.set_udata ni (Z.of_nat (count_driven (take k (sorted (Context.nets (ctx st))))))) old drv Hdrv)
    as (H1 & H2 & H3 & _).
  intros j ad Had.
  assert (Hj : (j < length (NetInfo.users ni))%nat).
  { change (NetInfo.users ni)
      with (NetInfo.users (NetInfo.set_udata ni (Z.of_nat (count_driven (take k (sorted (Context.nets (ctx st)))))))).
    rewrite <- H2. eapply lookup_lt_Some, Had. }
  destruct (lookup_lt_is_Some_2 _ _ Hj) as [u Hu].
  destruct (H3 j u Hu) as (ad' & Had' & Hsink & Hbb).
  rewrite Had in Had'. injection Had' as <-.
  unfold hit_test_node. rewrite Hcfg, Hbb, H1, Hsink. unfold arc_box. simpl.
  rewrite !Z.geb_leb, !andb_true_iff, !Z.leb_le. lia.
Qed.

Lemma setup_nets_hit_test_witness :
  ∃ st' nd, setup_nets ex_undriven = Ok st'
    ∧ nets st' !! 0%nat = Some nd
    ∧ ∀ j ad, PerNetData.arcs nd !! j = Some ad →
        hit_test_node st' (PerArcData.bb ad) (PerNetData.src_node nd) = true
        ∧ hit_test_node st' (PerArcData.bb ad) (PerArcData.sink_node ad) = true.
Proof.
  destruct (setup_nets ex_undriven) as [st'|] eqn:Hok; [|discriminate Hok].
  destruct (setup_nets_hit_test ex_undriven st' 1%nat "b" ex_net_b "drv" Hok eq_refl eq_refl)
    as (nd & H1 & H2).
  - simpl. lia.
  - simpl. lia.
  - exists st', nd. split; [reflexivity|]. split; [exact H1 | exact H2].
Defined.

(** ** Settings: writing and reading back *)

Lemma int_to_string_cast (z : Z) : lexical_cast (to_string z) = Some z.
Proof.
  unfold lexical_cast, to_string, SettingType_int.
  rewrite NilZero.isi.
  - simpl. f_equal. apply DecimalZ.of_to.
  - destruct z; simpl; try discriminate. intros [= H].
    exact (DecimalPos.Unsigned.to_uint_nonnil _ H).
  - destruct z; simpl; try discriminate. intros [= H].
    exact (DecimalPos.Unsigned.to_uint_nonnil _ H).
Qed.

(** X21.  What [Settings::set] stores, [Settings::get] returns, for a
    value whose string reads back as the value (as every [int] does, and
    not every [float]): the get returns the value, not the default, and
    leaves the context as the set made it.  A set under one name does not
    change the value that a get returns for another name. *)
Theorem Settings_set_get {T} `{SettingType T} (c : Context) (name : string)
  (value defaultValue : T) :
  (lexical_cast (to_string value) = Some value →
     Settings_get (Settings_set c name value) name defaultValue
     = Ok (value, Settings_set c name value))
  ∧ (∀ name', name' ≠ name →
       fst <$> Settings_get (Settings_set c name value) name' defaultValue
       = fst <$> Settings_get c name' defaultValue).
Proof.
  split.
  - intros Hrt. unfold Settings_get, Settings_set. simpl.
    rewrite lookup_insert_eq. simpl. rewrite Hrt. reflexivity.
  - intros name' Hne. unfold Settings_get, Settings_set. simpl.
    rewrite lookup_insert_ne by congruence.
    destruct (Context.settings c !! name') as [p|]; [|reflexivity].
    destruct (lexical_cast (Property.str p)); reflexivity.
Qed.

Lemma Settings_set_get_witness :
  Settings_get (Settings_set ex_settings "router/iter" 25) "router/iter" 7
  = Ok (25, Settings_set ex_settings "router/iter" 25)
  ∧ fst <$> Settings_get (Settings_set ex_settings "router/iter" 25) "router/seed" 1
    = fst <$> Settings_get ex_settings "router/seed" 1.
Proof.
  destruct (Settings_set_get ex_settings "router/iter" 25 7) as [H1 _].
  destruct (Settings_set_get ex_settings "router/iter" 25 1) as [_ H2].
  split; [apply H1; reflexivity | apply H2; discriminate].
Defined.

(** X22.  The first default sticks.  A get of a name that is absent
    stores its default, and every later get of the name returns that
    first default, whatever default it is given, and changes nothing
    more. *)
Theorem Settings_get_default_sticks {T} `{SettingType T} (c : Context)
  (name : string) (defaultValue : T) :
  Context.settings c !! name = None →
  lexical_cast (to_string defaultValue) = Some defaultValue →
  ∃ c1, Settings_get c name defaultValue = Ok (defaultValue, c1)
        ∧ ∀ other : T, Settings_get c1 name other = Ok (defaultValue, c1).
Proof.
  intros Hn Hrt. unfold Settings_get at 1. rewrite Hn. eexists. split; [reflexivity|].
  intros other. unfold Settings_get. simpl. rewrite lookup_insert_eq. simpl.
  rewrite Hrt. reflexivity.
Qed.

Lemma Settings_get_default_sticks_witness :
  ∃ c1, Settings_get ex_settings "router/iter" 7 = Ok (7, c1)
        ∧ ∀ other : Z, Settings_get c1 "router/iter" other = Ok (7, c1).
Proof.
  apply (Settings_get_default_sticks ex_settings "router/iter" 7); reflexivity.
Defined.

(** X23.  [Settings::set<std::string>] stores the string as it is, so a
    get reads the string through [lexical_cast]; and of two sets under one
    name the later one alone remains, for strings and for values. *)
Theorem Settings_set_string_get {T} `{SettingType T} (c : Context) (name : string)
  (s s' : string) (v v' defaultValue : T) :
  (lexical_cast s = Some v →
     Settings_get (Settings_set_string c name s) name defaultValue
     = Ok (v, Settings_set_string c name s))
  ∧ Settings_set_string (Settings_set_string c name s) name s'
    = Settings_set_string c name s'
  ∧ Settings_set (Settings_set c name v) name v' = Settings_set c name v'
  ∧ Settings_set_string c name (to_string v) = Settings_set c name v.
Proof.
  split; [|split; [|split]].
  - intros Hs. unfold Settings_get, Settings_set_string. simpl.
    rewrite lookup_insert_eq. simpl. rewrite Hs. reflexivity.
  - unfold Settings_set_string, Context.set_settings. simpl.
    rewrite insert_insert_eq. reflexivity.
  - unfold Settings_set, Context.set_settings. simpl.
    rewrite insert_insert_eq. reflexivity.
  - reflexivity.
Qed.

Lemma Settings_set_string_get_witness :
  Settings_get (Settings_set_string ex_settings "router/iter" "-12") "router/iter" 7
  = Ok (-12, Settings_set_string ex_settings "router/iter" "-12").
Proof.
  apply (proj1 (Settings_set_string_get ex_settings "router/iter" "-12" "" (-12) 0 7)).
  reflexivity.
Defined.

(** X24.  An [int] setting reads back as it was written, for every
    value: [std::to_string] writes the decimal numeral and [lexical_cast]
    reads it, so the get after a set returns the value and never the
    default. *)
Theorem Settings_set_get_int (c : Context) (name : string) (value defaultValue : Z) :
  Settings_get (Settings_set c name value) name defaultValue
  = Ok (value, Settings_set c name value).
Proof.
  unfold Settings_get, Settings_set.
  cbn [Context.settings Context.set_settings]. rewrite lookup_insert_eq.
  cbn [Property.str]. rewrite int_to_string_cast. reflexivity.
Qed.
